(** * Story engine: karma ledger, NPC brain, twist engine, story graph, analyzer

    A shallow embedding of the five core services of the story engine
    (services/karma_system.py, services/npc_brain.py,
    services/twist_engine.py, services/story_graph.py and
    services/narrative_analyzer.py) together with the statements that the
    specification makes about them, and further properties of the services
    read off the code (the statements numbered X1, X2, ...).

    Conventions of the embedding:
    - Python [int] is [Z]; Python [float] is the kernel's binary64 [float];
    - a [dict] that is only looked up is a [gmap]; a [dict] whose iteration
      order is observable (registries, dictionary literals that are iterated)
      is an association list in insertion order;
    - a Python [set] that is only tested for membership is a [gset]; one that
      is iterated is a duplicate-free list in its iteration order;
    - a function that can raise returns a [Result]. *)

From Stdlib Require Import ZArith List String Ascii Bool Lia QArith Qabs Lqa Floats.
From Stdlib Require Import DecimalString Sorted.
From stdpp Require Import gmap strings list.

Set Warnings "-inexact-float".
Local Open Scope Z_scope.

(** ** Python runtime helpers *)

Module Py.

(** [max(0, min(100, x))] *)
Definition clamp (x : Z) : Z := Z.max 0 (Z.min 100 x).

(** [d.get(k)] on a dictionary literal kept in insertion order. *)
Fixpoint dict_get {V : Type} (k : string) (d : list (string * V)) : option V :=
  match d with
  | [] => None
  | (k', v) :: d' => if String.eqb k k' then Some v else dict_get k d'
  end.

(** [x in l] for a list or set of strings. *)
Definition str_in (x : string) (l : list string) : bool :=
  existsb (String.eqb x) l.

(** The binary64 value nearest to the integer [z]: what [float(z)] returns
    for an integer in the range of the floats.  Beyond the range the value
    is an infinity, where Python raises: code that can be handed such an
    integer converts with [float_of_int] below. *)
Definition float_of_Z (z : Z) : float :=
  SF2Prim (binary_normalize 53 1024 z 0 false).

(** [int(x)] for a float that is a number: truncation toward zero.  (For
    an infinity or NaN, where Python raises, see [int_of] below.) *)
Definition int_of_float (x : float) : Z :=
  match Prim2SF x with
  | S754_finite s m e =>
      let v := if 0 <=? e then Z.pos m * 2 ^ e else Z.pos m / 2 ^ (- e) in
      if s then - v else v
  | _ => 0
  end.

(** [a / b] on two integers (true division). *)
Definition int_div (a b : Z) : float := (float_of_Z a / float_of_Z b)%float.

(** [min(a, b)] on floats: the first argument wins ties. *)
Definition float_min (a b : float) : float := if PrimFloat.ltb b a then b else a.

(** The values a story flag can hold ([Any] in the source, as decoded from
    JSON): [None], a boolean, an integer or a string. *)
Inductive PyVal : Type :=
| PyNone
| PyBool (b : bool)
| PyInt (z : Z)
| PyStr (s : string).

(** [bool(v)] *)
Definition truthy (v : PyVal) : bool :=
  match v with
  | PyNone => false
  | PyBool b => b
  | PyInt z => negb (z =? 0)
  | PyStr s => negb (String.eqb s "")
  end.

(** [str(v)] *)
Definition py_str (v : PyVal) : string :=
  match v with
  | PyNone => "None"
  | PyBool true => "True"
  | PyBool false => "False"
  | PyInt z => DecimalString.NilZero.string_of_int (Z.to_int z)
  | PyStr s => s
  end.

(** [s.lower()] on ASCII text: a string is its bytes, and only the letters
    A-Z are changed. *)
Definition lower_ascii (c : ascii) : ascii :=
  let n := nat_of_ascii c in
  if ((65 <=? n) && (n <=? 90))%nat then ascii_of_nat (n + 32) else c.

Fixpoint lower (s : string) : string :=
  match s with
  | EmptyString => EmptyString
  | String c s' => String (lower_ascii c) (lower s')
  end.

(** The ASCII characters that [str.isspace()] accepts and [str.strip()]
    removes: the space, 9 to 13 and the separators 28 to 31. *)
Definition is_space (c : ascii) : bool :=
  let n := nat_of_ascii c in
  ((n =? 32) || ((9 <=? n) && (n <=? 13)) || ((28 <=? n) && (n <=? 31)))%nat.

Fixpoint lstrip (s : string) : string :=
  match s with
  | EmptyString => EmptyString
  | String c s' => if is_space c then lstrip s' else s
  end.

Definition string_rev (s : string) : string :=
  string_of_list_ascii (rev (list_ascii_of_string s)).

(** [s.strip()] on ASCII text. *)
Definition strip (s : string) : string :=
  string_rev (lstrip (string_rev (lstrip s))).

(** [sub in s] on strings. *)
Fixpoint contains (sub s : string) : bool :=
  if String.prefix sub s then true
  else match s with
       | EmptyString => false
       | String _ s' => contains sub s'
       end.

(** The exceptions that the modelled code can let escape. *)
Inductive Exn : Type :=
| NodeNotFound (msg : string)
| ReError (pattern : string)
| OverflowError (msg : string)
| ValueError (msg : string).

Inductive Result (A : Type) : Type :=
| Ok (a : A)
| Raise (e : Exn).
Arguments Ok {A} a.
Arguments Raise {A} e.

Definition bind {A B : Type} (r : Result A) (k : A -> Result B) : Result B :=
  match r with
  | Ok a => k a
  | Raise e => Raise e
  end.

(** Whether a binary64 value is a number: neither an infinity nor NaN. *)
Definition is_number (x : spec_float) : bool :=
  match x with
  | S754_zero _ | S754_finite _ _ _ => true
  | _ => false
  end.

(** The conversion of an [int] operand of a float operation, as in
    [change * ratio]: an integer that rounds beyond the largest float raises
    [OverflowError]. *)
Definition float_of_int (z : Z) : Result float :=
  match Prim2SF (float_of_Z z) with
  | S754_infinity _ => Raise (OverflowError "int too large to convert to float")
  | _ => Ok (float_of_Z z)
  end.

(** [int(x)] for any float: a number is truncated toward zero, an infinity
    raises [OverflowError] and NaN raises [ValueError]. *)
Definition int_of (x : float) : Result Z :=
  match Prim2SF x with
  | S754_infinity _ => Raise (OverflowError "cannot convert float infinity to integer")
  | S754_nan => Raise (ValueError "cannot convert float NaN to integer")
  | _ => Ok (int_of_float x)
  end.

(** [s.endswith(suffix)], returning what stands before the suffix. *)
Fixpoint strip_prefix (p l : list ascii) : option (list ascii) :=
  match p, l with
  | [], _ => Some l
  | a :: p', b :: l' => if Ascii.eqb a b then strip_prefix p' l' else None
  | _ :: _, [] => None
  end.

Definition strip_suffix (suffix s : string) : option string :=
  option_map (fun r => string_of_list_ascii (rev r))
    (strip_prefix (rev (list_ascii_of_string suffix)) (rev (list_ascii_of_string s))).

Lemma clamp_range (x : Z) : 0 <= clamp x <= 100.
Proof. unfold clamp. lia. Qed.

Lemma clamp_id (x : Z) : 0 <= x <= 100 -> clamp x = x.
Proof. unfold clamp. lia. Qed.

Lemma str_in_In (x : string) (l : list string) : str_in x l = true <-> In x l.
Proof.
  unfold str_in. rewrite existsb_exists. split.
  - intros (y & Hy & E). apply String.eqb_eq in E. now subst.
  - intros H. exists x. split; [exact H | apply String.eqb_refl].
Qed.

Lemma strip_prefix_app (p l : list ascii) : strip_prefix p (p ++ l) = Some l.
Proof.
  induction p as [| a p IH]; simpl; [reflexivity |].
  now rewrite Ascii.eqb_refl.
Qed.

Lemma list_ascii_of_string_app (a b : string) :
  list_ascii_of_string (a +:+ b) = list_ascii_of_string a ++ list_ascii_of_string b.
Proof.
  induction a as [| c a IH]; simpl; [reflexivity | now rewrite IH].
Qed.

Lemma strip_suffix_app (r suffix : string) : strip_suffix suffix (r +:+ suffix) = Some r.
Proof.
  unfold strip_suffix.
  rewrite list_ascii_of_string_app, rev_app_distr, strip_prefix_app. simpl.
  now rewrite rev_involutive, string_of_list_ascii_of_string.
Qed.

Lemma append_inv_tail (a b s : string) : a +:+ s = b +:+ s -> a = b.
Proof.
  intros E. pose proof (strip_suffix_app a s) as Ha.
  rewrite E, strip_suffix_app in Ha. now inversion Ha.
Qed.

(** Two character lists agree as far as the shorter one goes. *)
Fixpoint agree (l1 l2 : list ascii) : bool :=
  match l1, l2 with
  | a :: l1', b :: l2' => Ascii.eqb a b && agree l1' l2'
  | _, _ => true
  end.

Lemma agree_app (l1 l2 x y : list ascii) : l1 ++ x = l2 ++ y -> agree l1 l2 = true.
Proof.
  revert l2. induction l1 as [| a l1 IH]; intros [| b l2] E; simpl; try reflexivity.
  simpl in E. inversion E; subst. rewrite Ascii.eqb_refl. simpl. eapply IH; eassumption.
Qed.

(** Strings with the suffixes [s] and [s'] can only be equal when the two
    suffixes agree from the right. *)
Lemma append_suffix_clash (a b s s' : string) :
  a +:+ s = b +:+ s' ->
  agree (rev (list_ascii_of_string s)) (rev (list_ascii_of_string s')) = true.
Proof.
  intros E. apply (f_equal list_ascii_of_string) in E.
  rewrite !list_ascii_of_string_app in E. apply (f_equal (@rev ascii)) in E.
  rewrite !rev_app_distr in E. eapply agree_app; exact E.
Qed.

Lemma dict_get_In {V : Type} (k : string) (v : V) (d : list (string * V)) :
  dict_get k d = Some v -> In (k, v) d.
Proof.
  induction d as [| [k' v'] d IH]; simpl; [discriminate |].
  destruct (String.eqb_spec k k') as [-> | _].
  - intros E. inversion E. now left.
  - intros E. right. now apply IH.
Qed.

(** *** Binary64 rounding *)

(** The number of binary digits of a positive number. *)
Lemma digits2_pos_bounds (m : positive) :
  2 ^ (Z.pos (digits2_pos m) - 1) <= Z.pos m < 2 ^ Z.pos (digits2_pos m).
Proof.
  induction m as [m IH | m IH |]; cbn [digits2_pos]; rewrite ?Pos2Z.inj_succ.
  - replace (Z.succ (Z.pos (digits2_pos m)) - 1) with (Z.succ (Z.pos (digits2_pos m) - 1))
      by lia.
    rewrite !Z.pow_succ_r by lia. lia.
  - replace (Z.succ (Z.pos (digits2_pos m)) - 1) with (Z.succ (Z.pos (digits2_pos m) - 1))
      by lia.
    rewrite !Z.pow_succ_r by lia. lia.
  - cbn. lia.
Qed.

Lemma Zdigits2_unique (m : positive) (d : Z) :
  2 ^ (d - 1) <= Z.pos m < 2 ^ d -> Z.pos (digits2_pos m) = d.
Proof.
  intros [Hlo Hhi]. pose proof (digits2_pos_bounds m) as [Hlo' Hhi'].
  assert (Hd : 0 < d).
  { destruct (Z.ltb_spec 0 d); [assumption |].
    destruct (Z.eqb_spec d 0) as [-> | Hne]; [cbn in Hhi; lia |].
    rewrite Z.pow_neg_r in Hhi by lia. lia. }
  destruct (Z.lt_trichotomy (Z.pos (digits2_pos m)) d) as [Hlt | [Heq | Hgt]];
    [| exact Heq |].
  - assert (2 ^ Z.pos (digits2_pos m) <= 2 ^ (d - 1)) by (apply Z.pow_le_mono_r; lia). lia.
  - assert (2 ^ d <= 2 ^ (Z.pos (digits2_pos m) - 1)) by (apply Z.pow_le_mono_r; lia). lia.
Qed.

(** One shift to the right halves the mantissa. *)
Lemma shr_1_div2 (mrs : shr_record) :
  0 <= shr_m mrs -> shr_m (shr_1 mrs) = shr_m mrs / 2.
Proof.
  destruct mrs as [m r s]. cbn [shr_m shr_1]. intros Hm.
  destruct m as [| [p | p |] | p]; cbn [shr_m]; try lia; try reflexivity.
  - apply Z.div_unique with 1; lia.
  - apply Z.div_unique with 0; lia.
Qed.

Lemma iter_shr_1_div (p : positive) (mrs : shr_record) :
  0 <= shr_m mrs -> shr_m (SpecFloat.iter_pos shr_1 p mrs) = shr_m mrs / 2 ^ Z.pos p.
Proof.
  revert mrs. induction p as [p IH | p IH |]; intros mrs Hm; cbn [SpecFloat.iter_pos].
  - assert (Hp : 0 < 2 ^ Z.pos p) by (apply Z.pow_pos_nonneg; lia).
    assert (E : 2 ^ Z.pos p~1 = 2 * (2 ^ Z.pos p * 2 ^ Z.pos p)).
    { rewrite <- Z.pow_add_r by lia. rewrite <- Z.pow_succ_r by lia. f_equal. lia. }
    assert (H1 : 0 <= shr_m (shr_1 mrs)) by (rewrite shr_1_div2 by lia; apply Z.div_pos; lia).
    assert (H2 : 0 <= shr_m (SpecFloat.iter_pos shr_1 p (shr_1 mrs)))
      by (rewrite IH by lia; apply Z.div_pos; lia).
    rewrite IH by lia. rewrite IH by lia. rewrite shr_1_div2 by lia.
    rewrite E. rewrite !Z.div_div by lia. reflexivity.
  - assert (Hp : 0 < 2 ^ Z.pos p) by (apply Z.pow_pos_nonneg; lia).
    assert (E : 2 ^ Z.pos p~0 = 2 ^ Z.pos p * 2 ^ Z.pos p).
    { rewrite <- Z.pow_add_r by lia. f_equal. lia. }
    assert (H2 : 0 <= shr_m (SpecFloat.iter_pos shr_1 p mrs))
      by (rewrite IH by lia; apply Z.div_pos; lia).
    rewrite IH by lia. rewrite IH by lia.
    rewrite E. rewrite !Z.div_div by lia. reflexivity.
  - rewrite shr_1_div2 by lia. reflexivity.
Qed.

(** [shr] by [n] digits, for any [n]. *)
Lemma shr_spec (m : Z) (r s : bool) (e n : Z) :
  0 <= m ->
  shr_m (fst (shr {| shr_m := m; shr_r := r; shr_s := s |} e n)) = m / 2 ^ Z.max 0 n
  /\ snd (shr {| shr_m := m; shr_r := r; shr_s := s |} e n) = e + Z.max 0 n.
Proof.
  intros Hm. destruct n as [| p | p]; cbn [shr fst snd].
  - cbn [shr_m]. rewrite Z.max_id. cbn. rewrite Z.div_1_r. lia.
  - rewrite iter_shr_1_div by (cbn; lia). cbn [shr_m].
    replace (Z.max 0 (Z.pos p)) with (Z.pos p) by lia. split; reflexivity.
  - cbn [shr_m]. replace (Z.max 0 (Z.neg p)) with 0 by lia. cbn. rewrite Z.div_1_r. lia.
Qed.

Lemma round_nearest_even_range (m : Z) (l : location) :
  m <= round_nearest_even m l <= m + 1.
Proof.
  unfold round_nearest_even. destruct l as [| []]; try lia. destruct (Z.even m); lia.
Qed.

(** The digits of a non-negative number, by its size. *)
Lemma Zdigits2_le (m k : Z) : 0 <= m < 2 ^ k -> 0 <= k -> Zdigits2 m <= k.
Proof.
  intros [Hm Hk] Hk0. destruct m as [| p | p]; cbn [Zdigits2]; try lia.
  pose proof (digits2_pos_bounds p) as [Hlo _].
  destruct (Z.leb_spec (Z.pos (digits2_pos p)) k); [assumption |].
  assert (2 ^ k <= 2 ^ (Z.pos (digits2_pos p) - 1)) by (apply Z.pow_le_mono_r; lia). lia.
Qed.

Lemma Zdigits2_ge (m k : Z) : 2 ^ k <= m -> 0 <= k -> k + 1 <= Zdigits2 m.
Proof.
  intros Hm Hk0.
  assert (0 < 2 ^ k) by (apply Z.pow_pos_nonneg; lia).
  destruct m as [| p | p]; cbn [Zdigits2]; try lia.
  pose proof (digits2_pos_bounds p) as [_ Hhi].
  destruct (Z.leb_spec (k + 1) (Z.pos (digits2_pos p))); [assumption |].
  assert (2 ^ Z.pos (digits2_pos p) <= 2 ^ k) by (apply Z.pow_le_mono_r; lia). lia.
Qed.

(** Shifting a mantissa keeps digits plus exponent, as long as something
    is left of it. *)
Lemma Zdigits2_div (m n : Z) :
  0 <= n -> 0 < m / 2 ^ n -> Zdigits2 (m / 2 ^ n) = Zdigits2 m - n.
Proof.
  intros Hn Hq.
  assert (Hp : 0 < 2 ^ n) by (apply Z.pow_pos_nonneg; lia).
  assert (Hm : 0 < m).
  { destruct (Z.ltb_spec 0 m); [assumption |]. exfalso.
    assert (m / 2 ^ n <= 0) by (apply Z.div_le_upper_bound; lia). lia. }
  destruct m as [| p | p]; try lia.
  destruct (Z.pos p / 2 ^ n) as [| q | q] eqn:Eq; try lia.
  cbn [Zdigits2]. apply Zdigits2_unique.
  pose proof (digits2_pos_bounds p) as [Hlo Hhi].
  pose proof (Z.div_mod (Z.pos p) (2 ^ n) ltac:(lia)) as Hdm.
  pose proof (Z.mod_pos_bound (Z.pos p) (2 ^ n) Hp) as Hr.
  rewrite Eq in Hdm.
  set (d := Z.pos (digits2_pos p)) in *.
  assert (Hdn : n < d).
  { destruct (Z.ltb_spec n d); [assumption |]. exfalso.
    assert (2 ^ d <= 2 ^ n) by (apply Z.pow_le_mono_r; lia).
    assert (Z.pos p / 2 ^ n = 0) by (apply Z.div_small; lia). lia. }
  assert (E1 : 2 ^ d = 2 ^ n * 2 ^ (d - n)) by (rewrite <- Z.pow_add_r by lia; f_equal; lia).
  assert (E2 : 2 ^ (d - 1) = 2 ^ n * 2 ^ (d - n - 1))
    by (rewrite <- Z.pow_add_r by lia; f_equal; lia).
  assert (0 < 2 ^ (d - n)) by (apply Z.pow_pos_nonneg; lia).
  assert (0 < 2 ^ (d - n - 1)) by (apply Z.pow_pos_nonneg; lia).
  split; nia.
Qed.

(** What [binary_round_aux] makes of a mantissa that is not longer than its
    exponent allows: zero, a valid finite number, or an infinity when the
    number has more than 1023 binary digits before the point. *)
Lemma binary_round_aux_cases (s : bool) (m : positive) (e : Z) :
  e <= fexp 53 1024 (Z.pos (digits2_pos m) + e) ->
  let r := binary_round_aux 53 1024 s (Z.pos m) e loc_Exact in
  r = S754_zero s
  \/ (exists m' e', r = S754_finite s m' e' /\ bounded 53 1024 m' e' = true)
  \/ (r = S754_infinity s /\ 1023 < Z.pos (digits2_pos m) + e).
Proof.
  intros Haligned. cbv zeta. unfold binary_round_aux, shr_fexp.
  cbn [shr_record_of_loc Zdigits2].
  pose proof (digits2_pos_bounds m) as [Hlo Hhi].
  set (d := Z.pos (digits2_pos m)) in *.
  assert (Hd : 1 <= d) by (unfold d; lia).
  set (E1 := fexp 53 1024 (d + e)) in *.
  assert (HE1 : E1 = Z.max (d + e - 53) (-1074)) by reflexivity.
  destruct (shr_spec (Z.pos m) false false e (E1 - e) ltac:(lia)) as [Hm1 He1].
  destruct (shr {| shr_m := Z.pos m; shr_r := false; shr_s := false |} e (E1 - e))
    as [mrs' e'].
  cbn [fst snd] in Hm1, He1.
  replace (Z.max 0 (E1 - e)) with (E1 - e) in Hm1, He1 by lia.
  assert (Ee' : e' = E1) by lia. clear He1. subst e'.
  set (n1 := E1 - e) in *.
  assert (Hn1 : 0 <= n1) by (unfold n1; lia).
  assert (Hp1 : 0 < 2 ^ n1) by (apply Z.pow_pos_nonneg; lia).
  set (m1 := shr_m mrs') in *.
  assert (Hm1pos : 0 <= m1) by (rewrite Hm1; apply Z.div_pos; lia).
  pose proof (round_nearest_even_range m1 (loc_of_shr_record mrs')) as Hround.
  set (m2 := round_nearest_even m1 (loc_of_shr_record mrs')) in *.
  assert (Hm2 : 0 <= m2) by lia.
  set (n2 := fexp 53 1024 (Zdigits2 m2 + E1) - E1).
  assert (Hn2 : n2 = Z.max (Zdigits2 m2 + E1 - 53) (-1074) - E1) by reflexivity.
  destruct (shr_spec m2 false false E1 n2 Hm2) as [Hm3 He3].
  destruct (shr {| shr_m := m2; shr_r := false; shr_s := false |} E1 n2) as [mrs'' e''].
  cbn [fst snd] in Hm3, He3.
  assert (Hp2 : 0 < 2 ^ Z.max 0 n2) by (apply Z.pow_pos_nonneg; lia).
  assert (Hm3pos : 0 <= shr_m mrs'') by (rewrite Hm3; apply Z.div_pos; lia).
  destruct (shr_m mrs'') as [| m3 | m3] eqn:Em3; [now left | | lia].
  right.
  destruct (Z.leb_spec e'' (1024 - 53)) as [Hfin | Hinf].
  - left. exists m3, e''. split; [reflexivity |].
    unfold bounded, canonical_mantissa. apply andb_true_intro. split; [| lia].
    apply Z.eqb_eq.
    change (fexp 53 1024 (Z.pos (digits2_pos m3) + e''))
      with (Z.max (Z.pos (digits2_pos m3) + e'' - 53) (-1074)).
    change (Z.pos (digits2_pos m3)) with (Zdigits2 (Z.pos m3)).
    destruct (Z.ltb_spec 0 n2) as [Hshift | Hnoshift].
    + replace (Z.max 0 n2) with n2 in Hm3, He3 by lia.
      rewrite Hm3. rewrite Zdigits2_div by lia. lia.
    + replace (Z.max 0 n2) with 0 in Hm3, He3 by lia.
      rewrite Z.pow_0_r, Z.div_1_r in Hm3. rewrite Hm3.
      assert (He'' : e'' = E1) by lia. clear He3. subst e''.
      destruct (Z.eqb_spec E1 (-1074)) as [Emin | Enorm]; [lia |].
      assert (En1 : n1 = d - 53) by (unfold n1; lia).
      assert (H52 : 2 ^ 52 <= m1).
      { rewrite Hm1. apply Z.div_le_lower_bound; [lia |].
        rewrite En1. rewrite <- Z.pow_add_r by lia.
        replace (d - 53 + 52) with (d - 1) by lia. exact Hlo. }
      assert (53 <= Zdigits2 m2).
      { pose proof (Zdigits2_ge m2 52 ltac:(lia) ltac:(lia)). lia. }
      lia.
  - right. split; [reflexivity |].
    destruct (Z.leb_spec (d + e) 1023) as [Hsmall | Hbig]; [exfalso | exact Hbig].
    assert (Hm1lt : m1 < 2 ^ 53).
    { rewrite Hm1. apply Z.div_lt_upper_bound; [lia |].
      rewrite <- Z.pow_add_r by lia.
      assert (2 ^ d <= 2 ^ (n1 + 53)) by (apply Z.pow_le_mono_r; unfold n1; lia). lia. }
    assert (Hd2 : Zdigits2 m2 <= 54).
    { apply Zdigits2_le; [| lia]. change (2 ^ 54) with (2 * 2 ^ 53). lia. }
    lia.
Qed.

Lemma digits2_pos_shift (m dd : positive) :
  Z.pos (digits2_pos (Pos.iter xO m dd)) = Z.pos (digits2_pos m) + Z.pos dd.
Proof.
  apply Zdigits2_unique.
  change (Pos.iter xO m dd) with (shift_pos dd m). rewrite shift_pos_correct.
  change (Z.pow_pos 2 dd) with (2 ^ Z.pos dd).
  pose proof (digits2_pos_bounds m) as [Hlo Hhi].
  assert (0 < 2 ^ Z.pos dd) by (apply Z.pow_pos_nonneg; lia).
  replace (Z.pos (digits2_pos m) + Z.pos dd - 1)
    with (Z.pos dd + (Z.pos (digits2_pos m) - 1)) by lia.
  replace (Z.pos (digits2_pos m) + Z.pos dd) with (Z.pos dd + Z.pos (digits2_pos m)) by lia.
  rewrite !Z.pow_add_r by lia. nia.
Qed.

(** [binary_normalize] of an integer is a valid binary64 value and never
    NaN; it is a number when the integer has at most 1023 binary digits. *)
Lemma binary_normalize_cases (z : Z) :
  let r := binary_normalize 53 1024 z 0 false in
  SpecFloat.valid_binary 53 1024 r = true
  /\ r <> S754_nan
  /\ (Z.abs z < 2 ^ 1023 -> is_number r = true).
Proof.
  cbv zeta.
  assert (Hround : forall (s : bool) (m : positive),
             let r := binary_round 53 1024 s m 0 in
             SpecFloat.valid_binary 53 1024 r = true /\ r <> S754_nan
             /\ (Z.pos m < 2 ^ 1023 -> is_number r = true)).
  { intros s m. cbv zeta. unfold binary_round, shl_align.
    set (d := Z.pos (digits2_pos m)).
    assert (Efexp : fexp 53 1024 (d + 0) = Z.max (d - 53) (-1074))
      by (rewrite Z.add_0_r; reflexivity).
    assert (Hcases :
              forall (mz : positive) (ez : Z),
                ez <= fexp 53 1024 (Z.pos (digits2_pos mz) + ez) ->
                Z.pos (digits2_pos mz) + ez = d ->
                let r := binary_round_aux 53 1024 s (Z.pos mz) ez loc_Exact in
                SpecFloat.valid_binary 53 1024 r = true /\ r <> S754_nan
                /\ (Z.pos m < 2 ^ 1023 -> is_number r = true)).
    { intros mz ez Hal Hd. cbv zeta.
      destruct (binary_round_aux_cases s mz ez Hal) as [-> | [(m' & e' & -> & Hb) | [-> Hbig]]].
      - repeat split; discriminate.
      - split; [exact Hb |]. split; [discriminate | reflexivity].
      - split; [reflexivity |]. split; [discriminate |].
        intros Hm. exfalso. rewrite Hd in Hbig.
        pose proof (digits2_pos_bounds m) as [Hlo _]. fold d in Hlo.
        assert (2 ^ 1023 <= 2 ^ (d - 1)) by (apply Z.pow_le_mono_r; lia). lia. }
    destruct (fexp 53 1024 (d + 0) - 0) as [| p | dd] eqn:En.
    - apply Hcases; [| unfold d; lia].
      fold d. rewrite Efexp in *. lia.
    - apply Hcases; [| unfold d; lia].
      fold d. rewrite Efexp in *. lia.
    - pose proof (digits2_pos_shift m dd) as Hs. fold d in Hs.
      apply Hcases; rewrite Hs.
      + replace (d + Z.pos dd + fexp 53 1024 (d + 0)) with (d + 0) by lia. lia.
      + lia. }
  destruct z as [| m | m]; cbn [binary_normalize].
  - repeat split; discriminate.
  - destruct (Hround false m) as (Hv & Hn & Hf). repeat split; auto.
  - destruct (Hround true m) as (Hv & Hn & Hf). repeat split; auto.
Qed.

Lemma float_of_Z_spec (z : Z) :
  Prim2SF (float_of_Z z) = binary_normalize 53 1024 z 0 false.
Proof.
  unfold float_of_Z. apply Prim2SF_SF2Prim. apply binary_normalize_cases.
Qed.

(** The product of a number with a factor of magnitude at most one half is
    a number. *)
Lemma mul_small_is_number (x r : float) (sr : bool) (mr : positive) (er j : Z) :
  Prim2SF r = S754_finite sr mr er ->
  2 ^ 52 <= Z.pos mr <= 2 ^ j -> j + er <= -1 ->
  is_number (Prim2SF x) = true ->
  is_number (Prim2SF (x * r)) = true.
Proof.
  intros Er [Hmr_lo Hmr_hi] Hj Hx. rewrite mul_spec, Er.
  pose proof (Prim2SF_valid x) as Hvalid.
  destruct (Prim2SF x) as [sx | sx | | sx mx ex]; try discriminate Hx; [reflexivity |].
  unfold SF64mul, SFmul.
  cbn [valid_binary] in Hvalid. unfold bounded, canonical_mantissa in Hvalid.
  apply andb_prop in Hvalid. destruct Hvalid as [Hcan Hex].
  apply Z.eqb_eq in Hcan. apply Z.leb_le in Hex.
  change (fexp prec emax (Z.pos (digits2_pos mx) + ex))
    with (Z.max (Z.pos (digits2_pos mx) + ex - 53) (-1074)) in Hcan.
  change (emax - prec) with 971 in Hex.
  pose proof (digits2_pos_bounds mx) as [Hxlo Hxhi].
  pose proof (digits2_pos_bounds (mx * mr)) as [Hplo Hphi].
  set (dx := Z.pos (digits2_pos mx)) in *.
  set (dp := Z.pos (digits2_pos (mx * mr))) in *.
  assert (Hj0 : 0 <= j).
  { destruct (Z.leb_spec 0 j); [assumption |].
    rewrite (Z.pow_neg_r 2 j) in Hmr_hi by lia. lia. }
  assert (Hdp_lo : 53 <= dp).
  { destruct (Z.leb_spec 53 dp); [assumption |]. exfalso.
    assert (2 ^ dp <= 2 ^ 52) by (apply Z.pow_le_mono_r; lia).
    rewrite Pos2Z.inj_mul in Hphi. nia. }
  assert (Hdp_hi : dp <= dx + j).
  { destruct (Z.leb_spec dp (dx + j)); [assumption |]. exfalso.
    assert (2 ^ (dx + j) <= 2 ^ (dp - 1)) by (apply Z.pow_le_mono_r; lia).
    rewrite Z.pow_add_r in H0 by lia.
    rewrite Pos2Z.inj_mul in Hplo.
    assert (0 < 2 ^ dx) by (apply Z.pow_pos_nonneg; lia). nia. }
  change (is_number (binary_round_aux 53 1024 (xorb sx sr) (Z.pos (mx * mr)) (ex + er)
                       loc_Exact) = true).
  destruct (binary_round_aux_cases (xorb sx sr) (mx * mr) (ex + er))
    as [-> | [(m' & e' & -> & _) | [_ Hbig]]]; try reflexivity.
  - fold dp. change (fexp 53 1024 (dp + (ex + er)))
      with (Z.max (dp + (ex + er) - 53) (-1074)). lia.
  - exfalso. fold dp in Hbig. lia.
Qed.

(** The conversions succeed on numbers: [float(z)] for an integer below
    2^1023 in magnitude, and [int(x)] for a number. *)
Lemma float_of_int_cases (z : Z) :
  (is_number (Prim2SF (float_of_Z z)) = true /\ float_of_int z = Ok (float_of_Z z))
  \/ (is_number (Prim2SF (float_of_Z z)) = false
      /\ float_of_int z = Raise (OverflowError "int too large to convert to float")).
Proof.
  unfold float_of_int.
  pose proof (binary_normalize_cases z) as (_ & Hnan & _). cbv zeta in Hnan.
  rewrite <- float_of_Z_spec in Hnan.
  destruct (Prim2SF (float_of_Z z)); cbn [is_number]; auto; congruence.
Qed.

Lemma float_of_Z_number (z : Z) :
  Z.abs z < 2 ^ 1023 -> is_number (Prim2SF (float_of_Z z)) = true.
Proof.
  intros Hz. rewrite float_of_Z_spec. now apply binary_normalize_cases.
Qed.

Lemma int_of_number (x : float) :
  is_number (Prim2SF x) = true -> int_of x = Ok (int_of_float x).
Proof.
  unfold int_of. destruct (Prim2SF x); cbn [is_number]; intros H;
    try discriminate H; reflexivity.
Qed.

End Py.

Notation "'do' x <- c1 ; c2" := (Py.bind c1 (fun x => c2))
  (at level 10, x name, c1 at level 100, c2 at level 200).

(** ** config.py *)

Module Config.

(** [Settings]: the defaults the services read. *)
Definition betrayal_threshold_default : Z := 30.
Definition redemption_threshold_default : Z := 80.

Definition KARMA_ACTIONS : list (string * Z) :=
  [ ("helped_innocent", 10); ("showed_mercy", 15); ("kept_promise", 10);
    ("donated_to_poor", 12); ("exposed_corruption", 20); ("saved_life", 25);
    ("protected_weak", 15); ("told_truth", 5); ("forgave_enemy", 20);
    ("self_sacrifice", 30);
    ("lied_for_gain", -5); ("stole", -8); ("killed_unarmed", -20);
    ("betrayed_ally", -30); ("broke_promise", -15); ("tortured", -25);
    ("killed_innocent", -40); ("abandoned_ally", -20); ("blackmailed", -15);
    ("poisoned", -20) ].

Definition FACTION_THRESHOLDS : list (string * list (string * Z)) :=
  [ ("corona", [ ("trust_threshold", 60); ("betray_threshold", 30); ("hero_threshold", 80) ]);
    ("pueblo", [ ("hero_threshold", 80); ("villain_threshold", 20) ]);
    ("orden_llama", [ ("recruit_threshold", -40) ]);
    ("gremio_mercaderes", [ ("discount_threshold", 70); ("ban_threshold", 20) ]) ].

(** The range of every personality trait. *)
Definition NPC_TRAIT_RANGES : list (string * (Z * Z)) :=
  [ ("cunning", (0, 100)); ("loyalty", (0, 100)); ("patience", (0, 100));
    ("pride", (0, 100)); ("cruelty", (0, 100)); ("compassion", (0, 100));
    ("courage", (0, 100)); ("greed", (0, 100)); ("honor", (0, 100));
    ("wisdom", (0, 100)) ]%string.

(** The emotional states an NPC can be in. *)
Definition NPC_EMOTIONAL_STATES : list string :=
  [ "neutral"; "friendly"; "hostile"; "suspicious"; "nervous"; "fearful";
    "angry"; "grateful"; "sad"; "excited"; "calculating"; "desperate" ]%string.

End Config.

(** ** services/karma_system.py *)

Module KarmaSystem.
Import Py Config.

Definition KARMA_LEVELS : list ((Z * Z) * (string * string)) :=
  [ ((90, 100), ("heroico", "Leyenda viviente, símbolo de esperanza"));
    ((70, 89), ("honorable", "Respetado defensor del bien"));
    ((50, 69), ("neutral", "Pragmático, ni héroe ni villano"));
    ((30, 49), ("dudoso", "Cuestionable, motivos sospechosos"));
    ((10, 29), ("infame", "Temido y despreciado"));
    ((0, 9), ("villano", "Encarnación de la maldad")) ].

(** The [for ... in KARMA_LEVELS.items()] loop of [get_karma_level]. *)
Fixpoint scan_levels (levels : list ((Z * Z) * (string * string))) (karma : Z)
  : option (string * string) :=
  match levels with
  | [] => None
  | ((low, high), r) :: rest =>
      if (low <=? karma) && (karma <=? high) then Some r else scan_levels rest karma
  end.

Definition get_karma_level (karma : Z) : string * string :=
  let karma := clamp karma in
  match scan_levels KARMA_LEVELS karma with
  | Some r => r
  | None => ("neutral", "Estado desconocido")
  end.

Definition apply_karma_change (current_karma change : Z) : Z * bool :=
  let old_level := fst (get_karma_level current_karma) in
  let new_karma := clamp (current_karma + change) in
  let new_level := fst (get_karma_level new_karma) in
  let level_changed := negb (String.eqb old_level new_level) in
  (new_karma, level_changed).

(** The six ranges of the specification, read off its text: 0-9, 10-29,
    30-49, 50-69, 70-89 and 90-100, on the karma clamped to [0,100]. *)
Definition six_range_level (karma : Z) : string :=
  let k := clamp karma in
  if k <=? 9 then "villano"
  else if k <=? 29 then "infame"
  else if k <=? 49 then "dudoso"
  else if k <=? 69 then "neutral"
  else if k <=? 89 then "honorable"
  else "heroico".

(** The threshold checks of [update_faction_standing], in source order. *)
Definition threshold_events (faction : string) (old_value new_value : Z) : list string :=
  match dict_get faction FACTION_THRESHOLDS with
  | None => []
  | Some thresholds =>
      (match dict_get "trust_threshold" thresholds with
       | Some threshold =>
           if (old_value <? threshold) && (threshold <=? new_value)
           then [faction +:+ "_trust_gained"]
           else if (threshold <=? old_value) && (new_value <? threshold)
                then [faction +:+ "_trust_lost"]
                else []
       | None => []
       end)
      ++ (match dict_get "betray_threshold" thresholds with
          | Some threshold =>
              if (threshold <=? old_value) && (new_value <? threshold)
              then [faction +:+ "_turned_hostile"] else []
          | None => []
          end)
      ++ (match dict_get "hero_threshold" thresholds with
          | Some threshold =>
              if (old_value <? threshold) && (threshold <=? new_value)
              then [faction +:+ "_hero_status"] else []
          | None => []
          end)
      ++ (match dict_get "villain_threshold" thresholds with
          | Some threshold =>
              if (threshold <=? old_value) && (new_value <? threshold)
              then [faction +:+ "_villain_status"] else []
          | None => []
          end)
      ++ (match dict_get "recruit_threshold" thresholds with
          | Some threshold =>
              if (threshold <? old_value) && (new_value <=? threshold)
              then [faction +:+ "_recruitment_attempt"] else []
          | None => []
          end)
  end.

Definition faction_relations : list (string * list (string * float)) :=
  [ ("corona", [ ("orden_llama", (-0.5)%float) ]);
    ("orden_llama", [ ("corona", (-0.3)%float); ("pueblo", (-0.2)%float) ]);
    ("rebeldes", [ ("corona", (-0.3)%float) ]) ].

(** [int(change * ratio)]: the integer is converted to a float, which raises
    for an integer too large, and the product is truncated. *)
Definition related_change (change : Z) (ratio : float) : Result Z :=
  do x <- float_of_int change;
  int_of (x * ratio)%float.

(** One turn of the loop over the related factions:
    [related_change = int(change * ratio)], computed and applied only for a
    faction that already has a standing. *)
Definition propagate_one (change : Z) (new_standings : gmap string Z)
  (rel : string * float) : Result (gmap string Z) :=
  let '(related_faction, ratio) := rel in
  match new_standings !! related_faction with
  | Some v =>
      do related_change <- related_change change ratio;
      Ok (<[related_faction := clamp (v + related_change)]> new_standings)
  | None => Ok new_standings
  end.

(** The loop over the related factions; an exception ends it. *)
Fixpoint propagate (change : Z) (rels : list (string * float))
  (new_standings : gmap string Z) : Result (gmap string Z) :=
  match rels with
  | [] => Ok new_standings
  | rel :: rest =>
      do new_standings <- propagate_one change new_standings rel;
      propagate change rest new_standings
  end.

Definition update_faction_standing (current_standings : gmap string Z)
  (faction : string) (change : Z) (action_context : option string)
  : Result (gmap string Z * list string) :=
  let new_standings := current_standings in
  let old_value := default 50 (new_standings !! faction) in
  let new_value := clamp (old_value + change) in
  let new_standings := <[faction := new_value]> new_standings in
  let events := threshold_events faction old_value new_value in
  do new_standings <-
    match dict_get faction faction_relations with
    | Some rels => propagate change rels new_standings
    | None => Ok new_standings
    end;
  Ok (new_standings, events).

(** Whether the loop over the related factions has a delta to convert: the
    faction has a related faction that has a standing. *)
Definition propagates (standings : gmap string Z) (faction : string) : bool :=
  match dict_get faction faction_relations with
  | Some rels =>
      existsb (fun rel : string * float => bool_decide (is_Some (standings !! fst rel))) rels
  | None => false
  end.

(** The values straddle [t] downward as the recruit check tests it: above
    before, at or below after. *)
Definition drops_to (old_value t new_value : Z) : Prop :=
  new_value <= t < old_value.

(** A standings map as the data model has it: every value in [0,100]. *)
Definition valid_standings (m : gmap string Z) : Prop :=
  map_Forall (fun _ v => 0 <= v <= 100) m.

(** The threshold configured for a faction and a threshold type, if any. *)
Definition threshold (faction kind : string) : option Z :=
  match dict_get faction FACTION_THRESHOLDS with
  | Some thresholds => dict_get kind thresholds
  | None => None
  end.

(** The values straddle [t] upward: below before, at or above after. *)
Definition crosses_up (old_value t new_value : Z) : Prop :=
  old_value < t <= new_value.

(** The values straddle [t] downward: at or above before, below after. *)
Definition crosses_down (old_value t new_value : Z) : Prop :=
  new_value < t <= old_value.

Definition event_suffixes : list string :=
  [ "_trust_gained"; "_trust_lost"; "_turned_hostile"; "_hero_status";
    "_villain_status"; "_recruitment_attempt" ]%string.

(** A single guarded check [if c t: events.append(x)] under [if k in thresholds]. *)
Definition guarded (ot : option Z) (c : Z -> bool) (x : string) : list string :=
  match ot with
  | Some t => if c t then [x] else []
  | None => []
  end.

(** A sample standings map: lowering the crown's standing from 65 by 40
    loses its trust and turns it hostile. *)
Definition sample_standings : gmap string Z :=
  <["corona" := 65]> (<["orden_llama" := 50]> ∅).

(** A standings map with a value outside [0,100]. *)
Definition stray_standings : gmap string Z :=
  <["corona" := 150]> ∅.

(** *** Karma deltas, ending requirements, dialogue options, recovery *)

(** [context.get(k)] read as a truth value; an omitted context has no flag. *)
Definition context_flag (context : option (gmap string PyVal)) (k : string) : bool :=
  match context with
  | Some c => truthy (default PyNone (c !! k))
  | None => false
  end.

(** [calculate_karma_change]; [context] is [None] when the argument is
    omitted, and [not context] also holds for the empty dictionary. *)
Definition calculate_karma_change (action_code : string)
  (context : option (gmap string PyVal)) : Z :=
  let base_change := default 0 (dict_get action_code KARMA_ACTIONS) in
  match context with
  | None => base_change
  | Some c =>
      if bool_decide (c = ∅) then base_change
      else
        let modifiers := 1%float in
        let modifiers :=
          if truthy (default PyNone (c !! "repeated_action"))
          then if base_change <? 0 then (modifiers * 1.2)%float else (modifiers * 0.8)%float
          else modifiers in
        let modifiers :=
          if truthy (default PyNone (c !! "witnessed"))
          then (modifiers * 1.3)%float else modifiers in
        let modifiers :=
          if truthy (default PyNone (c !! "target_important"))
          then (modifiers * 1.5)%float else modifiers in
        int_of_float (float_of_Z base_change * modifiers)%float
  end.

(** [str(n)] for an integer, as an f-string formats it. *)
Definition str_of_int (n : Z) : string := py_str (PyInt n).

(** One entry of [ending_requirements["faction_requirements"]]: the keys
    ["min"] and ["max"], either of which can be missing. *)
Record FactionRequirement : Type := {
  req_min : option Z;
  req_max : option Z
}.

(** The [ending_requirements] dictionary; [None] stands for a missing key. *)
Record EndingRequirements : Type := {
  karma_min : option Z;
  karma_max : option Z;
  faction_requirements : option (list (string * FactionRequirement))
}.

(** The body of the loop over the faction requirements. *)
Definition check_faction_requirement (faction_standings : gmap string Z)
  (state : bool * list string) (entry : string * FactionRequirement)
  : bool * list string :=
  let '(met, missing) := state in
  let '(faction, req) := entry in
  let current := default 50 (faction_standings !! faction) in
  let '(met, missing) :=
    match req_min req with
    | Some m =>
        if current <? m
        then (false, missing ++ [faction +:+ " mínimo " +:+ str_of_int m])
        else (met, missing)
    | None => (met, missing)
    end in
  match req_max req with
  | Some m =>
      if m <? current
      then (false, missing ++ [faction +:+ " máximo " +:+ str_of_int m])
      else (met, missing)
  | None => (met, missing)
  end.

Definition check_ending_karma_requirements (karma : Z) (faction_standings : gmap string Z)
  (ending_requirements : EndingRequirements) : bool * list string :=
  let met := true in
  let missing : list string := [] in
  let '(met, missing) :=
    match karma_min ending_requirements with
    | Some m =>
        if karma <? m then (false, missing ++ ["karma mínimo " +:+ str_of_int m])
        else (met, missing)
    | None => (met, missing)
    end in
  let '(met, missing) :=
    match karma_max ending_requirements with
    | Some m =>
        if m <? karma then (false, missing ++ ["karma máximo " +:+ str_of_int m])
        else (met, missing)
    | None => (met, missing)
    end in
  match faction_requirements ending_requirements with
  | Some reqs => fold_left (check_faction_requirement faction_standings) reqs (met, missing)
  | None => (met, missing)
  end.

(** What the requirements ask for: the karma within the configured bounds,
    and every listed faction's standing (50 when the faction has none) within
    its bounds. *)
Definition requirements_hold (karma : Z) (faction_standings : gmap string Z)
  (ending_requirements : EndingRequirements) : Prop :=
  (forall m, karma_min ending_requirements = Some m -> m <= karma)
  /\ (forall m, karma_max ending_requirements = Some m -> karma <= m)
  /\ Forall (fun entry : string * FactionRequirement =>
               let current := default 50 (faction_standings !! fst entry) in
               (forall m, req_min (snd entry) = Some m -> m <= current)
               /\ (forall m, req_max (snd entry) = Some m -> current <= m))
       (default [] (faction_requirements ending_requirements)).

(** The [requirements] dictionary of a dialogue option. *)
Record DialogueRequirements : Type := {
  dialogue_karma_min : option Z;
  dialogue_karma_max : option Z;
  dialogue_faction : option string;
  dialogue_faction_min : option Z
}.

(** A dialogue option: its text, and its requirements when it has the key. *)
Record DialogueOption : Type := {
  option_text : string;
  requirements : option DialogueRequirements
}.

(** The body of the loop of [get_available_dialogue_options]: whether the
    option is appended. *)
Definition option_available (karma : Z) (faction_standings : gmap string Z)
  (opt : DialogueOption) : bool :=
  let requirements :=
    default {| dialogue_karma_min := None; dialogue_karma_max := None;
               dialogue_faction := None; dialogue_faction_min := None |}
      (requirements opt) in
  let karma_ok := true in
  let karma_ok :=
    match dialogue_karma_min requirements with
    | Some m => m <=? karma
    | None => karma_ok
    end in
  let karma_ok :=
    match dialogue_karma_max requirements with
    | Some m => if karma_ok then karma <=? m else karma_ok
    | None => karma_ok
    end in
  if negb karma_ok then false
  else
    match dialogue_faction requirements with
    | Some faction =>
        let required_standing := default 50 (dialogue_faction_min requirements) in
        let current_standing := default 50 (faction_standings !! faction) in
        required_standing <=? current_standing
    | None => true
    end.

Definition get_available_dialogue_options (karma : Z) (faction_standings : gmap string Z)
  (all_options : list DialogueOption) : list DialogueOption :=
  List.filter (option_available karma faction_standings) all_options.

(** [positive_actions.sort(key=lambda x: x[1], reverse=True)]: a stable sort,
    greatest value first. *)
Fixpoint insert_by_value (a : string * Z) (sorted : list (string * Z)) : list (string * Z) :=
  match sorted with
  | [] => [a]
  | x :: rest =>
      if snd a <? snd x then x :: insert_by_value a rest else a :: x :: rest
  end.

Definition positive_actions : list (string * Z) :=
  fold_right insert_by_value [] (List.filter (fun av => 0 <? snd av) KARMA_ACTIONS).

Definition action_names : list (string * string) :=
  [ ("helped_innocent", "Ayudar a inocentes");
    ("showed_mercy", "Mostrar misericordia");
    ("kept_promise", "Cumplir promesas");
    ("donated_to_poor", "Donar a los necesitados");
    ("exposed_corruption", "Exponer corrupción");
    ("saved_life", "Salvar vidas");
    ("protected_weak", "Proteger a los débiles") ]%string.

(** The loop of [suggest_karma_recovery_actions]: the suggestions and the
    karma accumulated so far. *)
Definition recovery_loop (difference : Z) (actions : list (string * Z))
  : list string * Z :=
  fold_left
    (fun (state : list string * Z) (av : string * Z) =>
       let '(suggestions, accumulated) := state in
       let '(action, value) := av in
       if accumulated <? difference
       then (suggestions ++ [default action (dict_get action action_names)],
             accumulated + value)
       else (suggestions, accumulated))
    actions ([], 0).

Definition suggest_karma_recovery_actions (current_karma : Z) (target_level : string)
  : list string :=
  let target_ranges : list (string * Z) :=
    [ ("heroico", 90); ("honorable", 70); ("neutral", 50) ]%string in
  let target_karma := default 50 (dict_get target_level target_ranges) in
  let difference := target_karma - current_karma in
  if difference <=? 0
  then [ "El karma ya está en el nivel deseado o superior"%string ]
  else fst (recovery_loop difference positive_actions).

(** *** Karma levels *)

Ltac decide_leb :=
  repeat match goal with
         | |- context [ (?a <=? ?b) ] =>
             first [ replace (a <=? b) with true by lia
                   | replace (a <=? b) with false by lia ]
         end.

Lemma get_karma_level_six_ranges (karma : Z) :
  fst (get_karma_level karma) = six_range_level karma.
Proof.
  unfold get_karma_level, six_range_level.
  pose proof (clamp_range karma) as Hr.
  set (k := clamp karma) in *. clearbody k.
  unfold KARMA_LEVELS, scan_levels.
  assert (Hk : k <= 9 \/ 10 <= k <= 29 \/ 30 <= k <= 49 \/ 50 <= k <= 69
               \/ 70 <= k <= 89 \/ 90 <= k) by lia.
  destruct Hk as [Hk | [Hk | [Hk | [Hk | [Hk | Hk]]]]]; decide_leb; reflexivity.
Qed.

Lemma six_range_level_clamp (karma : Z) :
  six_range_level (clamp karma) = six_range_level karma.
Proof.
  unfold six_range_level. rewrite (clamp_id (clamp karma)); [reflexivity | apply clamp_range].
Qed.

(** C4. [apply_karma_change] returns the sum clamped to [0,100], and its
    second component is true exactly when the six-range level name of the old
    karma differs from that of the new karma; karma 50 with delta -60 gives
    new karma 0 and a level change, from "neutral" to "villano". *)
Theorem apply_karma_change_spec (current_karma change : Z) :
  let new_karma := fst (apply_karma_change current_karma change) in
  let level_changed := snd (apply_karma_change current_karma change) in
  new_karma = Z.max 0 (Z.min 100 (current_karma + change))
  /\ 0 <= new_karma <= 100
  /\ (0 <= current_karma + change <= 100 -> new_karma = current_karma + change)
  /\ (current_karma + change < 0 -> new_karma = 0)
  /\ (100 < current_karma + change -> new_karma = 100)
  /\ (level_changed = true <-> six_range_level current_karma <> six_range_level new_karma)
  /\ apply_karma_change 50 (-60) = (0, true)
  /\ six_range_level 50 = "neutral"
  /\ six_range_level 0 = "villano".
Proof.
  cbv zeta. unfold apply_karma_change. cbn [fst snd].
  rewrite !get_karma_level_six_ranges.
  repeat split; try (unfold clamp; lia).
  - intros H E. rewrite E, String.eqb_refl in H. discriminate.
  - intros H. destruct (String.eqb_spec (six_range_level current_karma)
                          (six_range_level (clamp (current_karma + change)))) as [E | E].
    + contradiction.
    + reflexivity.
Qed.

(** *** Faction standings *)

(** The ratios of the relation table: each of magnitude at most one half. *)
Lemma relation_ratios (faction : string) (rels : list (string * float)) :
  dict_get faction faction_relations = Some rels ->
  Forall (fun rel => In (snd rel) [ (-0.5)%float; (-0.3)%float; (-0.2)%float ]) rels.
Proof.
  unfold faction_relations, dict_get.
  repeat match goal with
         | |- context [ String.eqb faction ?s ] => destruct (String.eqb_spec faction s)
         end; intros H; inversion H; subst; repeat constructor; simpl; tauto.
Qed.

(** [int(change * ratio)] returns whenever the delta converts to a float:
    the product with a ratio of the table is then a number. *)
Lemma related_change_number (change : Z) (ratio : float) :
  is_number (Prim2SF (float_of_Z change)) = true ->
  In ratio [ (-0.5)%float; (-0.3)%float; (-0.2)%float ] ->
  related_change change ratio = Ok (int_of_float (float_of_Z change * ratio)%float).
Proof.
  intros Hnum Hr. unfold related_change.
  destruct (float_of_int_cases change) as [[_ ->] | [Hf _]]; [| congruence].
  cbn [bind]. apply int_of_number.
  destruct Hr as [<- | [<- | [<- | []]]].
  - apply (mul_small_is_number _ _ true 4503599627370496 (-53) 52);
      [vm_compute; reflexivity | split; apply Z.leb_le; vm_compute; reflexivity | lia
      | exact Hnum].
  - apply (mul_small_is_number _ _ true 5404319552844595 (-54) 53);
      [vm_compute; reflexivity | split; apply Z.leb_le; vm_compute; reflexivity | lia
      | exact Hnum].
  - apply (mul_small_is_number _ _ true 7205759403792794 (-55) 53);
      [vm_compute; reflexivity | split; apply Z.leb_le; vm_compute; reflexivity | lia
      | exact Hnum].
Qed.

Lemma related_change_overflow (change : Z) (ratio : float) :
  is_number (Prim2SF (float_of_Z change)) = false ->
  related_change change ratio = Raise (OverflowError "int too large to convert to float").
Proof.
  intros Hnum. unfold related_change.
  destruct (float_of_int_cases change) as [[Hf _] | [_ ->]]; [congruence | reflexivity].
Qed.

(** What the loop over the related factions keeps, when it returns. *)
Definition propagated (rels : list (string * float)) (m m' : gmap string Z) : Prop :=
  (forall k, ~ In k (map fst rels) -> m' !! k = m !! k)
  /\ (forall k, is_Some (m' !! k) <-> is_Some (m !! k))
  /\ (forall k v, m' !! k = Some v -> 0 <= v <= 100 \/ m !! k = Some v).

Lemma propagate_returns (change : Z) (rels : list (string * float)) (m : gmap string Z) :
  is_number (Prim2SF (float_of_Z change)) = true ->
  Forall (fun rel => In (snd rel) [ (-0.5)%float; (-0.3)%float; (-0.2)%float ]) rels ->
  exists m', propagate change rels m = Ok m' /\ propagated rels m m'.
Proof.
  intros Hnum Hrels. revert m.
  induction Hrels as [| [rf ratio] rels Hratio Hrels IH]; intros m; cbn [propagate].
  - exists m. split; [reflexivity |]. repeat split; auto.
  - unfold propagate_one. cbn [snd] in Hratio.
    destruct (m !! rf) as [v |] eqn:Ev.
    + rewrite (related_change_number change ratio Hnum Hratio). cbn [bind].
      set (m1 := <[rf := clamp (v + int_of_float (float_of_Z change * ratio))]> m).
      destruct (IH m1) as (m' & Em' & Hother & Hdom & Hval).
      exists m'. split; [exact Em' |]. split; [| split].
      * intros k Hk. cbn [map fst In] in Hk. rewrite Hother by tauto.
        unfold m1. apply lookup_insert_ne. tauto.
      * intros k. rewrite Hdom. unfold m1.
        destruct (String.eqb_spec rf k) as [<- | Hne].
        -- rewrite lookup_insert_eq, Ev. split; eauto.
        -- now rewrite lookup_insert_ne.
      * intros k w Hw. destruct (Hval k w Hw) as [Hin | Hm1]; [now left |].
        unfold m1 in Hm1. destruct (String.eqb_spec rf k) as [<- | Hne].
        -- rewrite lookup_insert_eq in Hm1. inversion Hm1; subst. left. apply clamp_range.
        -- rewrite lookup_insert_ne in Hm1 by exact Hne. now right.
    + cbn [bind]. destruct (IH m) as (m' & Em' & Hother & Hdom & Hval).
      exists m'. split; [exact Em' |]. split; [| split]; auto.
      intros k Hk. apply Hother. cbn [map fst In] in Hk. tauto.
Qed.

(** Without a related faction that has a standing nothing is converted, and
    the loop returns the map as it is, whatever the delta. *)
Lemma propagate_idle (change : Z) (rels : list (string * float)) (m : gmap string Z) :
  existsb (fun rel : string * float => bool_decide (is_Some (m !! fst rel))) rels = false ->
  propagate change rels m = Ok m.
Proof.
  induction rels as [| [rf ratio] rels IH]; cbn [propagate existsb fst]; [reflexivity |].
  intros H. apply orb_false_iff in H. destruct H as [Hrf Hrest].
  unfold propagate_one. destruct (m !! rf) as [v |] eqn:Ev.
  - rewrite bool_decide_eq_false in Hrf. exfalso. apply Hrf. eauto.
  - cbn [bind]. now apply IH.
Qed.

(** With a related faction that has a standing, a delta that does not
    convert to a float raises from the first such faction. *)
Lemma propagate_overflow (change : Z) (rels : list (string * float)) (m : gmap string Z) :
  is_number (Prim2SF (float_of_Z change)) = false ->
  existsb (fun rel : string * float => bool_decide (is_Some (m !! fst rel))) rels = true ->
  propagate change rels m = Raise (OverflowError "int too large to convert to float").
Proof.
  intros Hnum. induction rels as [| [rf ratio] rels IH]; cbn [propagate existsb fst];
    [discriminate |].
  intros H. unfold propagate_one. destruct (m !! rf) as [v |] eqn:Ev.
  - now rewrite (related_change_overflow change ratio Hnum).
  - cbn [bind]. apply IH. apply orb_true_iff in H. destruct H as [H | H]; [| exact H].
    rewrite bool_decide_eq_true in H. destruct H as [w Hw]. congruence.
Qed.

Lemma relations_exclude_self (faction : string) (rels : list (string * float)) :
  dict_get faction faction_relations = Some rels -> ~ In faction (map fst rels).
Proof.
  unfold faction_relations, dict_get.
  repeat match goal with
         | |- context [ String.eqb faction ?s ] => destruct (String.eqb_spec faction s)
         end; intros H; inversion H; subst; simpl; intuition discriminate.
Qed.

Lemma In_guarded (ot : option Z) (c : Z -> bool) (x e : string) :
  In e (guarded ot c x) <-> e = x /\ exists t, ot = Some t /\ c t = true.
Proof.
  unfold guarded. destruct ot as [t |].
  - destruct (c t) eqn:Hc; simpl.
    + split.
      * intros [H | []]. split; [now symmetry | now exists t].
      * intros [H _]. left. now symmetry.
    + split; [tauto |]. intros (_ & t' & Ht & Hc'). inversion Ht; subst. congruence.
  - simpl. split; [tauto |]. intros (_ & t & Ht & _). discriminate.
Qed.

Lemma threshold_events_unfold (faction : string) (o n : Z) :
  threshold_events faction o n =
  match dict_get faction FACTION_THRESHOLDS with
  | None => []
  | Some th =>
      (guarded (dict_get "trust_threshold" th)
         (fun t => (o <? t) && (t <=? n)) (faction +:+ "_trust_gained")
       ++ guarded (dict_get "trust_threshold" th)
            (fun t => negb ((o <? t) && (t <=? n)) && ((t <=? o) && (n <? t)))
            (faction +:+ "_trust_lost"))
      ++ guarded (dict_get "betray_threshold" th)
           (fun t => (t <=? o) && (n <? t)) (faction +:+ "_turned_hostile")
      ++ guarded (dict_get "hero_threshold" th)
           (fun t => (o <? t) && (t <=? n)) (faction +:+ "_hero_status")
      ++ guarded (dict_get "villain_threshold" th)
           (fun t => (t <=? o) && (n <? t)) (faction +:+ "_villain_status")
      ++ guarded (dict_get "recruit_threshold" th)
           (fun t => (t <? o) && (n <=? t)) (faction +:+ "_recruitment_attempt")
  end.
Proof.
  unfold threshold_events, guarded.
  destruct (dict_get faction FACTION_THRESHOLDS) as [th |]; [| reflexivity].
  f_equal.
  destruct (dict_get "trust_threshold" th) as [t |]; [| reflexivity].
  destruct ((o <? t) && (t <=? n)); simpl; [reflexivity |].
  destruct ((t <=? o) && (n <? t)); reflexivity.
Qed.

(** Membership in the emitted list, one disjunct per [events.append]. *)
Lemma In_threshold_events (faction : string) (o n : Z) (e : string) :
  In e (threshold_events faction o n) <->
  (e = faction +:+ "_trust_gained"
     /\ exists t, threshold faction "trust_threshold" = Some t /\ o < t <= n)
  \/ (e = faction +:+ "_trust_lost"
     /\ exists t, threshold faction "trust_threshold" = Some t /\ n < t <= o)
  \/ (e = faction +:+ "_turned_hostile"
     /\ exists t, threshold faction "betray_threshold" = Some t /\ n < t <= o)
  \/ (e = faction +:+ "_hero_status"
     /\ exists t, threshold faction "hero_threshold" = Some t /\ o < t <= n)
  \/ (e = faction +:+ "_villain_status"
     /\ exists t, threshold faction "villain_threshold" = Some t /\ n < t <= o)
  \/ (e = faction +:+ "_recruitment_attempt"
     /\ exists t, threshold faction "recruit_threshold" = Some t /\ n <= t < o).
Proof.
  rewrite threshold_events_unfold. unfold threshold.
  destruct (dict_get faction FACTION_THRESHOLDS) as [th |].
  - rewrite !in_app_iff, !In_guarded.
    assert (Hex : forall (ot : option Z) (c : Z -> bool) (P : Z -> Prop),
               (forall t, c t = true <-> P t) ->
               ((exists t, ot = Some t /\ c t = true) <-> (exists t, ot = Some t /\ P t))).
    { intros ot c P HP. split; intros (t & Ht & H); exists t; split; auto; now apply HP. }
    rewrite (Hex _ (fun t => (o <? t) && (t <=? n)) (fun t => o < t <= n)) by (intros; lia).
    rewrite (Hex _ (fun t => negb ((o <? t) && (t <=? n)) && ((t <=? o) && (n <? t)))
               (fun t => n < t <= o)) by (intros; lia).
    rewrite (Hex _ (fun t => (t <=? o) && (n <? t)) (fun t => n < t <= o)) by (intros; lia).
    rewrite (Hex (dict_get "villain_threshold" th)
               (fun t => (t <=? o) && (n <? t)) (fun t => n < t <= o)) by (intros; lia).
    rewrite (Hex (dict_get "hero_threshold" th)
               (fun t => (o <? t) && (t <=? n)) (fun t => o < t <= n)) by (intros; lia).
    rewrite (Hex _ (fun t => (t <? o) && (n <=? t)) (fun t => n <= t < o)) by (intros; lia).
    tauto.
  - simpl. split; [tauto |].
    intros H. repeat destruct H as [H | H]; destruct H as (_ & t & Ht & _); discriminate.
Qed.

(** The recruit threshold, wherever configured, is -40: no standing in
    [0,100] can be at or below it. *)
Lemma recruit_threshold_value (faction : string) (t : Z) :
  threshold faction "recruit_threshold" = Some t -> t = -40.
Proof.
  unfold threshold, FACTION_THRESHOLDS, dict_get.
  repeat match goal with
         | |- context [ String.eqb faction ?s ] => destruct (String.eqb_spec faction s)
         end; simpl; intros H; inversion H; reflexivity.
Qed.

Lemma event_suffix_owner (a b s s' : string) :
  In s event_suffixes -> In s' event_suffixes -> a +:+ s = b +:+ s' -> a = b /\ s = s'.
Proof.
  intros Hs Hs' E.
  pose proof (append_suffix_clash _ _ _ _ E) as Hc.
  unfold event_suffixes in Hs, Hs'. simpl in Hs, Hs'.
  repeat destruct Hs as [Hs | Hs]; try contradiction; subst s;
    repeat destruct Hs' as [Hs' | Hs']; try contradiction; subst s';
    try (vm_compute in Hc; discriminate Hc);
    (split; [eapply append_inv_tail; exact E | reflexivity]).
Qed.

Ltac other_suffix :=
  match goal with
  | H : (?a +:+ ?s)%string = (?b +:+ ?s')%string |- _ =>
      let F := fresh in
      assert (F : a = b /\ s = s')
        by (apply event_suffix_owner; [simpl; tauto | simpl; tauto | exact H]);
      destruct F as [_ F]; discriminate F
  end.

Ltac pick_event :=
  match goal with
  | H : _ \/ _ |- _ => destruct H as [H | H]; [| pick_event]
  | _ => idtac
  end.

(** The membership of every event in the emitted list, as the code tests
    it on the primary faction's values. *)
Lemma primary_events (faction : string) (o n : Z) :
  0 <= n <= 100 ->
  let events := threshold_events faction o n in
  (In (faction +:+ "_trust_gained") events <->
   exists t, threshold faction "trust_threshold" = Some t /\ crosses_up o t n)
  /\ (In (faction +:+ "_trust_lost") events <->
      exists t, threshold faction "trust_threshold" = Some t /\ crosses_down o t n)
  /\ (In (faction +:+ "_turned_hostile") events <->
      exists t, threshold faction "betray_threshold" = Some t /\ crosses_down o t n)
  /\ (In (faction +:+ "_hero_status") events <->
      exists t, threshold faction "hero_threshold" = Some t /\ crosses_up o t n)
  /\ (In (faction +:+ "_villain_status") events <->
      exists t, threshold faction "villain_threshold" = Some t /\ crosses_down o t n)
  /\ (In (faction +:+ "_recruitment_attempt") events <->
      exists t, threshold faction "recruit_threshold" = Some t /\ drops_to o t n)
  /\ ~ In (faction +:+ "_recruitment_attempt") events
  /\ (forall e, In e events ->
      exists suffix, In suffix event_suffixes /\ e = faction +:+ suffix)
  /\ (forall other suffix, other <> faction -> In suffix event_suffixes ->
      ~ In (other +:+ suffix) events).
Proof.
  intros Hn. cbv zeta. unfold crosses_up, crosses_down, drops_to.
  repeat match goal with |- _ /\ _ => split end.
  1-6: rewrite In_threshold_events; split;
    [ intros H; pick_event; try (destruct H as [H _]; other_suffix);
      destruct H as (_ & t & Ht & Hc); exists t; split; [exact Ht | lia]
    | intros (t & Ht & Hc) ].
  - left. split; [reflexivity | eauto].
  - right; left. split; [reflexivity | eauto].
  - right; right; left. split; [reflexivity | eauto].
  - right; right; right; left. split; [reflexivity | eauto].
  - right; right; right; right; left. split; [reflexivity | eauto].
  - right; right; right; right; right. split; [reflexivity | eauto].
  - intros H. apply In_threshold_events in H.
    pick_event; try (destruct H as [H _]; other_suffix).
    destruct H as (_ & t & Ht & Hc). apply recruit_threshold_value in Ht. lia.
  - intros e He. apply In_threshold_events in He.
    pick_event; destruct He as [He _]; subst e; eexists; (split; [| reflexivity]); simpl; tauto.
  - intros other suffix Hne Hs He. apply In_threshold_events in He.
    pick_event; destruct He as [He _];
      (apply event_suffix_owner in He; [tauto | exact Hs | simpl; tauto]).
Qed.

(** C2, as the code has it. [update_faction_standing] raises [OverflowError]
    exactly when the faction has a related faction with a standing and the
    delta is too large to convert to a float, which no delta below 2^1023 in
    magnitude is.  Otherwise it returns: the standings of the same factions
    plus the primary one; every value is in [0,100] or is the value that a
    faction other than the primary one had before, so a map with values in
    [0,100] gives a map with values in [0,100]; every threshold event is
    emitted exactly when the primary faction's values before and after the
    update straddle the configured threshold in the direction the code
    tests for that event (a recruitment attempt never is); and no event is
    emitted under the name of another faction, whatever the propagation
    does to that faction's standing. *)
Theorem update_faction_standing_spec (standings : gmap string Z) (faction : string)
  (change : Z) (action_context : option string) :
  let old_value := default 50 (standings !! faction) in
  let new_value := clamp (old_value + change) in
  let result := update_faction_standing standings faction change action_context in
  let converts := is_number (Prim2SF (float_of_Z change)) in
  (Z.abs change < 2 ^ 1023 -> converts = true)
  /\ (propagates standings faction = true -> converts = false ->
      result = Raise (OverflowError "int too large to convert to float"))
  /\ (propagates standings faction = false \/ converts = true ->
      exists new_standings events,
        result = Ok (new_standings, events)
        /\ (forall k, is_Some (new_standings !! k) <-> k = faction \/ is_Some (standings !! k))
        /\ new_standings !! faction = Some new_value
        /\ (forall k v, new_standings !! k = Some v ->
              0 <= v <= 100 \/ (k <> faction /\ standings !! k = Some v))
        /\ (valid_standings standings -> valid_standings new_standings)
        /\ (In (faction +:+ "_trust_gained") events <->
            exists t, threshold faction "trust_threshold" = Some t
                      /\ crosses_up old_value t new_value)
        /\ (In (faction +:+ "_trust_lost") events <->
            exists t, threshold faction "trust_threshold" = Some t
                      /\ crosses_down old_value t new_value)
        /\ (In (faction +:+ "_turned_hostile") events <->
            exists t, threshold faction "betray_threshold" = Some t
                      /\ crosses_down old_value t new_value)
        /\ (In (faction +:+ "_hero_status") events <->
            exists t, threshold faction "hero_threshold" = Some t
                      /\ crosses_up old_value t new_value)
        /\ (In (faction +:+ "_villain_status") events <->
            exists t, threshold faction "villain_threshold" = Some t
                      /\ crosses_down old_value t new_value)
        /\ (In (faction +:+ "_recruitment_attempt") events <->
            exists t, threshold faction "recruit_threshold" = Some t
                      /\ drops_to old_value t new_value)
        /\ ~ In (faction +:+ "_recruitment_attempt") events
        /\ (forall e, In e events ->
            exists suffix, In suffix event_suffixes /\ e = faction +:+ suffix)
        /\ (forall other suffix, other <> faction -> In suffix event_suffixes ->
            ~ In (other +:+ suffix) events)).
Proof.
  cbv zeta. unfold update_faction_standing, propagates.
  set (o := default 50 (standings !! faction)).
  pose proof (clamp_range (o + change)) as Hn.
  set (n := clamp (o + change)) in *.
  set (m0 := <[faction := n]> standings).
  split; [apply float_of_Z_number |].
  assert (Hlookup : forall rels, dict_get faction faction_relations = Some rels ->
             existsb (fun rel : string * float => bool_decide (is_Some (m0 !! fst rel))) rels
             = existsb (fun rel : string * float => bool_decide (is_Some (standings !! fst rel)))
                 rels).
  { intros rels Hrels. pose proof (relations_exclude_self faction rels Hrels) as Hself.
    clear Hrels. induction rels as [| [rf ratio] rels IH]; cbn [existsb fst]; [reflexivity |].
    cbn [map fst In] in Hself. rewrite IH by tauto. f_equal.
    unfold m0. rewrite lookup_insert_ne by (intros E; apply Hself; left; now symmetry).
    reflexivity. }
  split.
  - intros Hprop Hconv. destruct (dict_get faction faction_relations) as [rels |] eqn:Hrels;
      [| discriminate].
    rewrite (propagate_overflow change rels m0 Hconv); [reflexivity |].
    now rewrite Hlookup.
  - intros Hreturns.
    assert (Hm : exists m',
               match dict_get faction faction_relations with
               | Some rels => propagate change rels m0
               | None => Ok m0
               end = Ok m'
               /\ m' !! faction = Some n
               /\ (forall k, is_Some (m' !! k) <-> is_Some (m0 !! k))
               /\ (forall k v, m' !! k = Some v -> 0 <= v <= 100 \/ m0 !! k = Some v)).
    { destruct (dict_get faction faction_relations) as [rels |] eqn:Hrels.
      - destruct Hreturns as [Hidle | Hconv].
        + rewrite propagate_idle by (now rewrite Hlookup).
          exists m0. repeat split; auto. apply lookup_insert_eq.
        + destruct (propagate_returns change rels m0 Hconv (relation_ratios _ _ Hrels))
            as (m' & Em' & Hother & Hdom & Hval).
          exists m'. split; [exact Em' |]. split; [| split; assumption].
          rewrite Hother by (eapply relations_exclude_self; exact Hrels).
          apply lookup_insert_eq.
      - exists m0. repeat split; auto. apply lookup_insert_eq. }
    destruct Hm as (m' & -> & Hfaction & Hdom & Hval). cbn [bind].
    exists m', (threshold_events faction o n). split; [reflexivity |].
    assert (Hvals : forall k v, m' !! k = Some v ->
               0 <= v <= 100 \/ (k <> faction /\ standings !! k = Some v)).
    { intros k v Hv. destruct (Hval k v Hv) as [Hr | Hm0]; [now left |].
      unfold m0 in Hm0. destruct (String.eqb_spec faction k) as [<- | Hne].
      - rewrite lookup_insert_eq in Hm0. inversion Hm0; subst. now left.
      - rewrite lookup_insert_ne in Hm0 by exact Hne. right. split; [congruence | exact Hm0]. }
    split; [| split; [exact Hfaction | split; [exact Hvals | split]]].
    + intros k. rewrite Hdom. unfold m0. destruct (String.eqb_spec faction k) as [<- | Hne].
      * rewrite lookup_insert_eq. split; eauto.
      * rewrite lookup_insert_ne by exact Hne. split; [tauto |].
        intros [E | H]; [congruence | exact H].
    + intros Hvalid k v Hv. destruct (Hvals k v Hv) as [Hr | [_ Hs]]; [exact Hr |].
      exact (Hvalid k v Hs).
    + exact (primary_events faction o n Hn).
Qed.

Lemma update_faction_standing_witness :
  exists new_standings events,
    update_faction_standing sample_standings "corona" (-40) None = Ok (new_standings, events)
    /\ In "corona_trust_lost"%string events
    /\ valid_standings new_standings.
Proof.
  pose proof (update_faction_standing_spec sample_standings "corona" (-40) None) as H.
  cbv zeta in H. destruct H as (Hconv & _ & Hret).
  destruct (Hret (or_intror (Hconv ltac:(vm_compute; reflexivity))))
    as (m & ev & E & _ & _ & _ & Hvalid & _ & Hlost & _).
  exists m, ev. split; [exact E |]. split.
  - apply Hlost. exists 60. split; [reflexivity |].
    replace (default 50 (sample_standings !! "corona")) with 65 by (vm_compute; reflexivity).
    unfold crosses_down, clamp. lia.
  - apply Hvalid. unfold sample_standings. repeat apply map_Forall_insert_2; try lia.
    apply map_Forall_empty.
Defined.

(** Lowering the crown's standing by 40 raises that of the order by
    [int(-40 * -0.5)] = 20. *)
Example crown_falls_order_rises :
  match update_faction_standing sample_standings "corona" (-40) None with
  | Ok (new_standings, events) =>
      (new_standings !! "corona", new_standings !! "orden_llama", events)
  | Raise _ => (None, None, [])
  end = (Some 25, Some 70, [ "corona_trust_lost"; "corona_turned_hostile" ]%string).
Proof. vm_compute. reflexivity. Qed.

(** C2, as stated, fails on two counts.  A standing outside [0,100] of a
    faction that the update does not touch is returned as it is: raising
    "pueblo" by 5 leaves the crown's 150.  And a delta too large to convert
    to a float raises [OverflowError] from [int(change * ratio)] instead of
    returning: lowering "corona" by 10^400 while "orden_llama" has a
    standing. *)
Lemma update_faction_standing_counterexample :
  (exists new_standings events,
     update_faction_standing stray_standings "pueblo" 5 None = Ok (new_standings, events)
     /\ new_standings !! "corona" = Some 150)
  /\ update_faction_standing sample_standings "corona" (- 10 ^ 400) None
     = Raise (OverflowError "int too large to convert to float").
Proof.
  split.
  - exists (<["pueblo" := 55]> stray_standings), []. split; vm_compute; reflexivity.
  - vm_compute. reflexivity.
Qed.

(** *** Karma deltas *)

Ltac eval_karma :=
  match goal with
  | |- context [int_of_float ?x] =>
      let r := eval vm_compute in (int_of_float x) in
      replace (int_of_float x) with r by (vm_compute; reflexivity)
  end.

Ltac karma_case :=
  cbn [default]; try eval_karma;
  repeat match goal with |- _ /\ _ => split end; intros;
  try match goal with Hn : ?P -> _ = 0, H : ?P |- _ => specialize (Hn H) end;
  try discriminate; try lia.

(** X1. [calculate_karma_change] gives 0 for an action code that is not in
    the table; it never turns a reward into a penalty or a penalty into a
    reward, and stays within -93 and 58; without a truthy context flag it is
    the table value; witnesses and an important target only amplify it; and
    a repeated bad action is never milder than the table value, while a
    repeated good action alone is worth less than the table value. *)
Theorem calculate_karma_change_range (action_code : string)
  (context : option (gmap string PyVal)) :
  let base := default 0 (dict_get action_code KARMA_ACTIONS) in
  let r := calculate_karma_change action_code context in
  (dict_get action_code KARMA_ACTIONS = None -> r = 0)
  /\ (0 <= base -> 0 <= r)
  /\ (base <= 0 -> r <= 0)
  /\ -93 <= r <= 58
  /\ (context_flag context "repeated_action" = false ->
      context_flag context "witnessed" = false ->
      context_flag context "target_important" = false -> r = base)
  /\ (context_flag context "repeated_action" = false -> Z.abs base <= Z.abs r)
  /\ (context_flag context "repeated_action" = true -> base < 0 -> r <= base)
  /\ (context_flag context "repeated_action" = true ->
      context_flag context "witnessed" = false ->
      context_flag context "target_important" = false -> 0 < base -> r < base).
Proof.
  cbv zeta. unfold calculate_karma_change, context_flag.
  assert (Hv : In (default 0 (dict_get action_code KARMA_ACTIONS))
                 (0 :: map snd KARMA_ACTIONS)).
  { destruct (dict_get action_code KARMA_ACTIONS) as [v |] eqn:E; [| now left].
    right. apply dict_get_In in E. apply (in_map snd) in E. exact E. }
  assert (Hn : dict_get action_code KARMA_ACTIONS = None ->
               default 0 (dict_get action_code KARMA_ACTIONS) = 0).
  { intros ->. reflexivity. }
  revert Hv Hn. generalize (default 0 (dict_get action_code KARMA_ACTIONS)) as base.
  generalize (dict_get action_code KARMA_ACTIONS) as found.
  intros found base Hv Hn.
  destruct context as [c |].
  - destruct (bool_decide (c = ∅)) eqn:Hc.
    + apply bool_decide_eq_true in Hc. subst c. rewrite !lookup_empty. cbn [default truthy].
      simpl in Hv.
      repeat (destruct Hv as [<- | Hv]; [karma_case; auto |]).
      destruct Hv.
    + destruct (truthy (default PyNone (c !! "repeated_action"))),
        (truthy (default PyNone (c !! "witnessed"))),
        (truthy (default PyNone (c !! "target_important")));
        simpl in Hv.
      all: repeat (destruct Hv as [<- | Hv]; [karma_case; auto |]).
      all: destruct Hv.
  - simpl in Hv.
    repeat (destruct Hv as [<- | Hv]; [karma_case; auto |]).
    destruct Hv.
Qed.

(** *** Ending requirements *)

Lemma app_one_not_nil {A : Type} (l : list A) (x : A) : l ++ [x] = [] -> False.
Proof. destruct l; discriminate. Qed.

Ltac requirement_cases :=
  repeat match goal with
         | |- _ /\ _ => split
         | |- _ <-> _ => split
         | |- _ -> _ => intro
         | |- forall _, _ => intro
         | H : _ /\ _ |- _ => destruct H
         | H : false = true |- _ => discriminate H
         | H : _ :: _ = [] |- _ => discriminate H
         | H : _ ++ [_] = [] |- _ => apply app_one_not_nil in H; destruct H
         | H : Some _ = Some _ |- _ => inversion H; subst; clear H
         | H : None = Some _ |- _ => discriminate H
         | H : forall m, Some ?x = Some m -> _ |- _ => specialize (H _ eq_refl)
         end;
  try tauto; try lia.

Lemma check_faction_requirement_step (standings : gmap string Z) (met : bool)
  (missing : list string) (entry : string * FactionRequirement) :
  (met = true <-> missing = []) ->
  let r := check_faction_requirement standings (met, missing) entry in
  let current := default 50 (standings !! fst entry) in
  (fst r = true <-> snd r = [])
  /\ (fst r = true <->
      met = true
      /\ (forall m, req_min (snd entry) = Some m -> m <= current)
      /\ (forall m, req_max (snd entry) = Some m -> current <= m)).
Proof.
  intros Hinv. destruct entry as [faction [mn mx]]. cbv zeta.
  unfold check_faction_requirement. cbn [fst snd req_min req_max].
  set (current := default 50 (standings !! faction)). clearbody current.
  destruct mn as [mn |], mx as [mx |];
    repeat match goal with
           | |- context [ (?a <? ?b) ] => destruct (Z.ltb_spec a b)
           end;
    cbn [fst snd]; requirement_cases.
Qed.

Lemma check_faction_requirements_fold (standings : gmap string Z)
  (reqs : list (string * FactionRequirement)) (met : bool) (missing : list string) :
  (met = true <-> missing = []) ->
  let r := fold_left (check_faction_requirement standings) reqs (met, missing) in
  (fst r = true <-> snd r = [])
  /\ (fst r = true <->
      met = true
      /\ Forall (fun entry : string * FactionRequirement =>
                   let current := default 50 (standings !! fst entry) in
                   (forall m, req_min (snd entry) = Some m -> m <= current)
                   /\ (forall m, req_max (snd entry) = Some m -> current <= m))
           reqs).
Proof.
  revert met missing. induction reqs as [| entry reqs IH]; intros met missing Hinv; cbv zeta.
  - simpl. split; [exact Hinv |]. split; [intros H; split; [exact H | constructor] | tauto].
  - cbn [fold_left].
    pose proof (check_faction_requirement_step standings met missing entry Hinv) as Hstep.
    cbv zeta in Hstep.
    destruct (check_faction_requirement standings (met, missing) entry) as [met' missing'].
    cbn [fst snd] in Hstep. destruct Hstep as [Hinv' Hmet'].
    destruct (IH met' missing' Hinv') as [IH1 IH2]. split; [exact IH1 |].
    rewrite IH2, Hmet'. split.
    + intros ((Hm & H1 & H2) & Hall). split; [exact Hm |]. constructor; [split; assumption | exact Hall].
    + intros (Hm & Hall). inversion Hall as [| ? ? [H1 H2] Hall']; subst. tauto.
Qed.

(** X2. [check_ending_karma_requirements] reports the requirements as met
    exactly when it lists nothing as missing, and exactly when the karma lies
    within the configured bounds and every listed faction's standing (50 for
    a faction without one) lies within its bounds. *)
Theorem check_ending_karma_requirements_spec (karma : Z) (faction_standings : gmap string Z)
  (ending_requirements : EndingRequirements) :
  let met := fst (check_ending_karma_requirements karma faction_standings ending_requirements) in
  let missing := snd (check_ending_karma_requirements karma faction_standings ending_requirements) in
  (met = true <-> missing = [])
  /\ (met = true <-> requirements_hold karma faction_standings ending_requirements).
Proof.
  cbv zeta. unfold check_ending_karma_requirements, requirements_hold.
  destruct ending_requirements as [kmin kmax freqs]. cbn [karma_min karma_max faction_requirements].
  set (s1 := match kmin with
             | Some m => if karma <? m then (false, [] ++ ["karma mínimo " +:+ str_of_int m])
                         else (true, [])
             | None => (true, [])
             end).
  assert (H1 : (fst s1 = true <-> snd s1 = [])
               /\ (fst s1 = true <-> forall m, kmin = Some m -> m <= karma)).
  { subst s1. destruct kmin as [m |]; [destruct (Z.ltb_spec karma m) |]; cbn [fst snd app];
      requirement_cases. }
  destruct s1 as [met1 missing1]. cbn [fst snd] in H1. destruct H1 as [Hinv1 Hmet1].
  set (s2 := match kmax with
             | Some m => if m <? karma then (false, missing1 ++ ["karma máximo " +:+ str_of_int m])
                         else (met1, missing1)
             | None => (met1, missing1)
             end).
  assert (H2 : (fst s2 = true <-> snd s2 = [])
               /\ (fst s2 = true <-> met1 = true /\ forall m, kmax = Some m -> karma <= m)).
  { subst s2. destruct kmax as [m |]; [destruct (Z.ltb_spec m karma) |]; cbn [fst snd];
      requirement_cases. }
  destruct s2 as [met2 missing2]. cbn [fst snd] in H2. destruct H2 as [Hinv2 Hmet2].
  destruct freqs as [reqs |]; cbn [default].
  - destruct (check_faction_requirements_fold faction_standings reqs met2 missing2 Hinv2)
      as [Hf1 Hf2].
    split; [exact Hf1 |]. rewrite Hf2, Hmet2, Hmet1. tauto.
  - cbn [fst snd]. split; [exact Hinv2 |]. rewrite Hmet2, Hmet1.
    split; [intros [? ?]; repeat split; auto | tauto].
Qed.

(** *** Dialogue options *)

Lemma filter_sublist {A : Type} (f : A -> bool) (l : list A) : sublist (List.filter f l) l.
Proof.
  induction l as [| a l IH]; simpl; [constructor |].
  destruct (f a); [now apply sublist_skip | now apply sublist_cons].
Qed.

Lemma option_available_iff (karma : Z) (standings : gmap string Z) (opt : DialogueOption) :
  option_available karma standings opt = true <->
  forall r, requirements opt = Some r ->
    (forall m, dialogue_karma_min r = Some m -> m <= karma)
    /\ (forall m, dialogue_karma_max r = Some m -> karma <= m)
    /\ (forall faction, dialogue_faction r = Some faction ->
        default 50 (dialogue_faction_min r) <= default 50 (standings !! faction)).
Proof.
  unfold option_available. destruct (requirements opt) as [[kmin kmax fac fmin] |];
    cbv beta iota delta [default from_option id dialogue_karma_min dialogue_karma_max
                           dialogue_faction dialogue_faction_min].
  - set (required := match fmin with Some m => m | None => 50 end).
    destruct kmin as [mn |], kmax as [mx |], fac as [f |];
      try set (current := match standings !! f with Some v => v | None => 50 end);
      repeat match goal with
             | |- context [ (?a <=? ?b) ] => destruct (Z.leb_spec a b)
             end;
      cbn [negb]; split; intros Hav;
      lazymatch goal with
      | |- forall r, _ =>
          intros r E; inversion E; subst; clear E;
          cbn [dialogue_karma_min dialogue_karma_max dialogue_faction dialogue_faction_min];
          requirement_cases; try (subst required current; lia)
      | |- _ =>
          specialize (Hav _ eq_refl);
          cbn [dialogue_karma_min dialogue_karma_max dialogue_faction dialogue_faction_min] in Hav;
          requirement_cases; try reflexivity; try (subst required current; lia)
      end.
  - split; [intros _ r E; discriminate E | reflexivity].
Qed.

(** X3. [get_available_dialogue_options] keeps the options in their order; an
    option is kept exactly when the karma lies within its karma bounds and
    the standing of its faction (50 without one) reaches its [faction_min]
    (50 without one); an option without requirements is always kept; and
    raising faction standings never removes an option. *)
Theorem get_available_dialogue_options_spec (karma : Z) (standings : gmap string Z)
  (all_options : list DialogueOption) :
  let available := get_available_dialogue_options karma standings all_options in
  sublist available all_options
  /\ (forall opt, In opt available <->
        In opt all_options
        /\ forall r, requirements opt = Some r ->
             (forall m, dialogue_karma_min r = Some m -> m <= karma)
             /\ (forall m, dialogue_karma_max r = Some m -> karma <= m)
             /\ (forall faction, dialogue_faction r = Some faction ->
                 default 50 (dialogue_faction_min r) <= default 50 (standings !! faction)))
  /\ (forall opt, In opt all_options -> requirements opt = None ->
        In opt available)
  /\ (forall standings' : gmap string Z,
        (forall faction, default 50 (standings !! faction) <= default 50 (standings' !! faction)) ->
        forall opt, In opt available ->
          In opt (get_available_dialogue_options karma standings' all_options)).
Proof.
  cbv zeta. unfold get_available_dialogue_options.
  split; [apply filter_sublist |]. split; [| split].
  - intros opt. rewrite filter_In, option_available_iff. reflexivity.
  - intros opt Hin Hnone. apply filter_In. split; [exact Hin |].
    apply option_available_iff. intros r E. congruence.
  - intros standings' Hle opt. rewrite !filter_In, !option_available_iff.
    intros [Hin H]. split; [exact Hin |]. intros r E.
    destruct (H r E) as (H1 & H2 & H3). repeat split; auto.
    intros faction Ef. specialize (H3 faction Ef). specialize (Hle faction). lia.
Qed.

(** *** Karma recovery *)

Lemma positive_actions_sorted :
  positive_actions =
  [ ("self_sacrifice", 30); ("saved_life", 25); ("exposed_corruption", 20);
    ("forgave_enemy", 20); ("showed_mercy", 15); ("protected_weak", 15);
    ("donated_to_poor", 12); ("helped_innocent", 10); ("kept_promise", 10);
    ("told_truth", 5) ]%string.
Proof. reflexivity. Qed.

Ltac decide_ltb :=
  repeat match goal with
         | |- context [ (?a <? ?b) ] =>
             first [ replace (a <? b) with true by lia
                   | replace (a <? b) with false by lia ]
         end.

(** X4. [suggest_karma_recovery_actions] answers with the single remark that
    the karma is already there when the karma has reached the target (90 for
    "heroico", 70 for "honorable", 50 otherwise).  For a karma of at least 0
    below the target it suggests between one and four actions, the most
    rewarding first, whose table values together cover the missing karma and
    exceed it by less than one action's worth. *)
Theorem suggest_karma_recovery_actions_covers (current_karma : Z) (target_level : string) :
  let target :=
    if String.eqb target_level "heroico" then 90
    else if String.eqb target_level "honorable" then 70 else 50 in
  let suggestions := suggest_karma_recovery_actions current_karma target_level in
  (target <= current_karma ->
   suggestions = [ "El karma ya está en el nivel deseado o superior"%string ])
  /\ (0 <= current_karma < target ->
      let accumulated := snd (recovery_loop (target - current_karma) positive_actions) in
      suggestions = fst (recovery_loop (target - current_karma) positive_actions)
      /\ target - current_karma <= accumulated < target - current_karma + 30
      /\ (1 <= length suggestions <= 4)%nat
      /\ hd_error suggestions = Some "self_sacrifice"%string).
Proof.
  cbv zeta. unfold suggest_karma_recovery_actions.
  assert (Et : default 50 (dict_get target_level
                 [ ("heroico", 90); ("honorable", 70); ("neutral", 50) ]%string)
               = if String.eqb target_level "heroico" then 90
                 else if String.eqb target_level "honorable" then 70 else 50).
  { cbn [dict_get]. destruct (String.eqb target_level "heroico"); [reflexivity |].
    destruct (String.eqb target_level "honorable"); [reflexivity |].
    destruct (String.eqb target_level "neutral"); reflexivity. }
  rewrite Et. clear Et.
  set (target := if String.eqb target_level "heroico" then 90
                 else if String.eqb target_level "honorable" then 70 else 50).
  assert (Ht : 50 <= target <= 90).
  { subst target. destruct (String.eqb target_level "heroico"); [lia |].
    destruct (String.eqb target_level "honorable"); lia. }
  clearbody target. split.
  - intros H. replace (target - current_karma <=? 0) with true by lia. reflexivity.
  - intros H. replace (target - current_karma <=? 0) with false by lia.
    split; [reflexivity |].
    rewrite positive_actions_sorted. unfold recovery_loop.
    set (d := target - current_karma).
    assert (Hd : 0 < d <= 30 \/ 30 < d <= 55 \/ 55 < d <= 75 \/ 75 < d <= 90) by lia.
    cbn [fold_left dict_get String.eqb Ascii.eqb Bool.eqb default app].
    destruct Hd as [Hd | [Hd | [Hd | Hd]]];
      repeat (decide_ltb; cbn [Z.add Pos.add Pos.succ Pos.add_carry app fst snd]);
      cbn [length hd_error]; repeat split; lia.
Qed.

End KarmaSystem.

(** ** models/npc.py and services/npc_brain.py *)

Module NPCBrain.
Import Py Config.

Record NPCPersonality : Type := {
  cunning : Z; loyalty : Z; patience : Z; pride : Z; cruelty : Z;
  compassion : Z; courage : Z; greed : Z; honor : Z; wisdom : Z
}.

Record NPCState : Type := {
  npc_id : Z;
  code : string;
  name : string;
  apparent_role : string;
  true_role : option string;
  description : option string;
  appearance : option string;
  personality : NPCPersonality;
  secrets : list string;
  dialogue_style : option string;
  betrayal_threshold : option Z;
  redemption_threshold : option Z;
  is_major : bool
}.

(** [last_interaction] and [custom_state] are never read by the brain and
    are left out. *)
Record NPCRelationship : Type := {
  room_id : Z;
  rel_npc_id : Z;
  npc_code : string;
  npc_name : string;
  relationship_score : Z;
  trust_level : Z;
  known_secrets : list string;
  interactions_count : Z;
  emotional_state : string;
  betrayal_triggered : bool;
  redemption_triggered : bool
}.

Record NPCReaction : Type := {
  reaction_npc_code : string;
  reaction_npc_name : string;
  emotional_response : string;
  relationship_change : Z;
  trust_change : Z;
  dialogue_tone : string;
  dialogue_hints : list string;
  reveals_secret : option string;
  triggers_betrayal : bool;
  triggers_redemption : bool;
  behavior_notes : list string
}.

(** Truth value of an [Optional[str]]: [None] and the empty string are falsy. *)
Definition truthy_str (o : option string) : bool :=
  match o with
  | Some s => negb (String.eqb s "")
  | None => false
  end.

(** [x or d] on an [Optional[int]]: [None] and 0 are falsy. *)
Definition or_default (o : option Z) (d : Z) : Z :=
  match o with
  | Some t => if t =? 0 then d else t
  | None => d
  end.

(** [true_role == apparent_role] *)
Definition role_eqb (o : option string) (s : string) : bool :=
  match o with
  | Some r => String.eqb r s
  | None => false
  end.

Definition TRAIT_REACTION_MODIFIERS : list (string * list (string * float)) :=
  [ ("cunning", [ ("deception", 0.3); ("direct_attack", -0.1) ]);
    ("loyalty", [ ("betrayal", -0.5); ("kept_promise", 0.3) ]);
    ("compassion", [ ("helped_innocent", 0.4); ("cruelty", -0.4) ]);
    ("pride", [ ("disrespect", -0.4); ("flattery", 0.2) ]);
    ("cruelty", [ ("mercy", -0.2); ("ruthless", 0.2) ]);
    ("honor", [ ("kept_promise", 0.3); ("betrayal", -0.4); ("fair_fight", 0.2) ]);
    ("greed", [ ("bribe", 0.3); ("generous", -0.1) ]) ]%float.

Definition EMOTIONAL_TRANSITIONS : list (string * list (string * string)) :=
  [ ("neutral", [ ("positive_action", "friendly"); ("negative_action", "suspicious");
                  ("threat", "fearful"); ("kindness", "grateful") ]);
    ("friendly", [ ("positive_action", "friendly"); ("negative_action", "suspicious");
                   ("betrayal", "hostile"); ("continued_kindness", "grateful") ]);
    ("suspicious", [ ("positive_action", "neutral"); ("continued_negative", "hostile");
                     ("proof_of_innocence", "neutral") ]);
    ("hostile", [ ("positive_action", "suspicious"); ("major_kindness", "neutral");
                  ("continued_aggression", "hostile") ]);
    ("grateful", [ ("continued_kindness", "grateful"); ("negative_action", "sad");
                   ("betrayal", "hostile") ]);
    ("fearful", [ ("reassurance", "neutral"); ("continued_threat", "desperate");
                  ("protection", "grateful") ]) ]%string.

Definition _get_base_reaction (action_type : string) : Z * Z :=
  let reactions : list (string * (Z * Z)) :=
    [ ("friendly", (5, 3)); ("helped", (10, 8)); ("gift", (8, 5));
      ("defended", (15, 12)); ("saved", (25, 20)); ("trusted", (5, 10));
      ("honest", (3, 8)); ("respected", (5, 3));
      ("hostile", (-5, -5)); ("insulted", (-8, -5)); ("threatened", (-10, -15));
      ("attacked", (-20, -25)); ("lied", (-5, -15)); ("stole", (-15, -20));
      ("betrayed", (-30, -40));
      ("neutral", (0, 0)); ("professional", (1, 2)); ("distant", (-2, -1));
      ("confrontation", (-5, 0)); ("seductive", (5, -2)); ("deceptive", (0, -10)) ] in
  default (0, 0) (dict_get action_type reactions).

(** [personality.model_dump()]: the traits in field order. *)
Definition model_dump (p : NPCPersonality) : list (string * Z) :=
  [ ("cunning", cunning p); ("loyalty", loyalty p); ("patience", patience p);
    ("pride", pride p); ("cruelty", cruelty p); ("compassion", compassion p);
    ("courage", courage p); ("greed", greed p); ("honor", honor p);
    ("wisdom", wisdom p) ]%string.

Definition _apply_personality_modifiers (p : NPCPersonality) (action_type : string)
  : float * float :=
  fold_left
    (fun (acc : float * float) (item : string * Z) =>
       let '(relation_modifier, trust_modifier) := acc in
       let '(trait, trait_value) := item in
       match dict_get trait TRAIT_REACTION_MODIFIERS with
       | Some trait_reactions =>
           match dict_get action_type trait_reactions with
           | Some coefficient =>
               let strength := int_div trait_value 100 in
               let modifier := (coefficient * strength)%float in
               ((relation_modifier + modifier)%float,
                (trust_modifier + modifier * 0.8)%float)
           | None => acc
           end
       | None => acc
       end)
    (model_dump p) (0%float, 0%float).

Definition _calculate_emotional_transition (current_state action_type : string)
  (relation_change : Z) : string :=
  let action_to_trigger : list (string * string) :=
    [ ("friendly", "positive_action"); ("helped", "positive_action");
      ("gift", "positive_action"); ("defended", "major_kindness");
      ("saved", "major_kindness"); ("trusted", "positive_action");
      ("hostile", "negative_action"); ("insulted", "negative_action");
      ("threatened", "threat"); ("attacked", "continued_aggression");
      ("lied", "negative_action"); ("betrayed", "betrayal") ]%string in
  let lookup (trigger : string) : string :=
    match dict_get current_state EMOTIONAL_TRANSITIONS with
    | Some transitions => default current_state (dict_get trigger transitions)
    | None => current_state
    end in
  match dict_get action_type action_to_trigger with
  | Some trigger => lookup trigger
  | None =>
      if 5 <? relation_change then lookup "positive_action"%string
      else if relation_change <? -5 then lookup "negative_action"%string
      else current_state
  end.

Definition _generate_dialogue_hints (npc : NPCState) (relationship : NPCRelationship)
  (action_type new_state : string) : list string :=
  let state_hints : list (string * list string) :=
    [ ("friendly", [ "Sonríe genuinamente"; "Tono cálido y acogedor" ]);
      ("suspicious", [ "Entrecierra los ojos"; "Respuestas cautelosas" ]);
      ("hostile", [ "Tono cortante"; "Postura defensiva" ]);
      ("grateful", [ "Expresión de agradecimiento"; "Disposición a ayudar" ]);
      ("fearful", [ "Voz temblorosa"; "Evita confrontación directa" ]);
      ("nervous", [ "Se toca el cuello/manos nerviosamente"; "Evita el contacto visual" ]);
      ("calculating", [ "Pausa antes de responder"; "Elige las palabras con cuidado" ]) ]%string in
  let p := personality npc in
  default [] (dict_get new_state state_hints)
  ++ (if 70 <? pride p then [ "Mantiene postura altiva y digna"%string ] else [])
  ++ (if 70 <? cunning p then [ "Respuestas con doble sentido o ambiguas"%string ] else [])
  ++ (if (70 <? compassion p) && str_in action_type [ "helped"; "saved" ]%string
      then [ "Muestra emoción genuina"%string ] else [])
  ++ (if negb (length (secrets npc) =? 0)%nat && (trust_level relationship <? 60)
      then [ "Evita ciertos temas o cambia de tema sutilmente"%string ] else []).

Definition _check_secret_reveal (npc : NPCState) (relationship : NPCRelationship)
  (action_type : string) (relation_change : Z) : option string :=
  match secrets npc with
  | [] => None
  | _ =>
      let known := known_secrets relationship in
      let unknown := List.filter (fun s => negb (str_in s known)) (secrets npc) in
      match unknown with
      | [] => None
      | first_unknown :: _ =>
          let new_trust := trust_level relationship + relation_change in
          if (80 <=? new_trust) && str_in action_type [ "saved"; "defended"; "trusted" ]%string
          then Some first_unknown
          else if (70 <=? new_trust) && (5 <=? interactions_count relationship)
                  && str_in action_type [ "friendly"; "helped"; "honest" ]%string
               then Some first_unknown
               else None
      end
  end.

Definition _check_betrayal_trigger (npc : NPCState) (relationship : NPCRelationship)
  (relation_change : Z) : bool :=
  if betrayal_triggered relationship then false
  else if negb (truthy_str (true_role npc)) || role_eqb (true_role npc) (apparent_role npc)
       then false
       else
         let threshold := or_default (betrayal_threshold npc) betrayal_threshold_default in
         let new_relationship := relationship_score relationship + relation_change in
         if new_relationship <? threshold then true else false.

Definition _check_redemption_trigger (npc : NPCState) (relationship : NPCRelationship)
  (relation_change : Z) : bool :=
  if redemption_triggered relationship then false
  else if negb (truthy_str (true_role npc)) || role_eqb (true_role npc) (apparent_role npc)
       then false
       else
         let threshold := or_default (redemption_threshold npc) redemption_threshold_default in
         let new_relationship := relationship_score relationship + relation_change in
         if threshold <=? new_relationship then true else false.

Definition _generate_behavior_notes (npc : NPCState) (relationship : NPCRelationship)
  (emotional_state action_type : string) : list string :=
  (if truthy_str (true_role npc) && negb (role_eqb (true_role npc) (apparent_role npc))
   then
     if role_eqb (true_role npc) "traitor"
     then
       if 60 <? relationship_score relationship
       then [ name npc +:+ " mantiene su fachada pero internamente "
              +:+ "planea cómo usar esta confianza" ]
       else [ name npc +:+ " comienza a ver a los jugadores como "
              +:+ "una amenaza a sus planes" ]
     else if role_eqb (true_role npc) "secret_ally"
          then
            if 50 <? trust_level relationship
            then [ name npc +:+ " considera revelar su verdadera lealtad" ]
            else []
          else []
   else [])
  ++ (if String.eqb emotional_state "suspicious"
      then [ "Hace preguntas indirectas para saber más"%string ]
      else if String.eqb emotional_state "hostile"
           then [ "Busca excusas para terminar la conversación"%string ]
           else if String.eqb emotional_state "grateful"
                then [ "Ofrece información o ayuda voluntariamente"%string ]
                else []).

Definition _get_dialogue_tone (emotional_state : string) (p : NPCPersonality) : string :=
  let base_tones : list (string * string) :=
    [ ("neutral", "formal"); ("friendly", "cálido"); ("suspicious", "cauteloso");
      ("hostile", "cortante"); ("grateful", "efusivo"); ("fearful", "tembloroso");
      ("nervous", "vacilante"); ("calculating", "medido"); ("angry", "agresivo");
      ("sad", "melancólico") ]%string in
  let base_tone := default "neutral"%string (dict_get emotional_state base_tones) in
  if (80 <? pride p) && String.eqb base_tone "friendly" then "cordial pero distante"%string
  else if (80 <? pride p) && String.eqb base_tone "fearful" then "tenso pero digno"%string
  else if (80 <? cunning p) && String.eqb base_tone "hostile" then "amenazante pero sutil"%string
  else base_tone.

Definition calculate_reaction (npc : NPCState) (relationship : NPCRelationship)
  (player_action action_type : string) (action_details : gmap string string)
  : NPCReaction :=
  let '(base_relation_change, base_trust_change) := _get_base_reaction action_type in
  let '(relation_modifier, trust_modifier) :=
    _apply_personality_modifiers (personality npc) action_type in
  let final_relation_change :=
    int_of_float (float_of_Z base_relation_change * (1 + relation_modifier))%float in
  let final_trust_change :=
    int_of_float (float_of_Z base_trust_change * (1 + trust_modifier))%float in
  let new_emotional_state :=
    _calculate_emotional_transition (emotional_state relationship) action_type
      final_relation_change in
  {| reaction_npc_code := code npc;
     reaction_npc_name := name npc;
     emotional_response := new_emotional_state;
     relationship_change := final_relation_change;
     trust_change := final_trust_change;
     dialogue_tone := _get_dialogue_tone new_emotional_state (personality npc);
     dialogue_hints := _generate_dialogue_hints npc relationship action_type new_emotional_state;
     reveals_secret := _check_secret_reveal npc relationship action_type final_relation_change;
     triggers_betrayal := _check_betrayal_trigger npc relationship final_relation_change;
     triggers_redemption := _check_redemption_trigger npc relationship final_relation_change;
     behavior_notes := _generate_behavior_notes npc relationship new_emotional_state action_type |}.

(** main.py, the NPC interaction endpoint, for a relationship that already
    has its row: the row after the update branch of
    [upsert_room_npc_relationship] has written the reaction back.  A trigger
    flag is written only when the trigger fired ([... or None]).  (On the
    first contact the statement only inserts the row and stores nothing of
    the reaction; that case is not this function.) *)
Definition persist (relationship : NPCRelationship) (reaction : NPCReaction)
  : NPCRelationship :=
  {| room_id := room_id relationship;
     rel_npc_id := rel_npc_id relationship;
     npc_code := npc_code relationship;
     npc_name := npc_name relationship;
     relationship_score := relationship_score relationship + relationship_change reaction;
     trust_level := trust_level relationship + trust_change reaction;
     known_secrets :=
       (if truthy_str (reveals_secret reaction)
        then known_secrets relationship ++ [default ""%string (reveals_secret reaction)]
        else known_secrets relationship);
     interactions_count := interactions_count relationship + 1;
     emotional_state := emotional_response reaction;
     betrayal_triggered :=
       (if triggers_betrayal reaction then true else betrayal_triggered relationship);
     redemption_triggered :=
       (if triggers_redemption reaction then true else redemption_triggered relationship) |}.

(** Any way of storing a reaction that keeps the two trigger flags: a flag
    is set once its trigger has fired and is never cleared. *)
Definition persists_flags (before : NPCRelationship) (reaction : NPCReaction)
  (after : NPCRelationship) : Prop :=
  betrayal_triggered after = betrayal_triggered before || triggers_betrayal reaction
  /\ redemption_triggered after = redemption_triggered before || triggers_redemption reaction.

(** The reactions of one NPC towards one room over a sequence of player
    actions, the flags being persisted after each reaction. *)
Inductive history (npc : NPCState) : NPCRelationship -> list NPCReaction -> Prop :=
| history_nil (relationship : NPCRelationship) : history npc relationship []
| history_cons (relationship after : NPCRelationship)
    (player_action action_type : string) (action_details : gmap string string)
    (rest : list NPCReaction) :
    persists_flags relationship
      (calculate_reaction npc relationship player_action action_type action_details) after ->
    history npc after rest ->
    history npc relationship
      (calculate_reaction npc relationship player_action action_type action_details :: rest).

(** The endpoint's own loop: react, write back, repeat. *)
Fixpoint run (npc : NPCState) (relationship : NPCRelationship)
  (actions : list (string * string)) : list NPCReaction :=
  match actions with
  | [] => []
  | (player_action, action_type) :: rest =>
      let reaction := calculate_reaction npc relationship player_action action_type ∅ in
      reaction :: run npc (persist relationship reaction) rest
  end.

Definition betrayals (trace : list NPCReaction) : nat :=
  length (List.filter triggers_betrayal trace).

Definition redemptions (trace : list NPCReaction) : nat :=
  length (List.filter triggers_redemption trace).

(** The betrayal condition in the words of the specification: the threshold
    is the configured one, or 30 when none is configured. *)
Definition betrayal_claimed (npc : NPCState) (relationship : NPCRelationship)
  (relation_change : Z) : Prop :=
  betrayal_triggered relationship = false
  /\ (exists r, true_role npc = Some r /\ r <> apparent_role npc)
  /\ relationship_score relationship + relation_change
     < match betrayal_threshold npc with Some t => t | None => 30 end.

Definition sample_personality : NPCPersonality :=
  {| cunning := 50; loyalty := 50; patience := 50; pride := 50; cruelty := 50;
     compassion := 50; courage := 50; greed := 50; honor := 50; wisdom := 50 |}.

(** A merchant who is secretly a traitor, with the given thresholds. *)
Definition traitor (bt rt : option Z) : NPCState :=
  {| npc_id := 1; code := "varen"; name := "Lord Varen";
     apparent_role := "merchant"; true_role := Some "traitor"%string;
     description := None; appearance := None;
     personality := sample_personality; secrets := [];
     dialogue_style := None;
     betrayal_threshold := bt; redemption_threshold := rt;
     is_major := true |}.

Definition fresh_relationship (score : Z) : NPCRelationship :=
  {| room_id := 1; rel_npc_id := 1; npc_code := "varen"; npc_name := "Lord Varen";
     relationship_score := score; trust_level := 75; known_secrets := [];
     interactions_count := 0; emotional_state := "neutral";
     betrayal_triggered := false; redemption_triggered := false |}.

(** *** Autonomous actions, and what a caller writes back *)

(** The dictionary [should_npc_act] returns: the keys ["action"],
    ["description"], ["secret"] (only for a confession) and ["severity"]. *)
Record NPCAction : Type := {
  act_action : string;
  act_description : string;
  act_secret : option string;
  act_severity : string
}.

(** [should_npc_act]; of [story_context] only the number under
    ["danger_level"] is read. *)
Definition should_npc_act (npc : NPCState) (relationship : NPCRelationship)
  (story_context : gmap string float) : option NPCAction :=
  if _check_betrayal_trigger npc relationship 0
  then Some {| act_action := "betray";
               act_description := name npc +:+ " decide actuar contra los jugadores";
               act_secret := None;
               act_severity := "high" |}
  else
    if (80 <? relationship_score relationship) && (70 <? trust_level relationship)
       && PrimFloat.ltb 0.5 (default 0%float (story_context !! "danger_level"))
    then Some {| act_action := "help";
                 act_description := name npc +:+ " ofrece ayuda inesperada";
                 act_secret := None;
                 act_severity := "medium" |}
    else
      if (85 <? trust_level relationship) && negb (length (secrets npc) =? 0)%nat
      then
        let unknown_secrets :=
          List.filter (fun s => negb (str_in s (known_secrets relationship))) (secrets npc) in
        match unknown_secrets with
        | first_unknown :: _ =>
            Some {| act_action := "confess";
                    act_description := name npc +:+ " decide confesar algo importante";
                    act_secret := Some first_unknown;
                    act_severity := "medium" |}
        | [] => None
        end
      else None.

(** Every trait within the range configured for it. *)
Definition valid_traits (p : NPCPersonality) : Prop :=
  Forall (fun item : string * Z =>
            match dict_get (fst item) NPC_TRAIT_RANGES with
            | Some (low, high) => low <= snd item <= high
            | None => True
            end)
    (model_dump p).

(** What a caller that stores a reaction keeps of it: the response becomes
    the emotional state, no known secret is forgotten, and a revealed secret
    (other than the empty string, which is not stored) becomes known. *)
Definition written_back (before : NPCRelationship) (reaction : NPCReaction)
  (after : NPCRelationship) : Prop :=
  emotional_state after = emotional_response reaction
  /\ (forall s, In s (known_secrets before) -> In s (known_secrets after))
  /\ (forall s, reveals_secret reaction = Some s -> s <> ""%string ->
      In s (known_secrets after)).

(** The reactions of one NPC over a sequence of player actions, each
    reaction being written back before the next. *)
Inductive interactions (npc : NPCState) : NPCRelationship -> list NPCReaction -> Prop :=
| interactions_nil (relationship : NPCRelationship) : interactions npc relationship []
| interactions_cons (relationship after : NPCRelationship)
    (player_action action_type : string) (action_details : gmap string string)
    (rest : list NPCReaction) :
    written_back relationship
      (calculate_reaction npc relationship player_action action_type action_details) after ->
    interactions npc after rest ->
    interactions npc relationship
      (calculate_reaction npc relationship player_action action_type action_details :: rest).

(** The secrets a sequence of reactions gives away, the empty string apart. *)
Definition revealed_secrets (trace : list NPCReaction) : list string :=
  List.filter (fun s => negb (String.eqb s "")) (omap reveals_secret trace).

(** An NPC with two secrets, and a relationship of high trust. *)
Definition keeper : NPCState :=
  {| npc_id := 2; code := "lyra"; name := "Lyra";
     apparent_role := "healer"; true_role := None;
     description := None; appearance := None;
     personality := sample_personality;
     secrets := [ "heir"; "poison" ]%string;
     dialogue_style := None;
     betrayal_threshold := None; redemption_threshold := None;
     is_major := false |}.

Definition trusting_relationship : NPCRelationship :=
  {| room_id := 1; rel_npc_id := 2; npc_code := "lyra"; npc_name := "Lyra";
     relationship_score := 70; trust_level := 90; known_secrets := [];
     interactions_count := 0; emotional_state := "grateful";
     betrayal_triggered := false; redemption_triggered := false |}.

(** *** Betrayal and redemption *)

Lemma persist_persists_flags (relationship : NPCRelationship) (reaction : NPCReaction) :
  persists_flags relationship reaction (persist relationship reaction).
Proof.
  unfold persists_flags, persist. simpl.
  destruct (triggers_betrayal reaction), (triggers_redemption reaction),
    (betrayal_triggered relationship), (redemption_triggered relationship); auto.
Qed.

Lemma run_history (npc : NPCState) (actions : list (string * string))
  (relationship : NPCRelationship) :
  history npc relationship (run npc relationship actions).
Proof.
  revert relationship. induction actions as [| [pa ty] rest IH]; intros relationship; simpl.
  - constructor.
  - econstructor; [apply persist_persists_flags | apply IH].
Qed.

Lemma betrayal_flag_blocks (npc : NPCState) (relationship : NPCRelationship) (d : Z) :
  betrayal_triggered relationship = true -> _check_betrayal_trigger npc relationship d = false.
Proof. unfold _check_betrayal_trigger. now intros ->. Qed.

Lemma redemption_flag_blocks (npc : NPCState) (relationship : NPCRelationship) (d : Z) :
  redemption_triggered relationship = true -> _check_redemption_trigger npc relationship d = false.
Proof. unfold _check_redemption_trigger. now intros ->. Qed.

Lemma reaction_betrayal (npc : NPCState) (relationship : NPCRelationship)
  (pa ty : string) (ad : gmap string string) :
  triggers_betrayal (calculate_reaction npc relationship pa ty ad)
  = _check_betrayal_trigger npc relationship
      (relationship_change (calculate_reaction npc relationship pa ty ad)).
Proof.
  unfold calculate_reaction.
  destruct (_get_base_reaction ty), (_apply_personality_modifiers (personality npc) ty).
  reflexivity.
Qed.

Lemma reaction_redemption (npc : NPCState) (relationship : NPCRelationship)
  (pa ty : string) (ad : gmap string string) :
  triggers_redemption (calculate_reaction npc relationship pa ty ad)
  = _check_redemption_trigger npc relationship
      (relationship_change (calculate_reaction npc relationship pa ty ad)).
Proof.
  unfold calculate_reaction.
  destruct (_get_base_reaction ty), (_apply_personality_modifiers (personality npc) ty).
  reflexivity.
Qed.

(** Once a flag is set, the corresponding trigger stays silent for the rest
    of the history. *)
Lemma history_flagged (npc : NPCState) (relationship : NPCRelationship)
  (trace : list NPCReaction) :
  history npc relationship trace ->
  (betrayal_triggered relationship = true -> betrayals trace = 0%nat)
  /\ (redemption_triggered relationship = true -> redemptions trace = 0%nat).
Proof.
  induction 1 as [| relationship after pa ty ad rest [Hb Hr] _ [IHb IHr]].
  - split; reflexivity.
  - unfold betrayals, redemptions in *. simpl. split; intros Hflag.
    + rewrite reaction_betrayal, betrayal_flag_blocks by exact Hflag.
      apply IHb. rewrite Hb, Hflag. reflexivity.
    + rewrite reaction_redemption, redemption_flag_blocks by exact Hflag.
      apply IHr. rewrite Hr, Hflag. reflexivity.
Qed.

Lemma triggers_exclusive_once (npc : NPCState) (relationship : NPCRelationship) (d : Z) :
  or_default (betrayal_threshold npc) betrayal_threshold_default
  <= or_default (redemption_threshold npc) redemption_threshold_default ->
  ~ (_check_betrayal_trigger npc relationship d = true
     /\ _check_redemption_trigger npc relationship d = true).
Proof.
  unfold _check_betrayal_trigger, _check_redemption_trigger. intros Hle [Hb Hr].
  destruct (betrayal_triggered relationship); [discriminate |].
  destruct (redemption_triggered relationship); [discriminate |].
  destruct (negb (truthy_str (true_role npc)) || role_eqb (true_role npc) (apparent_role npc));
    [discriminate |].
  cbv zeta in Hb, Hr.
  destruct (Z.ltb_spec (relationship_score relationship + d)
              (or_default (betrayal_threshold npc) betrayal_threshold_default));
    [| discriminate].
  destruct (Z.leb_spec (or_default (redemption_threshold npc) redemption_threshold_default)
              (relationship_score relationship + d)); [lia | discriminate].
Qed.

(** C3, as the code has it. Along any history in which the flags are
    persisted, the betrayal trigger fires at most once and the redemption
    trigger fires at most once; and when the NPC's effective betrayal
    threshold does not exceed its effective redemption threshold (as with the
    defaults 30 and 80), no reaction of the history has both triggers set. *)
Theorem triggers_one_shot (npc : NPCState) (relationship : NPCRelationship)
  (trace : list NPCReaction) :
  history npc relationship trace ->
  (betrayals trace <= 1)%nat
  /\ (redemptions trace <= 1)%nat
  /\ (or_default (betrayal_threshold npc) betrayal_threshold_default
      <= or_default (redemption_threshold npc) redemption_threshold_default ->
      Forall (fun r => ~ (triggers_betrayal r = true /\ triggers_redemption r = true)) trace).
Proof.
  induction 1 as [| relationship after pa ty ad rest [Hb Hr] Hrest (IHb & IHr & IHx)].
  - repeat split; simpl; auto.
  - pose proof (history_flagged _ _ _ Hrest) as [Fb Fr].
    split; [| split].
    + unfold betrayals in *. simpl.
      destruct (triggers_betrayal (calculate_reaction npc relationship pa ty ad)) eqn:E.
      * simpl. rewrite Fb; [lia |]. rewrite Hb. apply orb_true_r.
      * exact IHb.
    + unfold redemptions in *. simpl.
      destruct (triggers_redemption (calculate_reaction npc relationship pa ty ad)) eqn:E.
      * simpl. rewrite Fr; [lia |]. rewrite Hr. apply orb_true_r.
      * exact IHr.
    + intros Hle. constructor; [| exact (IHx Hle)].
      rewrite reaction_betrayal, reaction_redemption.
      apply triggers_exclusive_once, Hle.
Qed.

(** The endpoint's loop on a traitor with the default thresholds: an attack
    brings the score from 45 to 25 and fires the betrayal, once. *)
Lemma triggers_one_shot_witness :
  history (traitor None None) (fresh_relationship 45)
    (run (traitor None None) (fresh_relationship 45)
       [ (""%string, "attacked"%string); (""%string, "attacked"%string) ])
  /\ betrayals (run (traitor None None) (fresh_relationship 45)
       [ (""%string, "attacked"%string); (""%string, "attacked"%string) ]) = 1%nat
  /\ Forall (fun r => ~ (triggers_betrayal r = true /\ triggers_redemption r = true))
       (run (traitor None None) (fresh_relationship 45)
          [ (""%string, "attacked"%string); (""%string, "attacked"%string) ]).
Proof.
  split; [apply run_history |]. split; [vm_compute; reflexivity |].
  apply (triggers_one_shot (traitor None None) (fresh_relationship 45)).
  - apply run_history.
  - vm_compute. discriminate.
Defined.

(** C3, as stated, fails: a traitor configured to betray below 90, with the
    default redemption threshold 80 and a score of 85, reacts to a neutral
    action with both triggers set. *)
Lemma both_triggers_counterexample :
  let reaction :=
    calculate_reaction (traitor (Some 90) None) (fresh_relationship 85)
      "" "neutral" ∅ in
  triggers_betrayal reaction = true /\ triggers_redemption reaction = true.
Proof. vm_compute. split; reflexivity. Qed.

(** With the default thresholds, and the flags and scores written back by
    the endpoint, a betrayal does not prevent a later redemption. *)
Lemma betrayal_then_redemption :
  map (fun r => (triggers_betrayal r, triggers_redemption r))
    (run (traitor None None) (fresh_relationship 45)
       [ (""%string, "attacked"%string); (""%string, "saved"%string);
         (""%string, "saved"%string); (""%string, "saved"%string) ])
  = [ (true, false); (false, false); (false, false); (false, true) ].
Proof. vm_compute. reflexivity. Qed.

(** C7, as the code has it. The betrayal trigger fires exactly when the
    flag is not yet set, the NPC has a non-empty true role that differs from
    its apparent role, and the projected score is below the effective
    threshold: the configured one when it is set and not 0, and 30 otherwise.
    In the scenario (score 85, traitor posing as merchant, no threshold,
    delta -60) it fires. *)
Theorem check_betrayal_trigger_iff (npc : NPCState) (relationship : NPCRelationship)
  (relation_change : Z) :
  (_check_betrayal_trigger npc relationship relation_change = true <->
     betrayal_triggered relationship = false
     /\ (exists r, true_role npc = Some r /\ r <> ""%string /\ r <> apparent_role npc)
     /\ exists threshold,
         ((exists t, betrayal_threshold npc = Some t /\ t <> 0 /\ threshold = t)
          \/ ((betrayal_threshold npc = None \/ betrayal_threshold npc = Some 0)
              /\ threshold = 30))
         /\ relationship_score relationship + relation_change < threshold)
  /\ _check_betrayal_trigger (traitor None None) (fresh_relationship 85) (-60) = true.
Proof.
  split; [| reflexivity].
  unfold _check_betrayal_trigger, truthy_str, role_eqb, or_default, betrayal_threshold_default.
  split.
  - destruct (betrayal_triggered relationship); [discriminate |].
    destruct (true_role npc) as [r |]; [| discriminate].
    destruct (String.eqb_spec r ""); [discriminate |].
    destruct (String.eqb_spec r (apparent_role npc)); [discriminate |].
    cbn [negb orb]. cbv zeta.
    match goal with |- context [ ?a <? ?b ] => destruct (Z.ltb_spec a b) end; [| discriminate].
    intros _. split; [reflexivity |]. split; [now exists r |].
    destruct (betrayal_threshold npc) as [t |].
    + destruct (Z.eqb_spec t 0).
      * subst. exists 30. split; [right; auto | assumption].
      * exists t. split; [left; now exists t | assumption].
    + exists 30. split; [right; auto | assumption].
  - intros (Hflag & (r & Hr & Hne & Hdiff) & threshold & Hthr & Hlt).
    rewrite Hflag, Hr.
    destruct (String.eqb_spec r ""); [contradiction |].
    destruct (String.eqb_spec r (apparent_role npc)); [contradiction |].
    cbn [negb orb]. cbv zeta.
    assert (Heff : match betrayal_threshold npc with
                   | Some t => if t =? 0 then 30 else t
                   | None => 30
                   end = threshold).
    { destruct Hthr as [(t & Ht & Hnz & ->) | [[Ht | Ht] ->]]; rewrite Ht.
      - destruct (Z.eqb_spec t 0); [contradiction | reflexivity].
      - reflexivity.
      - reflexivity. }
    rewrite Heff. destruct (Z.ltb_spec (relationship_score relationship + relation_change) threshold);
      [reflexivity | lia].
Qed.

(** C7, as stated, fails: a configured threshold of 0 is not used; the
    default 30 is, so a score of 20 fires the betrayal although 20 < 0 is
    false. *)
Lemma betrayal_threshold_zero_counterexample :
  _check_betrayal_trigger (traitor (Some 0) None) (fresh_relationship 20) 0 = true
  /\ ~ betrayal_claimed (traitor (Some 0) None) (fresh_relationship 20) 0.
Proof.
  split; [reflexivity |].
  unfold betrayal_claimed. simpl. intros (_ & _ & H). lia.
Qed.

(** *** Personality and the numeric reaction *)

(** Zero times any float is a zero or not a number: its integer part is 0. *)
Lemma int_of_float_zero_mul (x : float) : int_of_float (float_of_Z 0 * x)%float = 0.
Proof.
  unfold int_of_float. rewrite mul_spec.
  replace (Prim2SF (float_of_Z 0)) with (S754_zero false) by (vm_compute; reflexivity).
  destruct (Prim2SF x); reflexivity.
Qed.

Lemma fold_left_fixed {A B : Type} (f : A -> B -> A) (l : list B) (a : A) :
  (forall x, In x l -> f a x = a) -> fold_left f l a = a.
Proof.
  induction l as [| x l IH]; intros H; simpl; [reflexivity |].
  rewrite H by now left. apply IH. intros y Hy. apply H. now right.
Qed.

(** An action type that no trait reacts to leaves both modifiers at 0.0. *)
Lemma modifiers_none (p : NPCPersonality) (action_type : string) :
  (forall trait reactions, In (trait, reactions) TRAIT_REACTION_MODIFIERS ->
                           dict_get action_type reactions = None) ->
  _apply_personality_modifiers p action_type = (0%float, 0%float).
Proof.
  intros Hnone. unfold _apply_personality_modifiers. apply fold_left_fixed.
  intros [trait trait_value] _.
  destruct (dict_get trait TRAIT_REACTION_MODIFIERS) as [reactions |] eqn:E; [| reflexivity].
  apply dict_get_In in E. now rewrite (Hnone _ _ E).
Qed.

(** No action type has both a base reaction and a trait that reacts to it. *)
Lemma modifier_or_base (action_type : string) :
  (forall trait reactions, In (trait, reactions) TRAIT_REACTION_MODIFIERS ->
                           dict_get action_type reactions = None)
  \/ _get_base_reaction action_type = (0, 0).
Proof.
  destruct (String.eqb action_type "deception") eqn:E1;
    [apply String.eqb_eq in E1; subst; now right |].
  destruct (String.eqb action_type "direct_attack") eqn:E2;
    [apply String.eqb_eq in E2; subst; now right |].
  destruct (String.eqb action_type "betrayal") eqn:E3;
    [apply String.eqb_eq in E3; subst; now right |].
  destruct (String.eqb action_type "kept_promise") eqn:E4;
    [apply String.eqb_eq in E4; subst; now right |].
  destruct (String.eqb action_type "helped_innocent") eqn:E5;
    [apply String.eqb_eq in E5; subst; now right |].
  destruct (String.eqb action_type "cruelty") eqn:E6;
    [apply String.eqb_eq in E6; subst; now right |].
  destruct (String.eqb action_type "disrespect") eqn:E7;
    [apply String.eqb_eq in E7; subst; now right |].
  destruct (String.eqb action_type "flattery") eqn:E8;
    [apply String.eqb_eq in E8; subst; now right |].
  destruct (String.eqb action_type "mercy") eqn:E9;
    [apply String.eqb_eq in E9; subst; now right |].
  destruct (String.eqb action_type "ruthless") eqn:E10;
    [apply String.eqb_eq in E10; subst; now right |].
  destruct (String.eqb action_type "fair_fight") eqn:E11;
    [apply String.eqb_eq in E11; subst; now right |].
  destruct (String.eqb action_type "bribe") eqn:E12;
    [apply String.eqb_eq in E12; subst; now right |].
  destruct (String.eqb action_type "generous") eqn:E13;
    [apply String.eqb_eq in E13; subst; now right |].
  left. intros trait reactions Hin. unfold TRAIT_REACTION_MODIFIERS in Hin.
  cbn [In] in Hin.
  repeat (destruct Hin as [Hin | Hin];
          [inversion Hin; subst; cbn [dict_get];
           rewrite ?E1, ?E2, ?E3, ?E4, ?E5, ?E6, ?E7, ?E8, ?E9, ?E10, ?E11, ?E12, ?E13;
           reflexivity |]).
  destruct Hin.
Qed.

Lemma base_reaction_values (action_type : string) :
  In (_get_base_reaction action_type)
    [ (0, 0); (5, 3); (10, 8); (8, 5); (15, 12); (25, 20); (5, 10); (3, 8);
      (-5, -5); (-8, -5); (-10, -15); (-20, -25); (-5, -15); (-15, -20); (-30, -40);
      (1, 2); (-2, -1); (-5, 0); (5, -2); (0, -10) ].
Proof.
  unfold _get_base_reaction.
  match goal with
  | |- context [dict_get action_type ?t] =>
      destruct (dict_get action_type t) as [v |] eqn:E; [| now left]
  end.
  apply dict_get_In in E. apply (in_map snd) in E. cbn [map snd default] in *.
  cbn [In] in *. intuition (subst; auto).
Qed.

(** X5. The personality never changes the numbers of a reaction: for any NPC
    whose traits are in their configured range, the relationship change and
    the trust change of [calculate_reaction] are the two base values of the
    action type (no action type has both a base reaction and a trait
    modifier), so they lie within [-30,25] and [-40,20]. *)
Theorem reaction_changes_ignore_personality (npc : NPCState) (relationship : NPCRelationship)
  (player_action action_type : string) (action_details : gmap string string) :
  valid_traits (personality npc) ->
  let reaction := calculate_reaction npc relationship player_action action_type action_details in
  relationship_change reaction = fst (_get_base_reaction action_type)
  /\ trust_change reaction = snd (_get_base_reaction action_type)
  /\ -30 <= relationship_change reaction <= 25
  /\ -40 <= trust_change reaction <= 20.
Proof.
  intros _. cbv zeta.
  assert (H : relationship_change
                (calculate_reaction npc relationship player_action action_type action_details)
              = fst (_get_base_reaction action_type)
              /\ trust_change
                   (calculate_reaction npc relationship player_action action_type action_details)
                 = snd (_get_base_reaction action_type)).
  { unfold calculate_reaction.
    pose proof (base_reaction_values action_type) as Hb.
    destruct (modifier_or_base action_type) as [Hnone | Hzero].
    - rewrite (modifiers_none _ _ Hnone).
      destruct (_get_base_reaction action_type) as [b1 b2].
      cbn [relationship_change trust_change fst snd].
      cbn [In] in Hb.
      repeat (destruct Hb as [Hb | Hb];
              [inversion Hb; subst; split; vm_compute; reflexivity |]).
      destruct Hb.
    - rewrite Hzero.
      destruct (_apply_personality_modifiers (personality npc) action_type) as [m1 m2].
      cbn [relationship_change trust_change fst snd].
      split; apply int_of_float_zero_mul. }
  destruct H as [H1 H2]. rewrite H1, H2. split; [reflexivity |]. split; [reflexivity |].
  pose proof (base_reaction_values action_type) as Hb.
  destruct (_get_base_reaction action_type) as [b1 b2]. cbn [fst snd In] in *.
  repeat (destruct Hb as [Hb | Hb]; [inversion Hb; subst; lia |]).
  destruct Hb.
Qed.

Lemma sample_personality_valid : valid_traits sample_personality.
Proof.
  unfold valid_traits. apply List.Forall_forall. intros [trait v] Hin.
  cbn [model_dump sample_personality In cunning loyalty patience pride cruelty compassion
         courage greed honor wisdom] in Hin.
  repeat (destruct Hin as [Hin | Hin]; [inversion Hin; subst; vm_compute; split; discriminate |]).
  destruct Hin.
Qed.

Lemma reaction_changes_ignore_personality_witness :
  valid_traits (personality (traitor None None))
  /\ relationship_change
       (calculate_reaction (traitor None None) (fresh_relationship 50) "" "betrayed" ∅) = -30.
Proof.
  split; [exact sample_personality_valid |].
  exact (proj1 (reaction_changes_ignore_personality (traitor None None) (fresh_relationship 50)
                  "" "betrayed" ∅ sample_personality_valid)).
Defined.

(** X6. The dialogue tone depends on the emotional state alone: the three
    tones reserved for proud or cunning NPCs are compared against the
    English state names while the base tones are Spanish, so they are never
    chosen. *)
Theorem dialogue_tone_ignores_personality (emotional_state : string) (p q : NPCPersonality) :
  _get_dialogue_tone emotional_state p = _get_dialogue_tone emotional_state q
  /\ ~ In (_get_dialogue_tone emotional_state p)
         [ "cordial pero distante"; "tenso pero digno"; "amenazante pero sutil" ]%string.
Proof.
  unfold _get_dialogue_tone.
  match goal with
  | |- context [default ?d (dict_get emotional_state ?t)] =>
      assert (Hv : In (default d (dict_get emotional_state t)) (d :: map snd t));
      [ destruct (dict_get emotional_state t) as [v |] eqn:E;
        [right; apply dict_get_In in E; apply (in_map snd) in E; exact E | now left]
      | generalize dependent (default d (dict_get emotional_state t)) ]
  end.
  intros tone Hv. cbn [map snd In] in Hv.
  repeat (destruct Hv as [Hv | Hv];
          [subst tone; cbn [String.eqb Ascii.eqb Bool.eqb]; rewrite !andb_false_r;
           split; [reflexivity | cbn [In]; intuition discriminate] |]).
  destruct Hv.
Qed.

(** *** Emotional states and secrets over a sequence of interactions *)

Lemma reaction_emotional_response (npc : NPCState) (relationship : NPCRelationship)
  (player_action action_type : string) (action_details : gmap string string) :
  exists d,
    emotional_response
      (calculate_reaction npc relationship player_action action_type action_details)
    = _calculate_emotional_transition (emotional_state relationship) action_type d.
Proof.
  unfold calculate_reaction.
  destruct (_get_base_reaction action_type) as [b1 b2].
  destruct (_apply_personality_modifiers (personality npc) action_type) as [m1 m2].
  eexists. reflexivity.
Qed.

Lemma reaction_reveals_secret (npc : NPCState) (relationship : NPCRelationship)
  (player_action action_type : string) (action_details : gmap string string) :
  exists d,
    reveals_secret
      (calculate_reaction npc relationship player_action action_type action_details)
    = _check_secret_reveal npc relationship action_type d.
Proof.
  unfold calculate_reaction.
  destruct (_get_base_reaction action_type) as [b1 b2].
  destruct (_apply_personality_modifiers (personality npc) action_type) as [m1 m2].
  eexists. reflexivity.
Qed.

(** Where a transition leads: nowhere, or to one of eight states. *)
Lemma transition_lookup (current trigger : string) (transitions : list (string * string)) :
  dict_get current EMOTIONAL_TRANSITIONS = Some transitions ->
  default current (dict_get trigger transitions) = current
  \/ In (default current (dict_get trigger transitions))
       [ "friendly"; "suspicious"; "fearful"; "grateful"; "hostile"; "neutral"; "sad";
         "desperate" ]%string.
Proof.
  intros E. apply dict_get_In in E.
  destruct (dict_get trigger transitions) as [v |] eqn:Ev; [| now left].
  right. apply dict_get_In in Ev. cbn [default].
  unfold EMOTIONAL_TRANSITIONS in E. cbn [In] in E.
  repeat (destruct E as [E | E];
          [inversion E; subst; cbn [In] in Ev;
           repeat (destruct Ev as [Ev | Ev]; [inversion Ev; subst; cbn [In]; tauto |]);
           destruct Ev |]).
  destruct E.
Qed.

Lemma transition_target (current action_type : string) (d : Z) :
  _calculate_emotional_transition current action_type d = current
  \/ In (_calculate_emotional_transition current action_type d)
       [ "friendly"; "suspicious"; "fearful"; "grateful"; "hostile"; "neutral"; "sad";
         "desperate" ]%string.
Proof.
  unfold _calculate_emotional_transition.
  destruct (dict_get current EMOTIONAL_TRANSITIONS) as [transitions |] eqn:E.
  - repeat match goal with
           | |- context [match ?x with Some _ => _ | None => _ end] =>
               lazymatch x with
               | dict_get action_type _ => destruct x
               end
           | |- context [if ?b then _ else _] => destruct b
           end;
      try (now left); eapply transition_lookup; exact E.
  - repeat match goal with
           | |- context [match ?x with Some _ => _ | None => _ end] => destruct x
           | |- context [if ?b then _ else _] => destruct b
           end; now left.
Qed.

Lemma transition_absorbing (current action_type : string) (d : Z) :
  dict_get current EMOTIONAL_TRANSITIONS = None ->
  _calculate_emotional_transition current action_type d = current.
Proof.
  intros E. unfold _calculate_emotional_transition. rewrite E.
  repeat match goal with
         | |- context [match ?x with Some _ => _ | None => _ end] => destruct x
         | |- context [if ?b then _ else _] => destruct b
         end; reflexivity.
Qed.

(** X7. Over any sequence of interactions in which each response is stored
    as the new emotional state: an NPC that starts in one of the configured
    emotional states never leaves them; and an NPC in a state that has no
    entry in the transition table (such as "sad", "desperate" or "angry")
    stays in that state whatever the players do. *)
Theorem emotional_states_along_interactions (npc : NPCState) (relationship : NPCRelationship)
  (trace : list NPCReaction) :
  interactions npc relationship trace ->
  (In (emotional_state relationship) NPC_EMOTIONAL_STATES ->
   Forall (fun r => In (emotional_response r) NPC_EMOTIONAL_STATES) trace)
  /\ (dict_get (emotional_state relationship) EMOTIONAL_TRANSITIONS = None ->
      Forall (fun r => emotional_response r = emotional_state relationship) trace).
Proof.
  induction 1 as [relationship | relationship after pa ty ad rest Hwb _ IH].
  - split; intros _; constructor.
  - destruct (reaction_emotional_response npc relationship pa ty ad) as (d & Ed).
    destruct Hwb as (Hstate & _). destruct IH as [IH1 IH2]. split.
    + intros Hin.
      assert (Hnext : In (emotional_response (calculate_reaction npc relationship pa ty ad))
                        NPC_EMOTIONAL_STATES).
      { rewrite Ed. destruct (transition_target (emotional_state relationship) ty d) as [-> | Ht];
          [exact Hin |].
        revert Ht. generalize (_calculate_emotional_transition (emotional_state relationship) ty d).
        intros s Hs. cbn [In] in Hs. unfold NPC_EMOTIONAL_STATES. cbn [In].
        intuition (subst; auto 20). }
      constructor; [exact Hnext |]. apply IH1. rewrite Hstate. exact Hnext.
    + intros Hnone.
      assert (Hnext : emotional_response (calculate_reaction npc relationship pa ty ad)
                      = emotional_state relationship).
      { rewrite Ed. apply transition_absorbing, Hnone. }
      constructor; [exact Hnext |].
      assert (Eafter : emotional_state after = emotional_state relationship) by congruence.
      rewrite Eafter in IH2. apply IH2, Hnone.
Qed.

Lemma persist_written_back (relationship : NPCRelationship) (reaction : NPCReaction) :
  written_back relationship reaction (persist relationship reaction).
Proof.
  unfold written_back, persist. cbn [emotional_state known_secrets].
  split; [reflexivity |]. split.
  - intros s Hs. destruct (truthy_str (reveals_secret reaction)); [| exact Hs].
    apply in_app_iff. now left.
  - intros s E Hne. rewrite E. cbn [truthy_str default].
    destruct (String.eqb_spec s ""); [contradiction |]. cbn [negb].
    apply in_app_iff. right. now left.
Qed.

Lemma run_interactions (npc : NPCState) (actions : list (string * string))
  (relationship : NPCRelationship) :
  interactions npc relationship (run npc relationship actions).
Proof.
  revert relationship. induction actions as [| [pa ty] actions IH]; intros relationship; simpl.
  - constructor.
  - econstructor; [apply persist_written_back | apply IH].
Qed.

Lemma emotional_states_along_interactions_witness :
  interactions keeper trusting_relationship
    (run keeper trusting_relationship [ (""%string, "insulted"%string); (""%string, "helped"%string) ])
  /\ Forall (fun r => In (emotional_response r) NPC_EMOTIONAL_STATES)
       (run keeper trusting_relationship
          [ (""%string, "insulted"%string); (""%string, "helped"%string) ]).
Proof.
  split; [apply run_interactions |].
  apply (proj1 (emotional_states_along_interactions keeper trusting_relationship _
                  (run_interactions keeper _ trusting_relationship))).
  cbn. tauto.
Defined.

Lemma secret_reveal_sound (npc : NPCState) (relationship : NPCRelationship)
  (action_type : string) (d : Z) (s : string) :
  _check_secret_reveal npc relationship action_type d = Some s ->
  In s (secrets npc) /\ ~ In s (known_secrets relationship)
  /\ In action_type [ "saved"; "defended"; "trusted"; "friendly"; "helped"; "honest" ]%string
  /\ 70 <= trust_level relationship + d.
Proof.
  unfold _check_secret_reveal. destruct (secrets npc) as [| s0 l] eqn:Es; [discriminate |].
  rewrite <- Es. clear Es s0 l.
  destruct (List.filter (fun s => negb (str_in s (known_secrets relationship))) (secrets npc))
    as [| u us] eqn:Ef; [discriminate |].
  assert (Hu : In u (secrets npc) /\ ~ In u (known_secrets relationship)).
  { assert (Hin : In u (List.filter (fun s => negb (str_in s (known_secrets relationship)))
                          (secrets npc))) by (rewrite Ef; now left).
    apply filter_In in Hin. destruct Hin as [Hin Hk]. split; [exact Hin |].
    apply negb_true_iff in Hk. intros Hc. apply str_in_In in Hc. congruence. }
  destruct ((80 <=? trust_level relationship + d)
            && str_in action_type [ "saved"; "defended"; "trusted" ]%string) eqn:E1.
  - intros E. inversion E; subst. apply andb_true_iff in E1. destruct E1 as [Ht Ha].
    apply str_in_In in Ha. apply Z.leb_le in Ht.
    destruct Hu as [Hu1 Hu2]. repeat split; auto; [| lia].
    cbn [In] in *. tauto.
  - destruct ((70 <=? trust_level relationship + d)
              && (5 <=? interactions_count relationship)
              && str_in action_type [ "friendly"; "helped"; "honest" ]%string) eqn:E2;
      [| discriminate].
    intros E. inversion E; subst. apply andb_true_iff in E2. destruct E2 as [E2 Ha].
    apply andb_true_iff in E2. destruct E2 as [Ht _].
    apply str_in_In in Ha. apply Z.leb_le in Ht.
    destruct Hu as [Hu1 Hu2]. repeat split; auto.
    cbn [In] in *. tauto.
Qed.

Lemma interactions_unknown (npc : NPCState) (relationship : NPCRelationship)
  (trace : list NPCReaction) :
  interactions npc relationship trace ->
  forall r s, In r trace -> reveals_secret r = Some s ->
    In s (secrets npc) /\ ~ In s (known_secrets relationship).
Proof.
  induction 1 as [relationship | relationship after pa ty ad rest Hwb _ IH];
    intros r s Hr Es; [destruct Hr |].
  destruct Hr as [<- | Hr].
  - destruct (reaction_reveals_secret npc relationship pa ty ad) as (d & Ed).
    rewrite Ed in Es. apply secret_reveal_sound in Es. tauto.
  - destruct (IH r s Hr Es) as [H1 H2]. split; [exact H1 |].
    intros Hk. apply H2. destruct Hwb as (_ & Hmono & _). now apply Hmono.
Qed.

(** X8. Over any sequence of interactions in which each reaction is written
    back: every secret a reaction reveals is one of the NPC's secrets that the
    players did not know at the start, and no secret is revealed twice. *)
Theorem secrets_told_once (npc : NPCState) (relationship : NPCRelationship)
  (trace : list NPCReaction) :
  interactions npc relationship trace ->
  List.NoDup (revealed_secrets trace)
  /\ (forall r s, In r trace -> reveals_secret r = Some s ->
        In s (secrets npc) /\ ~ In s (known_secrets relationship)).
Proof.
  intros Hi. split; [| now apply interactions_unknown].
  induction Hi as [relationship | relationship after pa ty ad rest Hwb Hrest IH].
  - constructor.
  - unfold revealed_secrets in *. cbn [omap list_omap].
    destruct (reveals_secret (calculate_reaction npc relationship pa ty ad)) as [s |] eqn:Es;
      [| exact IH].
    cbn [List.filter]. destruct (String.eqb_spec s "") as [_ | Hne]; cbn [negb]; [exact IH |].
    constructor; [| exact IH].
    intros Hin. apply filter_In in Hin. destruct Hin as [Hin _].
    apply list_elem_of_In, list_elem_of_omap in Hin. destruct Hin as (r & Hr & Er).
    apply list_elem_of_In in Hr.
    destruct (interactions_unknown npc after rest Hrest r s Hr Er) as [_ Hunknown].
    apply Hunknown. destruct Hwb as (_ & _ & Hadd). now apply Hadd.
Qed.

Lemma secrets_told_once_witness :
  interactions keeper trusting_relationship
    (run keeper trusting_relationship
       [ (""%string, "trusted"%string); (""%string, "trusted"%string);
         (""%string, "trusted"%string) ])
  /\ List.NoDup
       (revealed_secrets
          (run keeper trusting_relationship
             [ (""%string, "trusted"%string); (""%string, "trusted"%string);
               (""%string, "trusted"%string) ])).
Proof.
  split; [apply run_interactions |].
  exact (proj1 (secrets_told_once keeper trusting_relationship _
                  (run_interactions keeper _ trusting_relationship))).
Defined.

(** With full trust and three acts of trust, the keeper tells her two
    secrets, one after the other. *)
Example keeper_tells_both :
  revealed_secrets
    (run keeper trusting_relationship
       [ (""%string, "trusted"%string); (""%string, "trusted"%string);
         (""%string, "trusted"%string) ])
  = [ "heir"; "poison" ]%string.
Proof. vm_compute. reflexivity. Qed.

(** *** Autonomous actions *)

Ltac act_cases :=
  repeat match goal with
         | |- _ /\ _ => split
         | |- _ <-> _ => split
         | |- forall _, _ => intro
         | |- _ -> _ => intro
         | |- ~ _ => intro
         | H : exists _, _ |- _ => destruct H
         | H : _ /\ _ |- _ => destruct H
         | H : Some _ = Some _ |- _ => inversion H; subst; clear H
         | H : None = Some _ |- _ => discriminate H
         | H : Some _ = None |- _ => discriminate H
         | H : true = false |- _ => discriminate H
         | H : false = true |- _ => discriminate H
         end;
  cbn [act_action act_secret In] in *; try tauto; try lia; try discriminate; try reflexivity.

(** X9. [should_npc_act] answers with a betrayal exactly when the betrayal
    trigger fires on the unchanged relationship, so never once the betrayal
    flag is set; an offer of help needs a relationship above 80 and trust
    above 70; a confession needs trust above 85 and tells one of the NPC's
    secrets that the players do not know; and without a betrayal, trust of
    70 or less means no action at all. *)
Theorem should_npc_act_spec (npc : NPCState) (relationship : NPCRelationship)
  (story_context : gmap string float) :
  let result := should_npc_act npc relationship story_context in
  (forall a, result = Some a ->
     In (act_action a) [ "betray"; "help"; "confess" ]%string)
  /\ ((exists a, result = Some a /\ act_action a = "betray"%string)
      <-> _check_betrayal_trigger npc relationship 0 = true)
  /\ (betrayal_triggered relationship = true ->
      forall a, result = Some a -> act_action a <> "betray"%string)
  /\ (forall a, result = Some a -> act_action a = "help"%string ->
        80 < relationship_score relationship /\ 70 < trust_level relationship)
  /\ (forall a, result = Some a -> act_action a = "confess"%string ->
        85 < trust_level relationship
        /\ exists s, act_secret a = Some s /\ In s (secrets npc)
                     /\ ~ In s (known_secrets relationship))
  /\ (_check_betrayal_trigger npc relationship 0 = false ->
      trust_level relationship <= 70 -> result = None).
Proof.
  cbv zeta. unfold should_npc_act.
  pose proof (betrayal_flag_blocks npc relationship 0) as Hflag.
  destruct (_check_betrayal_trigger npc relationship 0) eqn:Eb.
  - act_cases.
    + eexists. split; reflexivity.
    + match goal with H : betrayal_triggered relationship = true |- _ =>
        specialize (Hflag H); discriminate Hflag
      end.
  - destruct ((80 <? relationship_score relationship) && (70 <? trust_level relationship)
              && PrimFloat.ltb 0.5 (default 0%float (story_context !! "danger_level"))) eqn:Eh.
    + apply andb_true_iff in Eh. destruct Eh as [Eh _].
      apply andb_true_iff in Eh. destruct Eh as [Hs Ht].
      apply Z.ltb_lt in Hs, Ht. act_cases.
    + clear Eh.
      destruct ((85 <? trust_level relationship) && negb (length (secrets npc) =? 0)%nat) eqn:Ec.
      * apply andb_true_iff in Ec. destruct Ec as [Ht _]. apply Z.ltb_lt in Ht.
        destruct (List.filter (fun s => negb (str_in s (known_secrets relationship)))
                    (secrets npc)) as [| u us] eqn:Ef.
        -- act_cases.
        -- assert (Hu : In u (secrets npc) /\ ~ In u (known_secrets relationship)).
           { assert (Hin : In u (List.filter
                                   (fun s => negb (str_in s (known_secrets relationship)))
                                   (secrets npc))) by (rewrite Ef; now left).
             apply filter_In in Hin. destruct Hin as [Hin Hk]. split; [exact Hin |].
             apply negb_true_iff in Hk. intros Hc. apply str_in_In in Hc. congruence. }
           act_cases. exists u. tauto.
      * act_cases.
Qed.

End NPCBrain.

(** ** services/twist_engine.py *)

Module TwistEngine.
Import Py.

(** One entry of [Twist.foreshadowing_elements]: a dictionary read with
    [get("scene_type")], [get("id", "default")], [get("subtle_hint", "")]
    and [get("npc")]; [None] stands for a missing key. *)
Record Element : Type := {
  scene_type : option string;
  elem_id : option string;
  subtle_hint : option string;
  npc : option string
}.

Record Twist : Type := {
  twist_id : string;
  title : string;
  description : string;
  revelation_text : string;
  required_clues : list string;
  min_clues_for_reveal : Z;
  required_flags : list string;
  required_act : Z;
  foreshadowing_elements : list Element;
  related_npcs : list string;
  related_decisions : list string;
  priority : Z;
  affects_ending : bool
}.

Record RedHerring : Type := {
  herring_id : string;
  herring_description : string;
  false_conclusion : string;
  real_truth : string;
  deploy_after_clue : option string;
  deploy_in_act : option Z;
  revelation_trigger : option string
}.

(** The [story_state] dictionary; [None] stands for a missing key. *)
Record StoryState : Type := {
  current_act : option Z;
  revealed_clues : option (list string);
  story_flags : option (gmap string PyVal);
  tension_level : option string
}.

(** The engine: two registries in insertion order, two sets, one counter map. *)
Record Engine : Type := {
  twists : list (string * Twist);
  red_herrings : list (string * RedHerring);
  revealed_twists : gset string;
  deployed_herrings : gset string;
  foreshadowed : gmap string Z
}.

Record Hint : Type := {
  hint_twist_id : string;
  hint : string;
  hint_priority : Z;
  hint_npc : option string;
  hint_type : string
}.

(** [d[k] = v] on a dictionary in insertion order: an existing key keeps
    its place, a new key goes last. *)
Fixpoint dict_set {V : Type} (k : string) (v : V) (d : list (string * V))
  : list (string * V) :=
  match d with
  | [] => [(k, v)]
  | (k', v') :: d' => if String.eqb k k' then (k, v) :: d' else (k', v') :: dict_set k v d'
  end.

(** [TwistEngine()] *)
Definition init : Engine :=
  {| twists := []; red_herrings := []; revealed_twists := ∅;
     deployed_herrings := ∅; foreshadowed := ∅ |}.

Definition register_twist (e : Engine) (twist : Twist) : Engine :=
  {| twists := dict_set (twist_id twist) twist (twists e);
     red_herrings := red_herrings e;
     revealed_twists := revealed_twists e;
     deployed_herrings := deployed_herrings e;
     foreshadowed := foreshadowed e |}.

Definition register_red_herring (e : Engine) (herring : RedHerring) : Engine :=
  {| twists := twists e;
     red_herrings := dict_set (herring_id herring) herring (red_herrings e);
     revealed_twists := revealed_twists e;
     deployed_herrings := deployed_herrings e;
     foreshadowed := foreshadowed e |}.

Definition record_foreshadowing (e : Engine) (twist_id : string) : Engine :=
  {| twists := twists e;
     red_herrings := red_herrings e;
     revealed_twists := revealed_twists e;
     deployed_herrings := deployed_herrings e;
     foreshadowed :=
       <[twist_id := default 0 (foreshadowed e !! twist_id) + 1]> (foreshadowed e) |}.

Definition mark_revealed (e : Engine) (twist_id : string) : Engine :=
  {| twists := twists e;
     red_herrings := red_herrings e;
     revealed_twists := {[twist_id]} ∪ revealed_twists e;
     deployed_herrings := deployed_herrings e;
     foreshadowed := foreshadowed e |}.

Definition mark_herring_deployed (e : Engine) (herring_id : string) : Engine :=
  {| twists := twists e;
     red_herrings := red_herrings e;
     revealed_twists := revealed_twists e;
     deployed_herrings := {[herring_id]} ∪ deployed_herrings e;
     foreshadowed := foreshadowed e |}.

(** [len(set(twist.required_clues) & revealed_clues)] *)
Definition clues_found (twist : Twist) (revealed : list string) : Z :=
  Z.of_nat (size ((list_to_set (required_clues twist) : gset string) ∩ list_to_set revealed)).

Definition _calculate_readiness (e : Engine) (twist : Twist) (clues_found : Z)
  (story_state : StoryState) (tension_level : string) : float :=
  let score := 0%float in
  let score :=
    match required_clues twist with
    | [] => (score + 0.3)%float
    | _ =>
        let clue_ratio := int_div clues_found (Z.of_nat (length (required_clues twist))) in
        (score + clue_ratio * 0.4)%float
    end in
  let foreshadow_count := default 0 (foreshadowed e !! twist_id twist) in
  let foreshadow_score := (float_min (int_div foreshadow_count 3) 1 * 0.2)%float in
  let score := (score + foreshadow_score)%float in
  let tension_bonuses : list (string * float) :=
    [ ("low", 0); ("normal", 0.05); ("high", 0.15); ("critical", 0.2) ]%float in
  let score := (score + default 0.05%float (dict_get tension_level tension_bonuses))%float in
  let current_act := default 1 (current_act story_state) in
  if required_act twist <? current_act
  then
    let act_bonus := float_min (float_of_Z (current_act - required_act twist) * 0.1) 0.2 in
    (score + act_bonus)%float
  else score.

(** [candidates.sort(key=lambda x: x[1], reverse=True); candidates[0]]: the
    sort is stable, so the head is the first candidate of greatest readiness. *)
Fixpoint first_best (best : Twist * float) (candidates : list (Twist * float)) : Twist :=
  match candidates with
  | [] => fst best
  | c :: rest =>
      if PrimFloat.ltb (snd best) (snd c) then first_best c rest else first_best best rest
  end.

(** The body of the loop of [check_revelation_timing] for one registry
    entry: [Some] when the twist becomes a candidate. *)
Definition revelation_candidate (e : Engine) (story_state : StoryState)
  (entry : string * Twist) : option (Twist * float) :=
  let '(twist_id, twist) := entry in
  let current_act := default 1 (current_act story_state) in
  let revealed_clues := default [] (revealed_clues story_state) in
  let story_flags := default ∅ (story_flags story_state) in
  let tension_level := default "normal"%string (tension_level story_state) in
  if bool_decide (twist_id ∈ revealed_twists e) then None
  else if current_act <? required_act twist then None
  else if negb (forallb (fun f => truthy (default PyNone (story_flags !! f)))
                  (required_flags twist))
       then None
       else
         let clues_found := clues_found twist revealed_clues in
         if clues_found <? min_clues_for_reveal twist then None
         else
           let readiness := _calculate_readiness e twist clues_found story_state tension_level in
           if PrimFloat.leb 0.7 readiness then Some (twist, readiness) else None.

Definition check_revelation_timing (e : Engine) (story_state : StoryState) : option Twist :=
  let candidates := omap (revelation_candidate e story_state) (twists e) in
  match candidates with
  | [] => None
  | c :: rest => Some (first_best c rest)
  end.

(** [element.get("scene_type") == scene_type or not element.get("scene_type")] *)
Definition scene_matches (o : option string) (scene : string) : bool :=
  match o with
  | Some s => String.eqb s scene || String.eqb s ""
  | None => true
  end.

(** The hints one registry entry contributes to [generate_foreshadowing]. *)
Definition foreshadow_entry (e : Engine) (story_state : StoryState) (scene : string)
  (entry : string * Twist) : list Hint :=
  let '(twist_id, twist) := entry in
  let current_act := default 1 (current_act story_state) in
  let revealed_clues := default [] (revealed_clues story_state) in
  if bool_decide (twist_id ∈ revealed_twists e) then []
  else if current_act + 2 <? required_act twist then []
  else
    flat_map
      (fun element =>
         if scene_matches (scene_type element) scene
         then
           let element_id := twist_id +:+ "_" +:+ default "default"%string (elem_id element) in
           if bool_decide (is_Some (foreshadowed e !! element_id)) then []
           else
             let clues_found := clues_found twist revealed_clues in
             let total_clues :=
               match required_clues twist with
               | [] => 1
               | _ => Z.of_nat (length (required_clues twist))
               end in
             let progress := int_div clues_found total_clues in
             [ {| hint_twist_id := twist_id;
                  hint := default ""%string (subtle_hint element);
                  hint_priority :=
                    int_of_float (float_of_Z (priority twist) * (0.5 + progress * 0.5))%float;
                  hint_npc := npc element;
                  hint_type := "foreshadow" |} ]
         else [])
      (foreshadowing_elements twist).

(** [hints.sort(key=lambda x: x["priority"], reverse=True)]: a stable sort,
    greatest priority first, equal priorities in their original order. *)
Fixpoint insert_desc (h : Hint) (sorted : list Hint) : list Hint :=
  match sorted with
  | [] => [h]
  | x :: rest =>
      if hint_priority h <? hint_priority x then x :: insert_desc h rest
      else h :: x :: rest
  end.

Definition sort_desc (hints : list Hint) : list Hint :=
  fold_right insert_desc [] hints.

Definition generate_foreshadowing (e : Engine) (story_state : StoryState) (scene : string)
  : list Hint :=
  let hints := flat_map (foreshadow_entry e story_state scene) (twists e) in
  firstn 3 (sort_desc hints).

(** The body of the loop of [check_red_herring_deployment] for one registry
    entry: whether the herring is appended. *)
Definition herring_due (e : Engine) (story_state : StoryState)
  (entry : string * RedHerring) : bool :=
  let '(herring_id, herring) := entry in
  let revealed_clues := default [] (revealed_clues story_state) in
  let current_act := default 1 (current_act story_state) in
  if bool_decide (herring_id ∈ deployed_herrings e) then false
  else
    match deploy_after_clue herring with
    | Some clue =>
        if negb (String.eqb clue "") && str_in clue revealed_clues then true
        else
          match deploy_in_act herring with
          | Some act => negb (act =? 0) && (act <=? current_act)
          | None => false
          end
    | None =>
        match deploy_in_act herring with
        | Some act => negb (act =? 0) && (act <=? current_act)
        | None => false
        end
    end.

Definition check_red_herring_deployment (e : Engine) (story_state : StoryState)
  : list RedHerring :=
  map snd (List.filter (herring_due e story_state) (red_herrings e)).

(** The calls a caller can make on one registry. *)
Inductive Call : Type :=
| CallRegisterTwist (twist : Twist)
| CallRegisterRedHerring (herring : RedHerring)
| CallCheckRevelationTiming (story_state : StoryState)
| CallGenerateForeshadowing (story_state : StoryState) (scene : string)
| CallRecordForeshadowing (twist_id : string)
| CallMarkRevealed (twist_id : string)
| CallCheckRedHerringDeployment (story_state : StoryState)
| CallMarkHerringDeployed (herring_id : string).

(** The registry after a call; the three queries leave it as it is. *)
Definition step (e : Engine) (c : Call) : Engine :=
  match c with
  | CallRegisterTwist twist => register_twist e twist
  | CallRegisterRedHerring herring => register_red_herring e herring
  | CallRecordForeshadowing twist_id => record_foreshadowing e twist_id
  | CallMarkRevealed twist_id => mark_revealed e twist_id
  | CallMarkHerringDeployed herring_id => mark_herring_deployed e herring_id
  | CallCheckRevelationTiming _ => e
  | CallGenerateForeshadowing _ _ => e
  | CallCheckRedHerringDeployment _ => e
  end.

Definition steps (e : Engine) (calls : list Call) : Engine :=
  fold_left step calls e.

(** Every registry entry is filed under its own identifier. *)
Definition keyed (e : Engine) : Prop :=
  Forall (fun kv => fst kv = twist_id (snd kv)) (twists e)
  /\ Forall (fun kv => fst kv = herring_id (snd kv)) (red_herrings e).

(** *** Sample registry *)

Definition sample_twist : Twist :=
  {| twist_id := "t1"; title := "El heredero"; description := "";
     revelation_text := "Varen es el heredero";
     required_clues := []; min_clues_for_reveal := 0;
     required_flags := []; required_act := 1;
     foreshadowing_elements :=
       [ {| scene_type := None; elem_id := Some "e1"%string;
            subtle_hint := Some "Un anillo con el sello real"%string; npc := None |} ];
     related_npcs := []; related_decisions := [];
     priority := 5; affects_ending := false |}.

Definition sample_herring : RedHerring :=
  {| herring_id := "h1"; herring_description := ""; false_conclusion := "";
     real_truth := ""; deploy_after_clue := None; deploy_in_act := Some 1;
     revelation_trigger := None |}.

Definition sample_engine : Engine :=
  register_red_herring (register_twist init sample_twist) sample_herring.

(** Act 3, critical tension: the sample twist is ready (0.3 + 0.2 + 0.2). *)
Definition sample_state : StoryState :=
  {| current_act := Some 3; revealed_clues := Some []; story_flags := Some ∅;
     tension_level := Some "critical"%string |}.

Definition sample_hint : Hint :=
  {| hint_twist_id := "t1"; hint := "Un anillo con el sello real";
     hint_priority := 2; hint_npc := None; hint_type := "foreshadow" |}.

(** *** Red herrings made from a twist *)

(** Truth value of an [Optional[str]]. *)
Definition truthy_text (o : option string) : bool :=
  match o with
  | Some s => negb (String.eqb s "")
  | None => false
  end.

Definition _generate_false_suspect (twist : Twist) : option string :=
  match related_npcs twist with
  | [] => None
  | _ => Some "Las evidencias parecen apuntar a alguien más..."%string
  end.

Definition _generate_misleading_clue (twist : Twist) : option string :=
  Some "Una pista que sugiere una conclusión diferente..."%string.

(** [create_red_herring]; [false_suspect or misleading_clue] is the first of
    the two that is truthy, and one of them is when the herring is built. *)
Definition create_red_herring (real_twist : Twist) : option RedHerring :=
  match related_npcs real_twist with
  | [] => None
  | _ =>
      let false_suspect := _generate_false_suspect real_twist in
      let misleading_clue := _generate_misleading_clue real_twist in
      if negb (truthy_text false_suspect) && negb (truthy_text misleading_clue)
      then None
      else
        Some {| herring_id := "herring_" +:+ twist_id real_twist;
                herring_description := "Pista falsa relacionada con " +:+ title real_twist;
                false_conclusion :=
                  default ""%string
                    (if truthy_text false_suspect then false_suspect else misleading_clue);
                real_truth := revelation_text real_twist;
                deploy_after_clue :=
                  match required_clues real_twist with
                  | first_clue :: _ => Some first_clue
                  | [] => None
                  end;
                deploy_in_act := None;
                revelation_trigger := None |}
  end.

(** A twist with a suspect and two clues. *)
Definition suspect_twist : Twist :=
  {| twist_id := "t2"; title := "El envenenador"; description := "";
     revelation_text := "Lyra es la envenenadora";
     required_clues := [ "vial"; "letter" ]%string; min_clues_for_reveal := 2;
     required_flags := []; required_act := 2;
     foreshadowing_elements := [];
     related_npcs := [ "lyra"%string ]; related_decisions := [];
     priority := 7; affects_ending := true |}.

Definition suspect_herring : RedHerring :=
  {| herring_id := "herring_t2";
     herring_description := "Pista falsa relacionada con El envenenador";
     false_conclusion := "Las evidencias parecen apuntar a alguien más...";
     real_truth := "Lyra es la envenenadora";
     deploy_after_clue := Some "vial"%string;
     deploy_in_act := None;
     revelation_trigger := None |}.

(** The first clue of the twist has been found. *)
Definition vial_found : StoryState :=
  {| current_act := Some 1; revealed_clues := Some [ "vial"%string ];
     story_flags := Some ∅; tension_level := None |}.

(** A twist built with the defaults of the dataclass: no required clue, two
    clues needed for the reveal. *)
Definition clueless_twist : Twist :=
  {| twist_id := "t0"; title := "Sin pistas"; description := "";
     revelation_text := ""; required_clues := []; min_clues_for_reveal := 2;
     required_flags := []; required_act := 1; foreshadowing_elements := [];
     related_npcs := []; related_decisions := []; priority := 5;
     affects_ending := false |}.

(** *** Registry invariants *)

Lemma dict_set_keyed {V : Type} (key : V -> string) (v : V) (d : list (string * V)) :
  Forall (fun kv => fst kv = key (snd kv)) d ->
  Forall (fun kv => fst kv = key (snd kv)) (dict_set (key v) v d).
Proof.
  intros H. induction H as [| [k' v'] d Hk Hd IH]; simpl.
  - now repeat constructor.
  - destruct (String.eqb (key v) k'); constructor; auto.
Qed.

Lemma step_keyed (e : Engine) (c : Call) : keyed e -> keyed (step e c).
Proof.
  intros [Ht Hh]. destruct c; simpl; try (split; assumption).
  - split; [apply (dict_set_keyed twist_id), Ht | exact Hh].
  - split; [exact Ht | apply (dict_set_keyed herring_id), Hh].
Qed.

Lemma steps_keyed (calls : list Call) (e : Engine) : keyed e -> keyed (steps e calls).
Proof.
  revert e. induction calls as [| c calls IH]; intros e He; simpl; [exact He |].
  apply IH, step_keyed, He.
Qed.

Lemma init_keyed : keyed init.
Proof. split; constructor. Qed.

(** Nothing a caller can do takes an identifier out of the two sets. *)
Lemma step_monotone (e : Engine) (c : Call) :
  revealed_twists e ⊆ revealed_twists (step e c)
  /\ deployed_herrings e ⊆ deployed_herrings (step e c).
Proof. destruct c; simpl; split; set_solver. Qed.

Lemma steps_monotone (calls : list Call) (e : Engine) :
  revealed_twists e ⊆ revealed_twists (steps e calls)
  /\ deployed_herrings e ⊆ deployed_herrings (steps e calls).
Proof.
  revert e. induction calls as [| c calls IH]; intros e; simpl.
  - split; reflexivity.
  - destruct (step_monotone e c) as [H1 H2]. destruct (IH (step e c)) as [H3 H4].
    split; etrans; eassumption.
Qed.

Lemma first_best_In (best : Twist * float) (candidates : list (Twist * float)) :
  exists c, In c (best :: candidates) /\ first_best best candidates = fst c.
Proof.
  revert best. induction candidates as [| c rest IH]; intros best; simpl.
  - exists best. auto.
  - destruct (PrimFloat.ltb (snd best) (snd c)).
    + destruct (IH c) as (c' & Hc' & E). exists c'. simpl in Hc'. tauto.
    + destruct (IH best) as (c' & Hc' & E). exists c'. simpl in Hc'. tauto.
Qed.

Lemma revelation_candidate_fresh (e : Engine) (story_state : StoryState)
  (k : string) (twist t : Twist) (r : float) :
  revelation_candidate e story_state (k, twist) = Some (t, r) ->
  t = twist /\ k ∉ revealed_twists e.
Proof.
  unfold revelation_candidate. case_bool_decide as Hk; [discriminate |].
  repeat match goal with
         | |- context [ if ?b then _ else _ ] => destruct b; try discriminate
         end.
  intros H. inversion H. auto.
Qed.

(** A returned twist is a registry entry whose key is not in the revealed set. *)
Lemma check_revelation_timing_fresh (e : Engine) (story_state : StoryState) (t : Twist) :
  check_revelation_timing e story_state = Some t ->
  exists k, In (k, t) (twists e) /\ k ∉ revealed_twists e.
Proof.
  unfold check_revelation_timing.
  destruct (omap (revelation_candidate e story_state) (twists e)) as [| c rest] eqn:E;
    [discriminate |].
  intros H. inversion H as [Ht]. clear H.
  destruct (first_best_In c rest) as ([t' r] & Hin & Hfb).
  rewrite <- E in Hin. apply list_elem_of_In, list_elem_of_omap in Hin.
  destruct Hin as ([k twist] & Hkt & Hc).
  apply revelation_candidate_fresh in Hc. destruct Hc as [-> Hk].
  exists k. split; [| exact Hk]. rewrite Hfb. simpl. now apply list_elem_of_In.
Qed.

Lemma check_red_herring_deployment_fresh (e : Engine) (story_state : StoryState)
  (h : RedHerring) :
  In h (check_red_herring_deployment e story_state) ->
  exists k, In (k, h) (red_herrings e) /\ k ∉ deployed_herrings e.
Proof.
  unfold check_red_herring_deployment. rewrite in_map_iff.
  intros ([k h'] & <- & Hin). apply filter_In in Hin. destruct Hin as [Hin Hdue].
  exists k. split; [exact Hin |].
  unfold herring_due in Hdue. case_bool_decide as Hk; [discriminate | exact Hk].
Qed.

(** C5. Starting from a fresh registry, after any calls, once
    [mark_revealed] has been called for a twist, no later
    [check_revelation_timing] returns that twist, whatever calls come in
    between; and once [mark_herring_deployed] has been called for a red
    herring, no later [check_red_herring_deployment] includes it. *)
Theorem revealed_and_deployed_are_final (before after : list Call) (marked : string)
  (story_state : StoryState) :
  (forall t,
      check_revelation_timing
        (steps (mark_revealed (steps init before) marked) after) story_state = Some t ->
      twist_id t <> marked)
  /\ (forall h,
      In h (check_red_herring_deployment
              (steps (mark_herring_deployed (steps init before) marked) after) story_state) ->
      herring_id h <> marked).
Proof.
  split.
  - intros t Ht E.
    apply check_revelation_timing_fresh in Ht. destruct Ht as (k & Hin & Hk).
    assert (Hkeyed : keyed (steps (mark_revealed (steps init before) marked) after)).
    { apply steps_keyed. apply (step_keyed _ (CallMarkRevealed marked)).
      apply steps_keyed, init_keyed. }
    destruct Hkeyed as [Hkeys _]. rewrite List.Forall_forall in Hkeys.
    specialize (Hkeys _ Hin). simpl in Hkeys. apply Hk.
    destruct (steps_monotone after (mark_revealed (steps init before) marked)) as [Hmono _].
    apply Hmono. simpl. rewrite Hkeys, E. set_solver.
  - intros h Hh E.
    apply check_red_herring_deployment_fresh in Hh. destruct Hh as (k & Hin & Hk).
    assert (Hkeyed : keyed (steps (mark_herring_deployed (steps init before) marked) after)).
    { apply steps_keyed. apply (step_keyed _ (CallMarkHerringDeployed marked)).
      apply steps_keyed, init_keyed. }
    destruct Hkeyed as [_ Hkeys]. rewrite List.Forall_forall in Hkeys.
    specialize (Hkeys _ Hin). simpl in Hkeys. apply Hk.
    destruct (steps_monotone after (mark_herring_deployed (steps init before) marked))
      as [_ Hmono].
    apply Hmono. simpl. rewrite Hkeys, E. set_solver.
Qed.

(** The sample twist is returned while unrevealed, and the sample herring
    deployed while undeployed; after the marks, neither comes back. *)
Example sample_twist_revealed_once :
  check_revelation_timing sample_engine sample_state = Some sample_twist
  /\ check_revelation_timing (mark_revealed sample_engine "t1") sample_state = None
  /\ check_red_herring_deployment sample_engine sample_state = [sample_herring]
  /\ check_red_herring_deployment (mark_herring_deployed sample_engine "h1") sample_state = [].
Proof. vm_compute. repeat split; reflexivity. Qed.

(** *** Foreshadowing *)

Lemma insert_desc_sorted (h : Hint) (l : list Hint) :
  StronglySorted (fun a b => hint_priority b <= hint_priority a) l ->
  StronglySorted (fun a b => hint_priority b <= hint_priority a) (insert_desc h l).
Proof.
  induction 1 as [| x rest Hrest IH Hx]; simpl.
  - repeat constructor.
  - destruct (Z.ltb_spec (hint_priority h) (hint_priority x)).
    + constructor; [exact IH |].
      assert (Hall : forall y, In y (insert_desc h rest) -> y = h \/ In y rest).
      { clear. induction rest as [| z rest IH]; simpl; intros y Hy.
        - destruct Hy as [Hy | []]. now left.
        - destruct (hint_priority h <? hint_priority z); simpl in Hy.
          + destruct Hy as [Hy | Hy]; [tauto | apply IH in Hy; tauto].
          + destruct Hy as [Hy | Hy]; [now left | tauto]. }
      rewrite List.Forall_forall in *. intros y Hy. apply Hall in Hy.
      destruct Hy as [-> | Hy]; [lia | auto].
    + constructor; [constructor; assumption |].
      constructor; [lia |]. rewrite List.Forall_forall in *. intros y Hy.
      specialize (Hx y Hy). lia.
Qed.

Lemma sort_desc_sorted (l : list Hint) :
  StronglySorted (fun a b => hint_priority b <= hint_priority a) (sort_desc l).
Proof.
  induction l as [| h l IH]; simpl; [constructor | apply insert_desc_sorted, IH].
Qed.

Lemma In_firstn {A : Type} (n : nat) (l : list A) (y : A) :
  In y (firstn n l) -> In y l.
Proof.
  revert n. induction l as [| x l IH]; intros [| n]; simpl; try tauto.
  intros [H | H]; [now left | right; eapply IH; exact H].
Qed.

Lemma firstn_sorted {A : Type} (R : A -> A -> Prop) (n : nat) (l : list A) :
  StronglySorted R l -> StronglySorted R (firstn n l).
Proof.
  intros H. revert n. induction H as [| x l Hl IH Hx]; intros [| n]; simpl; try constructor.
  - apply IH.
  - rewrite List.Forall_forall in *. intros y Hy. apply Hx. eapply In_firstn. exact Hy.
Qed.

(** Every call returns at most three hints, greatest priority first. *)
Lemma generate_foreshadowing_top3 (e : Engine) (story_state : StoryState) (scene : string) :
  (length (generate_foreshadowing e story_state scene) <= 3)%nat
  /\ StronglySorted (fun a b => hint_priority b <= hint_priority a)
       (generate_foreshadowing e story_state scene).
Proof.
  unfold generate_foreshadowing. split.
  - rewrite length_firstn. lia.
  - apply firstn_sorted, sort_desc_sorted.
Qed.

(** Recording under a key that is no element identifier changes nothing in
    what [generate_foreshadowing] emits: the elements already emitted are
    emitted again. *)
Lemma record_foreshadowing_no_effect (e : Engine) (key : string)
  (story_state : StoryState) (scene : string) :
  (forall k twist element,
      In (k, twist) (twists e) -> In element (foreshadowing_elements twist) ->
      k +:+ "_" +:+ default "default"%string (elem_id element) <> key) ->
  generate_foreshadowing (record_foreshadowing e key) story_state scene
  = generate_foreshadowing e story_state scene.
Proof.
  intros Hkeys. unfold generate_foreshadowing. do 2 f_equal.
  change (twists (record_foreshadowing e key)) with (twists e).
  assert (Hentry : forall entry, In entry (twists e) ->
            foreshadow_entry (record_foreshadowing e key) story_state scene entry
            = foreshadow_entry e story_state scene entry).
  { intros [k twist] Hin. unfold foreshadow_entry.
    change (revealed_twists (record_foreshadowing e key)) with (revealed_twists e).
    destruct (bool_decide (k ∈ revealed_twists e)); [reflexivity |].
    destruct (default 1 (current_act story_state) + 2 <? required_act twist); [reflexivity |].
    assert (Hel : forall element, In element (foreshadowing_elements twist) ->
              k +:+ "_" +:+ default "default"%string (elem_id element) <> key)
      by (intros element Hel; eapply Hkeys; eassumption).
    induction (foreshadowing_elements twist) as [| element elements IH]; [reflexivity |].
    cbn [flat_map]. rewrite IH by (intros el Hin'; apply Hel; now right). f_equal.
    destruct (scene_matches (scene_type element) scene); [| reflexivity].
    cbn [foreshadowed record_foreshadowing].
    rewrite lookup_insert_ne by (intros E; eapply Hel; [now left | now rewrite E]).
    reflexivity. }
  induction (twists e) as [| entry entries IH]; [reflexivity |].
  cbn [flat_map]. rewrite Hentry by now left.
  rewrite IH; [reflexivity | |].
  - intros k twist element Hin. apply Hkeys. now right.
  - intros entry' Hin. apply Hentry. now right.
Qed.

(** C6 at the failing input: the only element of the sample twist is emitted;
    the caller records the emitted hint with [record_foreshadowing], under the
    twist identifier the hint carries; the next call emits the same element
    again, and so does every later one. *)
Theorem foreshadowing_emitted_again :
  generate_foreshadowing sample_engine sample_state "narrative" = [sample_hint]
  /\ generate_foreshadowing
       (record_foreshadowing sample_engine (hint_twist_id sample_hint))
       sample_state "narrative" = [sample_hint]
  /\ generate_foreshadowing
       (record_foreshadowing
          (record_foreshadowing sample_engine (hint_twist_id sample_hint))
          (hint_twist_id sample_hint))
       sample_state "narrative" = [sample_hint].
Proof. vm_compute. repeat split; reflexivity. Qed.

(** *** What the queries return *)

Lemma In_insert_desc (h x : Hint) (l : list Hint) :
  In x (insert_desc h l) <-> x = h \/ In x l.
Proof.
  induction l as [| z l IH]; simpl; [intuition |].
  destruct (hint_priority h <? hint_priority z); simpl; rewrite ?IH; intuition.
Qed.

Lemma In_sort_desc (x : Hint) (l : list Hint) : In x (sort_desc l) <-> In x l.
Proof.
  induction l as [| h l IH]; simpl; [tauto |].
  rewrite In_insert_desc, IH. intuition.
Qed.

(** X10. [generate_foreshadowing] returns at most three hints, greatest
    priority first; every hint is built from an element, matching the scene
    type, of a registered twist that has not been marked revealed and whose
    act is at most two acts ahead. *)
Theorem generate_foreshadowing_sound (e : Engine) (story_state : StoryState) (scene : string) :
  let hints := generate_foreshadowing e story_state scene in
  (length hints <= 3)%nat
  /\ StronglySorted (fun a b => hint_priority b <= hint_priority a) hints
  /\ (forall h, In h hints ->
        hint_type h = "foreshadow"%string
        /\ (hint_twist_id h ∉ revealed_twists e)
        /\ exists twist element,
             In (hint_twist_id h, twist) (twists e)
             /\ required_act twist <= default 1 (current_act story_state) + 2
             /\ In element (foreshadowing_elements twist)
             /\ scene_matches (scene_type element) scene = true
             /\ hint h = default ""%string (subtle_hint element)
             /\ hint_npc h = npc element).
Proof.
  cbv zeta. unfold generate_foreshadowing. split; [rewrite length_firstn; lia |].
  split; [apply firstn_sorted, sort_desc_sorted |].
  intros h Hh. apply In_firstn in Hh. apply (proj1 (In_sort_desc _ _)) in Hh.
  apply in_flat_map in Hh. destruct Hh as ([k twist] & Hin & Hh).
  unfold foreshadow_entry in Hh.
  case_bool_decide as Hk; [destruct Hh |].
  destruct (Z.ltb_spec (default 1 (current_act story_state) + 2) (required_act twist));
    [destruct Hh |].
  apply in_flat_map in Hh. destruct Hh as (element & Hel & Hh).
  destruct (scene_matches (scene_type element) scene) eqn:Hscene; [| destruct Hh].
  case_bool_decide; [destruct Hh |].
  destruct Hh as [<- | []]. cbn [hint_type hint_twist_id hint hint_npc].
  split; [reflexivity |]. split; [exact Hk |].
  exists twist, element. repeat split; auto; lia.
Qed.

Lemma size_list_to_set_le (l : list string) :
  (size (list_to_set l : gset string) <= length l)%nat.
Proof.
  induction l as [| x l IH].
  - rewrite list_to_set_nil, size_empty. cbn [length]. lia.
  - rewrite list_to_set_cons, size_union_alt, size_singleton. cbn [length].
    assert (H : (size ((list_to_set l : gset string) ∖ {[x]})
                 <= size (list_to_set l : gset string))%nat)
      by (apply subseteq_size, subseteq_difference_l; reflexivity).
    lia.
Qed.

(** No more clues can be found than the twist asks for. *)
Lemma clues_found_le (twist : Twist) (revealed : list string) :
  0 <= clues_found twist revealed <= Z.of_nat (length (required_clues twist)).
Proof.
  unfold clues_found. split; [lia |]. apply inj_le.
  etrans; [| apply size_list_to_set_le]. apply subseteq_size, intersection_subseteq_l.
Qed.

(** What makes a registry entry a candidate for revelation. *)
Lemma revelation_candidate_sound (e : Engine) (story_state : StoryState)
  (k : string) (twist t : Twist) (r : float) :
  revelation_candidate e story_state (k, twist) = Some (t, r) ->
  t = twist /\ (k ∉ revealed_twists e)
  /\ required_act t <= default 1 (current_act story_state)
  /\ (forall f, In f (required_flags t) ->
        truthy (default PyNone (default ∅ (story_flags story_state) !! f)) = true)
  /\ min_clues_for_reveal t <= clues_found t (default [] (revealed_clues story_state))
  /\ r = _calculate_readiness e t
           (clues_found t (default [] (revealed_clues story_state))) story_state
           (default "normal"%string (tension_level story_state))
  /\ PrimFloat.leb 0.7 r = true.
Proof.
  unfold revelation_candidate. case_bool_decide as Hk; [discriminate |].
  destruct (Z.ltb_spec (default 1 (current_act story_state)) (required_act twist));
    [discriminate |].
  destruct (forallb _ (required_flags twist)) eqn:Hflags; cbn [negb]; [| discriminate].
  destruct (Z.ltb_spec (clues_found twist (default [] (revealed_clues story_state)))
              (min_clues_for_reveal twist)); [discriminate |].
  destruct (PrimFloat.leb 0.7 _) eqn:Hready; [| discriminate].
  intros E. inversion E; subst. repeat split; auto; try lia.
  intros f Hf. rewrite forallb_forall in Hflags. now apply Hflags.
Qed.

Lemma check_revelation_timing_candidate (e : Engine) (story_state : StoryState) (t : Twist) :
  check_revelation_timing e story_state = Some t ->
  exists k r, In (k, t) (twists e)
              /\ revelation_candidate e story_state (k, t) = Some (t, r).
Proof.
  unfold check_revelation_timing.
  destruct (omap (revelation_candidate e story_state) (twists e)) as [| c rest] eqn:E;
    [discriminate |].
  intros H. inversion H as [Ht]. clear H.
  destruct (first_best_In c rest) as ([t' r] & Hin & Hfb).
  rewrite <- E in Hin. apply list_elem_of_In, list_elem_of_omap in Hin.
  destruct Hin as ([k twist] & Hkt & Hc).
  pose proof (revelation_candidate_sound _ _ _ _ _ _ Hc) as (-> & _).
  exists k, r. rewrite Hfb. cbn [fst]. split; [now apply list_elem_of_In | exact Hc].
Qed.

(** X11. A twist returned by [check_revelation_timing] is a registered twist
    that has not been marked revealed, whose act has been reached, whose
    required flags are all set to a truthy value, of whose required clues at
    least [min_clues_for_reveal] have been revealed, and whose readiness is at
    least 0.7. *)
Theorem check_revelation_timing_sound (e : Engine) (story_state : StoryState) (t : Twist) :
  check_revelation_timing e story_state = Some t ->
  exists k,
    In (k, t) (twists e) /\ (k ∉ revealed_twists e)
    /\ required_act t <= default 1 (current_act story_state)
    /\ (forall f, In f (required_flags t) ->
          truthy (default PyNone (default ∅ (story_flags story_state) !! f)) = true)
    /\ min_clues_for_reveal t <= clues_found t (default [] (revealed_clues story_state))
    /\ PrimFloat.leb 0.7
         (_calculate_readiness e t
            (clues_found t (default [] (revealed_clues story_state))) story_state
            (default "normal"%string (tension_level story_state))) = true.
Proof.
  intros H. apply check_revelation_timing_candidate in H. destruct H as (k & r & Hin & Hc).
  apply revelation_candidate_sound in Hc.
  destruct Hc as (_ & Hk & Hact & Hflags & Hclues & -> & Hready).
  exists k. repeat split; assumption.
Qed.

Lemma check_revelation_timing_sound_witness :
  check_revelation_timing sample_engine sample_state = Some sample_twist
  /\ exists k, In (k, sample_twist) (twists sample_engine)
               /\ (k ∉ revealed_twists sample_engine).
Proof.
  assert (E : check_revelation_timing sample_engine sample_state = Some sample_twist)
    by (vm_compute; reflexivity).
  split; [exact E |].
  destruct (check_revelation_timing_sound sample_engine sample_state sample_twist E)
    as (k & Hin & Hk & _).
  exists k. split; assumption.
Defined.

(** X12. A twist that asks for more clues than it lists (as a twist built
    with the default [min_clues_for_reveal] of 2 and fewer than two required
    clues does) is never returned by [check_revelation_timing], whatever the
    registry and the story state. *)
Theorem twist_short_of_clues_never_revealed (e : Engine) (story_state : StoryState)
  (t : Twist) :
  Z.of_nat (length (required_clues t)) < min_clues_for_reveal t ->
  check_revelation_timing e story_state <> Some t.
Proof.
  intros Hshort H. apply check_revelation_timing_candidate in H.
  destruct H as (k & r & _ & Hc). apply revelation_candidate_sound in Hc.
  destruct Hc as (_ & _ & _ & _ & Hclues & _).
  pose proof (clues_found_le t (default [] (revealed_clues story_state))). lia.
Qed.

Lemma twist_short_of_clues_never_revealed_witness :
  Z.of_nat (length (required_clues clueless_twist)) < min_clues_for_reveal clueless_twist
  /\ check_revelation_timing (register_twist init clueless_twist) sample_state
     <> Some clueless_twist.
Proof.
  assert (H : Z.of_nat (length (required_clues clueless_twist))
              < min_clues_for_reveal clueless_twist) by (cbn; lia).
  split; [exact H |].
  exact (twist_short_of_clues_never_revealed (register_twist init clueless_twist)
           sample_state clueless_twist H).
Defined.

(** *** Red herrings made from a twist *)

(** X13. [create_red_herring] builds a herring exactly for a twist with
    related NPCs, under the identifier "herring_" followed by the twist's.
    Once registered, such a herring is deployed exactly while it has not been
    marked deployed and the first required clue of the twist (not the empty
    string) has been revealed; made from a twist without required clues it is
    never deployed. *)
Theorem create_red_herring_deployment (e : Engine) (story_state : StoryState)
  (real_twist : Twist) (h : RedHerring) :
  keyed e ->
  create_red_herring real_twist = Some h ->
  In (herring_id h, h) (red_herrings e) ->
  related_npcs real_twist <> []
  /\ herring_id h = "herring_" +:+ twist_id real_twist
  /\ (In h (check_red_herring_deployment e story_state) <->
      (herring_id h ∉ deployed_herrings e)
      /\ exists first_clue rest,
           required_clues real_twist = first_clue :: rest
           /\ first_clue <> ""%string
           /\ In first_clue (default [] (revealed_clues story_state)))
  /\ (required_clues real_twist = [] -> ~ In h (check_red_herring_deployment e story_state)).
Proof.
  intros [_ Hkeyed] Hcreate Hreg. unfold create_red_herring in Hcreate.
  destruct (related_npcs real_twist) as [| n ns] eqn:Hnpcs; [discriminate |].
  unfold _generate_false_suspect, _generate_misleading_clue in Hcreate.
  rewrite Hnpcs in Hcreate. cbn [truthy_text String.eqb negb andb default] in Hcreate.
  injection Hcreate as Eh. subst h.
  set (h := {| herring_id := "herring_" +:+ twist_id real_twist;
               herring_description := "Pista falsa relacionada con " +:+ title real_twist;
               false_conclusion := "Las evidencias parecen apuntar a alguien más...";
               real_truth := revelation_text real_twist;
               deploy_after_clue :=
                 match required_clues real_twist with
                 | first_clue :: _ => Some first_clue
                 | [] => None
                 end;
               deploy_in_act := None;
               revelation_trigger := None |}) in *.
  assert (Hdue : In h (check_red_herring_deployment e story_state) <->
                 herring_due e story_state (herring_id h, h) = true).
  { unfold check_red_herring_deployment. rewrite in_map_iff. split.
    - intros ([k h'] & E & Hin). cbn [snd] in E. subst h'.
      apply filter_In in Hin. destruct Hin as [Hin Hd].
      rewrite List.Forall_forall in Hkeyed. specialize (Hkeyed _ Hin). cbn [fst snd] in Hkeyed.
      now subst k.
    - intros Hd. exists (herring_id h, h). split; [reflexivity |].
      apply filter_In. split; assumption. }
  split; [discriminate |]. split; [reflexivity |]. rewrite Hdue.
  unfold herring_due. cbn [h deploy_after_clue deploy_in_act].
  split.
  - case_bool_decide as Hk.
    + split; [intros Hf; discriminate Hf | tauto].
    + destruct (required_clues real_twist) as [| c rest].
      * split; [intros Hf; discriminate Hf |].
        intros (_ & c & rest & E & _). discriminate E.
      * destruct (String.eqb_spec c "") as [-> | Hne]; cbn [negb andb].
        -- split; [intros Hf; discriminate Hf |].
           intros (_ & c & rest' & E & Hc & _). inversion E; subst. contradiction.
        -- destruct (str_in c (default [] (revealed_clues story_state))) eqn:Hin.
           ++ apply str_in_In in Hin. split; [| reflexivity].
              intros _. split; [exact Hk |]. exists c, rest. auto.
           ++ split; [intros Hf; discriminate Hf |].
              intros (_ & c' & rest' & E & _ & Hc). inversion E; subst.
              apply str_in_In in Hc. congruence.
  - intros Hnil. rewrite Hnil. case_bool_decide; intros Hf; discriminate Hf.
Qed.

Lemma create_red_herring_deployment_witness :
  keyed (register_red_herring init suspect_herring)
  /\ create_red_herring suspect_twist = Some suspect_herring
  /\ In suspect_herring
       (check_red_herring_deployment (register_red_herring init suspect_herring) vial_found).
Proof.
  assert (Hk : keyed (register_red_herring init suspect_herring))
    by (apply (step_keyed _ (CallRegisterRedHerring suspect_herring)), init_keyed).
  split; [exact Hk |]. split; [reflexivity |].
  apply (create_red_herring_deployment (register_red_herring init suspect_herring) vial_found
           suspect_twist suspect_herring Hk eq_refl).
  - now left.
  - split; [cbn; set_solver |]. exists "vial"%string, [ "letter"%string ].
    repeat split; [discriminate | now left].
Defined.

End TwistEngine.

(** ** services/story_graph.py *)

Module StoryGraph.
Import Py.

(** The arithmetic the graph computes with.  The source uses Python floats:
    the program is the instance [float_num] (binary64) of the functions
    below.  They are written over this interface so that what does not
    depend on the arithmetic is proved once, and so that the computation can
    be compared with its idealisation in exact rational arithmetic
    ([exact_num]), which is not what the program computes. *)
Class Num (F : Type) : Type := {
  zero : F;
  one : F;
  tenth : F;
  hundred : F;
  add : F -> F -> F;
  mul : F -> F -> F;
  div : F -> F -> F;
  gt : F -> F -> bool;
  round1 : F -> F
}.

(** Rounding [num / den] (with [den > 0]) to the nearest integer, ties to even. *)
Definition round_half_even (num den : Z) : Z :=
  let q := num / den in
  let r := num mod den in
  if 2 * r <? den then q
  else if den <? 2 * r then q + 1
  else if Z.even q then q else q + 1.

(** [round(x, 1)] on a float: the decimal with one digit nearest to the exact
    value of [x] (ties to even), then the float nearest to that decimal,
    which is the correctly rounded quotient of the number of tenths [n] by 10
    as long as [n] is itself a float (up to 2^53).  Beyond that, and for a
    float that is an integer, the floats lie further apart than the tenths and
    the float nearest to the decimal is [x] itself.  Infinities and NaN round
    to themselves. *)
Definition py_round1 (x : float) : float :=
  match Prim2SF x with
  | S754_finite s m e =>
      if 0 <=? e then x
      else
        let n := round_half_even (Z.pos m * 10) (2 ^ (- e)) in
        if 2 ^ 53 <? n then x
        else
          let r := (float_of_Z n / 10)%float in
          if s then (- r)%float else r
  | _ => x
  end.

(** The exact value of a finite float. *)
Definition Q_of_float (x : float) : Q :=
  match Prim2SF x with
  | S754_finite s m e =>
      let v := if 0 <=? e then inject_Z (Z.pos m * 2 ^ e)
               else (Z.pos m # Z.to_pos (2 ^ (- e))) in
      if s then Qopp v else v
  | _ => 0%Q
  end.

#[export] Instance float_num : Num float := {
  zero := 0%float;
  one := 1%float;
  tenth := 0.1%float;
  hundred := 100%float;
  add := PrimFloat.add;
  mul := PrimFloat.mul;
  div := PrimFloat.div;
  gt := fun a b => PrimFloat.ltb b a;
  round1 := py_round1
}.

(** [round(x, 1)] in exact arithmetic. *)
Definition Qround1 (x : Q) : Q :=
  let y := (x * 10)%Q in
  inject_Z (round_half_even (Qnum y) (Z.pos (Qden y))) / 10.

#[export] Instance exact_num : Num Q := {
  zero := 0%Q;
  one := 1%Q;
  tenth := (1 # 10)%Q;
  hundred := 100%Q;
  add := Qplus;
  mul := Qmult;
  div := Qdiv;
  gt := fun a b => negb (Qle_bool a b);
  round1 := Qround1
}.

(** The exceptions that the other graph queries can let escape: networkx's
    own for a node that is not in the graph, a failed dictionary access, and
    what the path enumeration raises. *)
Inductive GraphExn : Type :=
| NetworkXError (msg : string)
| KeyError (key : string)
| PathExn (e : Exn).

Inductive Outcome (A : Type) : Type :=
| Returns (a : A)
| Raises (e : GraphExn).
Arguments Returns {A} a.
Arguments Raises {A} e.

(** The literal 0.5, the probability of a branch that names none. *)
Class Half (F : Type) : Type := half : F.

#[export] Instance float_half : Half float := 0.5%float.

#[export] Instance exact_half : Half Q := (1 # 2)%Q.

(** [s.split(":")] *)
Fixpoint split_colon (s : string) : list string :=
  match s with
  | EmptyString => [EmptyString]
  | String c s' =>
      if Ascii.eqb c ":" then EmptyString :: split_colon s'
      else match split_colon s' with
           | [] => [String c EmptyString]
           | part :: parts => String c part :: parts
           end
  end.

(** [set(s)] for a string: its characters. *)
Fixpoint chars (s : string) : list string :=
  match s with
  | EmptyString => []
  | String c s' => String c EmptyString :: chars s'
  end.

Section Graph.

Context {F : Type} {N : Num F}.

(** [all_simple_paths] yields the one-node path [[source]] when the source is
    itself the target in networkx 3.2 and later, and yields nothing for it in
    earlier releases; the flag selects the behaviour. *)
Variable nx_trivial_path : bool.

Record StoryNode : Type := {
  node_id : string;
  node_type : string;
  title : string;
  act : Z;
  chapter : Z;
  scene : Z
}.

Record StoryEdge : Type := {
  from_node : string;
  to_node : string;
  condition : option string;
  probability : F;
  label : option string
}.

(** The attributes networkx keeps for an edge. *)
Record EdgeData : Type := {
  edge_condition : option string;
  edge_probability : F;
  edge_label : option string
}.

(** A [StoryGraph]: the nodes and the edges of [self.graph] in insertion
    order (a node created by [add_edge] alone has no attributes), and the two
    sets.  The opaque [data] payload of a node is left out. *)
Record Graph : Type := {
  nodes : list (string * option StoryNode);
  edges : list ((string * string) * EdgeData);
  _endings : list string;
  _decision_points : list string
}.

(** [StoryGraph()] *)
Definition empty : Graph :=
  {| nodes := []; edges := []; _endings := []; _decision_points := [] |}.

Definition has_node (g : Graph) (n : string) : bool :=
  str_in n (map fst (nodes g)).

(** [s.add(x)] on a set kept as a duplicate-free list.  A Python set
    iterates in an order of its own; the list fixes one order, and no
    statement below depends on which. *)
Definition set_add (x : string) (s : list string) : list string :=
  if str_in x s then s else s ++ [x].

(** [G.add_node(n, **attrs)]: attributes of an existing node are replaced. *)
Fixpoint put_node (n : string) (attrs : option StoryNode)
  (l : list (string * option StoryNode)) : list (string * option StoryNode) :=
  match l with
  | [] => [(n, attrs)]
  | (n', a') :: l' =>
      if String.eqb n n' then (n, attrs) :: l' else (n', a') :: put_node n attrs l'
  end.

(** A node that [G.add_edge] has to create. *)
Definition touch_node (n : string) (l : list (string * option StoryNode))
  : list (string * option StoryNode) :=
  if str_in n (map fst l) then l else l ++ [(n, None)].

Fixpoint put_edge (u v : string) (d : EdgeData) (l : list ((string * string) * EdgeData))
  : list ((string * string) * EdgeData) :=
  match l with
  | [] => [((u, v), d)]
  | ((u', v'), d') :: l' =>
      if String.eqb u u' && String.eqb v v' then ((u, v), d) :: l'
      else ((u', v'), d') :: put_edge u v d l'
  end.

Definition add_node (g : Graph) (node : StoryNode) : Graph :=
  {| nodes := put_node (node_id node) (Some node) (nodes g);
     edges := edges g;
     _endings :=
       (if String.eqb (node_type node) "ending" then set_add (node_id node) (_endings g)
        else _endings g);
     _decision_points :=
       (if String.eqb (node_type node) "ending" then _decision_points g
        else if String.eqb (node_type node) "decision"
             then set_add (node_id node) (_decision_points g)
             else _decision_points g) |}.

Definition add_edge (g : Graph) (edge : StoryEdge) : Graph :=
  {| nodes := touch_node (to_node edge) (touch_node (from_node edge) (nodes g));
     edges :=
       put_edge (from_node edge) (to_node edge)
         {| edge_condition := condition edge;
            edge_probability := probability edge;
            edge_label := label edge |}
         (edges g);
     _endings := _endings g;
     _decision_points := _decision_points g |}.

(** [G.successors(u)], in the order the edges were added. *)
Definition successors (g : Graph) (u : string) : list string :=
  map (fun e => snd (fst e)) (List.filter (fun e => String.eqb (fst (fst e)) u) (edges g)).

(** [G.edges.get((u, v))] *)
Fixpoint get_edge (l : list ((string * string) * EdgeData)) (u v : string)
  : option EdgeData :=
  match l with
  | [] => None
  | ((u', v'), d) :: l' =>
      if String.eqb u u' && String.eqb v v' then Some d else get_edge l' u v
  end.

(** Whether some target is neither on the path nor the node just reached:
    [targets - current_path.keys() - {next_node}] is not empty. *)
Definition targets_left (targets path_rev : list string) : bool :=
  existsb (fun t => negb (str_in t path_rev)) targets.

(** The depth-first enumeration of [all_simple_paths]: [path_rev] is the
    current path, last node first; [fuel] is what remains of the cutoff
    [len(G) - 1].  A child already on the path is skipped; a child that is a
    target yields the path to it; the search continues below a child while
    some target is still off the path. *)
Fixpoint dfs (g : Graph) (targets : list string) (fuel : nat) (path_rev : list string)
  : list (list string) :=
  match fuel, path_rev with
  | S fuel', cur :: _ =>
      flat_map
        (fun child =>
           if str_in child path_rev then []
           else
             (if str_in child targets then [rev (child :: path_rev)] else [])
             ++ (if targets_left targets (child :: path_rev)
                 then dfs g targets fuel' (child :: path_rev)
                 else []))
        (successors g cur)
  | _, _ => []
  end.

(** [list(nx.all_simple_paths(G, source, target))].  A source outside the
    graph raises [NodeNotFound]; a target outside the graph is read as a set
    of targets, which for a string is the set of its characters. *)
Definition all_simple_paths (g : Graph) (source target : string)
  : Result (list (list string)) :=
  if negb (has_node g source)
  then Raise (NodeNotFound ("source node " +:+ source +:+ " not in graph"))
  else
    let targets := if has_node g target then [target] else chars target in
    let cutoff := (length (nodes g) - 1)%nat in
    Ok ((if nx_trivial_path && str_in source targets then [[source]] else [])
        ++ (if targets_left targets [source] then dfs g targets cutoff [source] else [])).

(** The loop of [find_paths_to_endings] over [self._endings]. *)
Fixpoint paths_to (g : Graph) (from_node : string) (endings : list string)
  : Result (list (string * list (list string))) :=
  match endings with
  | [] => Ok []
  | ending_id :: rest =>
      do paths <- all_simple_paths g from_node ending_id;
      do paths_by_ending <- paths_to g from_node rest;
      Ok (match paths with
          | [] => paths_by_ending
          | _ => (ending_id, paths) :: paths_by_ending
          end)
  end.

Definition find_paths_to_endings (g : Graph) (from_node : string)
  : Result (list (string * list (list string))) :=
  paths_to g from_node (_endings g).

Definition _check_condition (condition : string) (decisions_made : gmap string string)
  (story_flags : gmap string PyVal) : bool :=
  match split_colon condition with
  | [flag_name; expected] =>
      let actual := default PyNone (story_flags !! flag_name) in
      if String.eqb (lower expected) "true" then truthy actual
      else if String.eqb (lower expected) "false" then negb (truthy actual)
           else String.eqb (py_str actual) expected
  | [kind; decision_code; expected_option] =>
      if String.eqb kind "decision"
      then match decisions_made !! decision_code with
           | Some actual_option => String.eqb actual_option expected_option
           | None => false
           end
      else true
  | _ => true
  end.

(** The loop of [_calculate_path_weight] over the consecutive pairs of [path]. *)
Fixpoint weigh (g : Graph) (path : list string) (decisions_made : gmap string string)
  (story_flags : gmap string PyVal) (weight : F) : F :=
  match path with
  | from_node :: ((to_node :: _) as rest) =>
      let edge_data := get_edge (edges g) from_node to_node in
      let condition := match edge_data with Some d => edge_condition d | None => None end in
      let base_prob := match edge_data with Some d => edge_probability d | None => one end in
      let weight := mul weight base_prob in
      let weight :=
        match condition with
        | Some c =>
            if negb (String.eqb c "") && negb (_check_condition c decisions_made story_flags)
            then mul weight tenth else weight
        | None => weight
        end in
      weigh g rest decisions_made story_flags weight
  | _ => weight
  end.

Definition _calculate_path_weight (g : Graph) (path : list string)
  (decisions_made : gmap string string) (story_flags : gmap string PyVal) : F :=
  weigh g path decisions_made story_flags one.

(** [max(path_weights) if path_weights else 0.0] *)
Definition best_weight (path_weights : list F) : F :=
  match path_weights with
  | [] => zero
  | w :: ws => fold_left (fun best x => if gt x best then x else best) ws w
  end.

(** The first loop of [calculate_ending_probabilities]: the weight of every
    ending, in order. *)
Definition ending_weights (g : Graph) (paths_by_ending : list (string * list (list string)))
  (decisions_made : gmap string string) (story_flags : gmap string PyVal)
  : list (string * F) :=
  map (fun '(ending_id, paths) =>
         (ending_id,
          best_weight (map (fun path => _calculate_path_weight g path decisions_made story_flags)
                         paths)))
    paths_by_ending.

(** [total_weight], accumulated in the same order. *)
Definition total_of (probabilities : list (string * F)) : F :=
  fold_left (fun total p => add total (snd p)) probabilities zero.

Definition calculate_ending_probabilities (g : Graph) (current_node : string)
  (decisions_made : gmap string string) (story_flags : gmap string PyVal)
  : Result (list (string * F)) :=
  do paths_by_ending <- find_paths_to_endings g current_node;
  match paths_by_ending with
  | [] => Ok []
  | _ =>
      let probabilities := ending_weights g paths_by_ending decisions_made story_flags in
      let total_weight := total_of probabilities in
      if gt total_weight zero
      then Ok (map (fun '(ending_id, p) =>
                      (ending_id, round1 (mul (div p total_weight) hundred)))
                 probabilities)
      else Ok probabilities
  end.

(** *** The other queries *)

(** [get_node]: the attributes of a node ([None] inside for a node that
    [add_edge] created), or [None] for a node that is not in the graph. *)
Definition get_node (g : Graph) (node_id : string) : option (option StoryNode) :=
  dict_get node_id (nodes g).

(** [detect_dead_ends]: the nodes, in the order of the graph, that are no
    endings and have no outgoing edge. *)
Definition detect_dead_ends (g : Graph) : list string :=
  List.filter
    (fun node_id =>
       negb (str_in node_id (_endings g)) && (length (successors g node_id) =? 0)%nat)
    (map fst (nodes g)).

(** One entry of [get_decision_points_ahead]; the [data] payload is left out. *)
Record DecisionPoint : Type := {
  dp_node_id : string;
  dp_title : option string;
  dp_depth : Z
}.

(** The closure [explore] of [get_decision_points_ahead], with its two
    captured variables [visited] and [decision_points] as state.  [fuel]
    bounds the recursion, which the depth test stops after
    [max_depth + 1] nested calls. *)
Fixpoint explore (g : Graph) (max_depth : Z) (fuel : nat) (node_id : string) (depth : Z)
  (state : gset string * list DecisionPoint)
  : Outcome (gset string * list DecisionPoint) :=
  let '(visited, decision_points) := state in
  if (max_depth <? depth) || bool_decide (node_id ∈ visited) then Returns state
  else
    match fuel with
    | O => Returns state
    | S fuel' =>
        let visited := {[node_id]} ∪ visited in
        let found :=
          if str_in node_id (_decision_points g)
          then match dict_get node_id (nodes g) with
               | Some node_data =>
                   Returns (decision_points
                            ++ [ {| dp_node_id := node_id;
                                    dp_title := option_map title node_data;
                                    dp_depth := depth |} ])
               | None => Raises (KeyError node_id)
               end
          else Returns decision_points in
        match found with
        | Raises e => Raises e
        | Returns decision_points =>
            if has_node g node_id
            then
              fold_left
                (fun acc succ_id =>
                   match acc with
                   | Returns st => explore g max_depth fuel' succ_id (depth + 1) st
                   | Raises e => Raises e
                   end)
                (successors g node_id) (Returns (visited, decision_points))
            else Raises (NetworkXError ("The node " +:+ node_id +:+ " is not in the digraph."))
        end
    end.

Definition get_decision_points_ahead (g : Graph) (current_node : string) (max_depth : Z)
  : Outcome (list DecisionPoint) :=
  match explore g max_depth (Z.to_nat (max_depth + 1)) current_node 0 (∅, []) with
  | Returns st => Returns (snd st)
  | Raises e => Raises e
  end.

(** One entry of [get_successors]. *)
Record Successor : Type := {
  succ_node_id : string;
  succ_node_type : option string;
  succ_title : option string;
  succ_condition : option string;
  succ_probability : F
}.

(** The loop of [get_successors]: [self.graph.edges[node_id, succ_id]] and
    [self.graph.nodes[succ_id]] are dictionary accesses. *)
Fixpoint successor_entries (g : Graph) (node_id : string) (succ_ids : list string)
  : Outcome (list Successor) :=
  match succ_ids with
  | [] => Returns []
  | succ_id :: rest =>
      match get_edge (edges g) node_id succ_id, dict_get succ_id (nodes g) with
      | Some edge_data, Some node_data =>
          match successor_entries g node_id rest with
          | Returns entries =>
              Returns ({| succ_node_id := succ_id;
                          succ_node_type := option_map node_type node_data;
                          succ_title := option_map title node_data;
                          succ_condition := edge_condition edge_data;
                          succ_probability := edge_probability edge_data |} :: entries)
          | Raises e => Raises e
          end
      | _, _ => Raises (KeyError succ_id)
      end
  end.

Definition get_successors (g : Graph) (node_id : string) : Outcome (list Successor) :=
  if has_node g node_id
  then successor_entries g node_id (successors g node_id)
  else Raises (NetworkXError ("The node " +:+ node_id +:+ " is not in the digraph.")).

(** The dictionary [get_branch_analysis] returns. *)
Record BranchAnalysis : Type := {
  analysis_node_id : string;
  branch_count : Z;
  branches : list Successor;
  has_conditional_branches : bool;
  endings_reachable : list string
}.

Definition get_branch_analysis (g : Graph) (node_id : string) : Outcome BranchAnalysis :=
  match get_successors g node_id with
  | Raises e => Raises e
  | Returns successors =>
      match find_paths_to_endings g node_id with
      | Raise e => Raises (PathExn e)
      | Ok paths_by_ending =>
          Returns {| analysis_node_id := node_id;
                     branch_count := Z.of_nat (length successors);
                     branches := successors;
                     has_conditional_branches :=
                       existsb (fun s => match succ_condition s with
                                         | Some c => negb (String.eqb c "")
                                         | None => false
                                         end) successors;
                     endings_reachable := map fst paths_by_ending |}
      end
  end.

(** *** Reachability and the path enumeration *)

Definition edge (g : Graph) (u v : string) : Prop := In v (successors g u).

Inductive reachable (g : Graph) : string -> string -> Prop :=
| reachable_here (a : string) : reachable g a a
| reachable_step (a b c : string) : edge g a b -> reachable g b c -> reachable g a c.

(** What the path enumeration of the installed networkx counts as reaching
    [b] from [a]: a directed path to another node, or the node itself when
    the one-node path is yielded. *)
Definition nx_reaches (g : Graph) (a b : string) : Prop :=
  (a = b /\ nx_trivial_path = true) \/ (a <> b /\ reachable g a b).

(** [u -> p1 -> p2 -> ...] follows edges of the graph. *)
Fixpoint chain (g : Graph) (u : string) (p : list string) : Prop :=
  match p with
  | [] => True
  | v :: p' => edge g u v /\ chain g v p'
  end.

(** The invariant of a [StoryGraph]: the endings are a set of nodes of the
    graph, and every edge joins two nodes of the graph. *)
Definition wf (g : Graph) : Prop :=
  List.NoDup (_endings g)
  /\ (forall e, In e (_endings g) -> has_node g e = true)
  /\ (forall u v d, In ((u, v), d) (edges g) -> has_node g u = true /\ has_node g v = true).

(** A path without repetition from [s] to another node [t], along edges. *)
Definition simple_path (g : Graph) (s t : string) (p : list string) : Prop :=
  exists q, p = s :: q ++ [t] /\ chain g s (q ++ [t]) /\ List.NoDup p.

(** [v] is reached from [u] by following exactly [n] edges. *)
Fixpoint steps_to (g : Graph) (n : nat) (u v : string) : Prop :=
  match n with
  | O => u = v
  | S n' => exists w, edge g u w /\ steps_to g n' w v
  end.

(** The decision points are nodes of the graph, as [add_node] leaves them. *)
Definition decisions_are_nodes (g : Graph) : Prop :=
  forall d, In d (_decision_points g) -> has_node g d = true.

(** A string without a colon. *)
Definition no_colon (s : string) : Prop :=
  forallb (fun c => negb (Ascii.eqb c ":")) (list_ascii_of_string s) = true.

Lemma str_in_false (x : string) (l : list string) : str_in x l = false <-> ~ In x l.
Proof.
  rewrite <- str_in_In. destruct (str_in x l); split; intros; congruence.
Qed.

Lemma edge_in_edges (g : Graph) (u v : string) :
  edge g u v <-> exists d, In ((u, v), d) (edges g).
Proof.
  unfold edge, successors. rewrite in_map_iff. split.
  - intros ([[u' v'] d] & <- & H). apply filter_In in H. destruct H as [H E].
    simpl in E. apply String.eqb_eq in E. subst. now exists d.
  - intros (d & H). exists ((u, v), d). split; [reflexivity |].
    apply filter_In. split; [exact H | apply String.eqb_refl].
Qed.

Lemma chain_app (g : Graph) (u : string) (p q : list string) (v : string) :
  chain g u (p ++ v :: q) -> chain g v q.
Proof.
  revert u. induction p as [| w p IH]; intros u; simpl.
  - tauto.
  - intros [_ H]. eapply IH; exact H.
Qed.

Lemma reachable_chain (g : Graph) (a b : string) :
  reachable g a b <-> a = b \/ exists q, chain g a (q ++ [b]).
Proof.
  split.
  - induction 1 as [a | a b c Hab _ IH].
    + now left.
    + right. destruct IH as [-> | (q & Hq)].
      * exists []. simpl. auto.
      * exists (b :: q). simpl. auto.
  - intros [-> | (q & Hq)]; [constructor |].
    revert a Hq. induction q as [| v q IH]; intros a; simpl.
    + intros [H _]. econstructor; [exact H | constructor].
    + intros [H Hq]. econstructor; [exact H | apply IH, Hq].
Qed.

(** A path between two different nodes can be taken without repetition. *)
Lemma chain_simple (g : Graph) (q : list string) (a b : string) :
  a <> b -> chain g a (q ++ [b]) ->
  exists q', chain g a (q' ++ [b]) /\ List.NoDup (a :: q' ++ [b]).
Proof.
  revert a. induction q as [| v q IH]; intros a Hab; simpl.
  - intros H. exists []. simpl. split; [exact H |].
    constructor; [simpl; intuition congruence | constructor; [simpl; tauto | constructor]].
  - intros [Hav Hq]. destruct (string_dec v b) as [-> | Hvb].
    + exists []. simpl. split; [auto |].
      constructor; [simpl; intuition congruence | constructor; [simpl; tauto | constructor]].
    + destruct (IH v Hvb Hq) as (q1 & Hq1 & Hnd).
      destruct (in_dec string_dec a (v :: q1)) as [Hin | Hnin].
      * apply in_split in Hin. destruct Hin as (l1 & l2 & E).
        assert (EE : l1 ++ a :: l2 ++ [b] = v :: q1 ++ [b]).
        { change (v :: q1 ++ [b]) with ((v :: q1) ++ [b]).
          rewrite E, <- List.app_assoc. reflexivity. }
        exists l2. split.
        -- apply (chain_app g a l1 (l2 ++ [b]) a). rewrite EE. simpl. auto.
        -- apply (List.NoDup_app_remove_l l1). rewrite EE. exact Hnd.
      * exists (v :: q1). simpl. split; [auto |].
        constructor; [| exact Hnd].
        simpl. intros [H | H]; [apply Hnin; now left |].
        apply in_app_iff in H. destruct H as [H | H].
        -- apply Hnin. now right.
        -- simpl in H. intuition congruence.
Qed.

(** Everything the enumeration yields is the current path followed by edges
    of the graph to a target. *)
Lemma dfs_sound (g : Graph) (targets : list string) (fuel : nat) :
  forall (path_rev p : list string),
    In p (dfs g targets fuel path_rev) ->
    exists cur rest q t,
      path_rev = cur :: rest /\ p = rev path_rev ++ q ++ [t]
      /\ chain g cur (q ++ [t]) /\ In t targets.
Proof.
  induction fuel as [| fuel IH]; intros path_rev p; simpl; [tauto |].
  destruct path_rev as [| cur rest]; [simpl; tauto |].
  rewrite in_flat_map. intros (child & Hchild & Hp).
  destruct (str_in child (cur :: rest)); [destruct Hp |].
  apply in_app_iff in Hp. destruct Hp as [Hp | Hp].
  - destruct (str_in child targets) eqn:Ht; [| destruct Hp].
    destruct Hp as [<- | []]. apply str_in_In in Ht.
    exists cur; exists rest; exists (@nil string); exists child. simpl. repeat split; auto.
  - destruct (targets_left targets (child :: cur :: rest)); [| destruct Hp].
    apply IH in Hp. destruct Hp as (cur' & rest' & q & t & E & -> & Hc & Ht).
    injection E as <- <-.
    exists cur; exists rest; exists (child :: q); exists t.
    repeat split; auto.
    simpl. rewrite <- !List.app_assoc. reflexivity.
Qed.

(** Every path without repetition to the target is yielded, given enough
    fuel for its length. *)
Lemma dfs_complete (g : Graph) (t : string) (q : list string) :
  forall (fuel : nat) (cur : string) (rest : list string),
    chain g cur (q ++ [t]) ->
    List.NoDup (rev (cur :: rest) ++ q ++ [t]) ->
    (length q < fuel)%nat ->
    In (rev (cur :: rest) ++ q ++ [t]) (dfs g [t] fuel (cur :: rest)).
Proof.
  induction q as [| v q IH]; intros fuel cur rest Hc Hnd Hfuel;
    (destruct fuel as [| fuel]; [simpl in Hfuel; lia |]).
  - simpl in Hc. destruct Hc as [Hedge _].
    cbn [dfs]. rewrite in_flat_map. exists t. split; [exact Hedge |].
    assert (Hnin : str_in t (cur :: rest) = false).
    { apply str_in_false. intros Hin. apply List.NoDup_remove_2 in Hnd.
      apply Hnd. rewrite List.app_nil_r. apply in_rev in Hin. exact Hin. }
    rewrite Hnin. apply in_app_iff. left.
    assert (Ht : str_in t [t] = true) by (apply str_in_In; now left).
    rewrite Ht. left. reflexivity.
  - simpl in Hc. destruct Hc as [Hedge Hc].
    cbn [dfs]. rewrite in_flat_map. exists v. split; [exact Hedge |].
    assert (Hv : str_in v (cur :: rest) = false).
    { apply str_in_false. intros Hin. apply List.NoDup_remove_2 in Hnd.
      apply Hnd. apply in_app_iff. left. apply in_rev in Hin. exact Hin. }
    rewrite Hv. apply in_app_iff. right.
    assert (Hnd' : List.NoDup (rev (v :: cur :: rest) ++ q ++ [t])).
    { change (rev (v :: cur :: rest)) with (rev (cur :: rest) ++ [v]).
      rewrite <- List.app_assoc. exact Hnd. }
    assert (Hleft : targets_left [t] (v :: cur :: rest) = true).
    { unfold targets_left. cbn [existsb]. rewrite orb_false_r. apply negb_true_iff.
      apply str_in_false. intros Hin.
      assert (Ht : In t (rev (v :: cur :: rest))) by (apply in_rev in Hin; exact Hin).
      clear Hin. revert Hnd' Ht. generalize (rev (v :: cur :: rest)). intros l Hl Ht.
      rewrite List.app_assoc in Hl. apply List.NoDup_remove_2 in Hl.
      apply Hl. rewrite List.app_nil_r. apply in_app_iff. now left. }
    rewrite Hleft.
    replace (rev (cur :: rest) ++ (v :: q) ++ [t]) with (rev (v :: cur :: rest) ++ q ++ [t]).
    + apply IH; [exact Hc | exact Hnd' | simpl in Hfuel; lia].
    + change (rev (v :: cur :: rest)) with (rev (cur :: rest) ++ [v]).
      rewrite <- List.app_assoc. reflexivity.
Qed.

Lemma chain_nodes (g : Graph) (p : list string) (u : string) :
  wf g -> chain g u p -> forall x, In x p -> has_node g x = true.
Proof.
  intros (_ & _ & Hedges). revert u. induction p as [| v p IH]; intros u; simpl; [tauto |].
  intros [Huv Hp] x [<- | Hx].
  - apply edge_in_edges in Huv. destruct Huv as (d & Hd). apply (Hedges _ _ _ Hd).
  - eapply IH; eassumption.
Qed.

(** On nodes of a well-formed graph, the enumeration is total and yields a
    path exactly when the target is reached. *)
Lemma all_simple_paths_reaches (g : Graph) (s t : string) :
  wf g -> has_node g s = true -> has_node g t = true ->
  exists ps, all_simple_paths g s t = Ok ps /\ (ps <> [] <-> nx_reaches g s t).
Proof.
  intros Hwf Hs Ht. unfold all_simple_paths. rewrite Hs, Ht. cbn [negb].
  eexists. split; [reflexivity |].
  unfold targets_left, nx_reaches. cbn [existsb]. rewrite orb_false_r.
  destruct (string_dec s t) as [<- | Hne].
  - assert (E : str_in s [s] = true) by (apply str_in_In; now left).
    rewrite E. cbn [negb]. rewrite andb_true_r, List.app_nil_r.
    destruct nx_trivial_path; split; intros H; try congruence; try (now left).
    destruct H as [[_ H] | [H _]]; congruence.
  - assert (E1 : str_in s [t] = false).
    { apply str_in_false. simpl. intuition congruence. }
    assert (E2 : str_in t [s] = false).
    { apply str_in_false. simpl. intuition congruence. }
    rewrite E1, E2, andb_false_r. cbn [negb app]. split.
    + intros H. right. split; [exact Hne |].
      destruct (dfs g [t] (length (nodes g) - 1) [s]) as [| p ps] eqn:Hd; [congruence |].
      assert (Hp : In p (dfs g [t] (length (nodes g) - 1) [s])) by (rewrite Hd; now left).
      apply dfs_sound in Hp. destruct Hp as (cur & rest & q & t' & E & _ & Hc & Ht').
      injection E as <- <-. destruct Ht' as [<- | []].
      apply reachable_chain. right. now exists q.
    + intros [[H _] | [_ H]]; [congruence |].
      apply reachable_chain in H. destruct H as [H | (q & Hq)]; [congruence |].
      apply chain_simple in Hq; [| exact Hne]. destruct Hq as (q' & Hq' & Hnd).
      assert (Hlen : (length (s :: q' ++ [t]) <= length (map fst (nodes g)))%nat).
      { apply List.NoDup_incl_length; [exact Hnd |].
        intros x [<- | Hx].
        - apply str_in_In. exact Hs.
        - apply str_in_In. eapply chain_nodes; eassumption. }
      rewrite length_map in Hlen. simpl in Hlen. rewrite length_app in Hlen. simpl in Hlen.
      pose proof (dfs_complete g t q' (length (nodes g) - 1) s [] Hq' Hnd) as Hin.
      intros E. rewrite E in Hin. apply Hin. lia.
Qed.

Lemma all_simple_paths_absent (g : Graph) (s t : string) :
  has_node g s = false ->
  all_simple_paths g s t = Raise (NodeNotFound ("source node " +:+ s +:+ " not in graph")).
Proof. intros H. unfold all_simple_paths. now rewrite H. Qed.

(** The endings that [find_paths_to_endings] keeps are those reached, in the
    order of the set, each with at least one path. *)
Lemma paths_to_spec (g : Graph) (s : string) (endings : list string) :
  wf g -> has_node g s = true ->
  (forall e, In e endings -> has_node g e = true) ->
  exists l,
    paths_to g s endings = Ok l
    /\ (forall e, In e (map fst l) <-> In e endings /\ nx_reaches g s e)
    /\ (forall e ps, In (e, ps) l -> ps <> [])
    /\ (List.NoDup endings -> List.NoDup (map fst l)).
Proof.
  intros Hwf Hs. induction endings as [| e endings IH]; intros Hnodes.
  - exists []. simpl. repeat split; try tauto; try constructor.
  - destruct IH as (l & El & Hkeys & Hne & Hnd).
    { intros x Hx. apply Hnodes. now right. }
    destruct (all_simple_paths_reaches g s e Hwf Hs) as (ps & Eps & Hps).
    { apply Hnodes. now left. }
    cbn [paths_to]. rewrite Eps. cbn [bind]. rewrite El. cbn [bind].
    eexists. split; [reflexivity |].
    destruct ps as [| p ps].
    + split; [| split].
      * intros x. rewrite Hkeys. simpl. split; [tauto |].
        intros [[<- | Hx] Hr]; [| tauto]. apply Hps in Hr. congruence.
      * exact Hne.
      * intros Hd. apply Hnd. now inversion Hd.
    + split; [| split].
      * intros x. simpl. rewrite Hkeys. split.
        -- intros [<- | [Hx Hr]]; [| tauto]. split; [now left |]. apply Hps. discriminate.
        -- intros [[<- | Hx] Hr]; tauto.
      * intros x qs [E | Hin]; [inversion E; discriminate | eapply Hne; exact Hin].
      * intros Hd. inversion Hd as [| ? ? Hnin Hd']; subst. simpl.
        constructor; [| apply Hnd, Hd']. rewrite Hkeys. tauto.
Qed.

Lemma ending_weights_keys (g : Graph) (l : list (string * list (list string)))
  (dm : gmap string string) (fl : gmap string PyVal) :
  map fst (ending_weights g l dm fl) = map fst l.
Proof.
  unfold ending_weights. rewrite map_map. apply map_ext. now intros [e ps].
Qed.

(** The result of [calculate_ending_probabilities] has one entry per ending
    kept by [find_paths_to_endings], in the same order. *)
Lemma calculate_keys (g : Graph) (cur : string) (dm : gmap string string)
  (fl : gmap string PyVal) (l : list (string * list (list string))) :
  find_paths_to_endings g cur = Ok l ->
  exists probs,
    calculate_ending_probabilities g cur dm fl = Ok probs /\ map fst probs = map fst l.
Proof.
  intros El. unfold calculate_ending_probabilities. rewrite El. cbn [bind].
  destruct l as [| x l]; [now exists [] |].
  destruct (gt (total_of (ending_weights g (x :: l) dm fl)) zero).
  - eexists. split; [reflexivity |].
    rewrite map_map, <- (ending_weights_keys g (x :: l) dm fl).
    apply map_ext. now intros [e w].
  - eexists. split; [reflexivity | apply ending_weights_keys].
Qed.

(** The endings of the result are exactly the endings reached from the
    current node; in particular the result is empty exactly when none is. *)
Lemma ending_probabilities_keys (g : Graph) (cur : string) (dm : gmap string string)
  (fl : gmap string PyVal) :
  wf g -> has_node g cur = true ->
  exists probs,
    calculate_ending_probabilities g cur dm fl = Ok probs
    /\ (forall e, In e (map fst probs) <-> In e (_endings g) /\ nx_reaches g cur e)
    /\ List.NoDup (map fst probs)
    /\ (probs = [] <-> ~ exists e, In e (_endings g) /\ nx_reaches g cur e).
Proof.
  intros Hwf Hcur.
  destruct (paths_to_spec g cur (_endings g) Hwf Hcur) as (l & El & Hkeys & _ & Hnd).
  { apply Hwf. }
  destruct (calculate_keys g cur dm fl l El) as (probs & Ep & Ek).
  exists probs. split; [exact Ep |]. rewrite Ek.
  split; [exact Hkeys |]. split; [apply Hnd, Hwf |]. split.
  - intros -> (e & He). apply Hkeys in He. simpl in Ek. rewrite <- Ek in He. destruct He.
  - intros Hnone. destruct probs as [| [e w] probs]; [reflexivity |].
    exfalso. apply Hnone. exists e. apply Hkeys. rewrite <- Ek. now left.
Qed.

(** When the current node is not a node of the graph, the first ending tried
    raises; with no ending to try, nothing raises. *)
Lemma paths_to_absent (g : Graph) (s : string) (endings : list string) :
  has_node g s = false ->
  paths_to g s endings =
  match endings with
  | [] => Ok []
  | _ => Raise (NodeNotFound ("source node " +:+ s +:+ " not in graph"))
  end.
Proof.
  intros H. destruct endings as [| e endings]; [reflexivity |].
  cbn [paths_to]. now rewrite all_simple_paths_absent.
Qed.

(** *** The invariant is kept by construction *)

Lemma has_node_put_node (n x : string) (a : option StoryNode)
  (l : list (string * option StoryNode)) :
  In x (map fst (put_node n a l)) <-> x = n \/ In x (map fst l).
Proof.
  induction l as [| [n' a'] l IH]; simpl.
  - intuition.
  - destruct (String.eqb_spec n n'); simpl.
    + subst. intuition.
    + rewrite IH. intuition.
Qed.

Lemma has_node_touch_node (n x : string) (l : list (string * option StoryNode)) :
  In x (map fst (touch_node n l)) <-> x = n \/ In x (map fst l).
Proof.
  unfold touch_node. destruct (str_in n (map fst l)) eqn:E.
  - apply str_in_In in E. intuition (subst; auto).
  - rewrite map_app, in_app_iff. simpl. intuition.
Qed.

Lemma In_put_edge (u v : string) (d : EdgeData) (l : list ((string * string) * EdgeData))
  (x : (string * string) * EdgeData) :
  In x (put_edge u v d l) -> x = ((u, v), d) \/ In x l.
Proof.
  induction l as [| [[u' v'] d'] l IH]; simpl.
  - intuition.
  - destruct (String.eqb u u' && String.eqb v v'); simpl; intuition.
Qed.

Lemma set_add_NoDup (x : string) (s : list string) :
  List.NoDup s -> List.NoDup (set_add x s).
Proof.
  intros H. unfold set_add. destruct (str_in x s) eqn:E; [exact H |].
  apply str_in_false in E.
  assert (Hx : List.NoDup (rev (s ++ [x]))).
  { rewrite rev_app_distr. simpl. constructor; [| apply List.NoDup_rev, H].
    intros Hin. apply E. apply in_rev. exact Hin. }
  apply List.NoDup_rev in Hx. rewrite rev_involutive in Hx. exact Hx.
Qed.

Lemma In_set_add (x y : string) (s : list string) :
  In y (set_add x s) <-> y = x \/ In y s.
Proof.
  unfold set_add. destruct (str_in x s) eqn:E.
  - apply str_in_In in E. intuition (subst; auto).
  - rewrite in_app_iff. simpl. intuition.
Qed.

Lemma wf_empty : wf empty.
Proof.
  unfold wf, empty. simpl. split; [constructor |]. split; [tauto |].
  intros u v d [].
Qed.

Lemma wf_add_node (g : Graph) (node : StoryNode) : wf g -> wf (add_node g node).
Proof.
  intros (Hnd & Hend & Hedges). unfold wf, add_node, has_node in *. simpl.
  split; [| split].
  - destruct (String.eqb (node_type node) "ending"); [apply set_add_NoDup |]; exact Hnd.
  - intros e He. apply str_in_In, has_node_put_node.
    destruct (String.eqb (node_type node) "ending").
    + apply In_set_add in He. destruct He as [-> | He]; [now left |].
      right. apply str_in_In, Hend, He.
    + right. apply str_in_In, Hend, He.
  - intros u v d Hd. destruct (Hedges u v d Hd) as [Hu Hv].
    split; apply str_in_In, has_node_put_node; right; apply str_in_In; assumption.
Qed.

Lemma wf_add_edge (g : Graph) (e : StoryEdge) : wf g -> wf (add_edge g e).
Proof.
  intros (Hnd & Hend & Hedges). unfold wf, add_edge, has_node in *. simpl.
  split; [exact Hnd |]. split.
  - intros x Hx. apply str_in_In. rewrite !has_node_touch_node.
    right; right. apply str_in_In, Hend, Hx.
  - intros u v d Hd. apply In_put_edge in Hd.
    assert (Hin : In u (map fst (touch_node (to_node e) (touch_node (from_node e) (nodes g))))
                  /\ In v (map fst (touch_node (to_node e) (touch_node (from_node e) (nodes g))))).
    { rewrite !has_node_touch_node. destruct Hd as [Hd | Hd].
      - inversion Hd; subst. tauto.
      - destruct (Hedges u v d Hd) as [Hu Hv]. apply str_in_In in Hu, Hv. tauto. }
    destruct Hin as [Hu Hv]. split; apply str_in_In; assumption.
Qed.

(** C10, as the code has it. When the current node is not a node of the
    graph and the graph has at least one ending, both [find_paths_to_endings]
    and [calculate_ending_probabilities] raise [NodeNotFound]; when the graph
    has no ending, the loop body never runs and both return the empty
    result. *)
Theorem absent_node_raises (g : Graph) (current_node : string)
  (decisions_made : gmap string string) (story_flags : gmap string PyVal) :
  has_node g current_node = false ->
  (_endings g <> [] ->
   find_paths_to_endings g current_node
   = Raise (NodeNotFound ("source node " +:+ current_node +:+ " not in graph"))
   /\ calculate_ending_probabilities g current_node decisions_made story_flags
      = Raise (NodeNotFound ("source node " +:+ current_node +:+ " not in graph")))
  /\ (_endings g = [] ->
      find_paths_to_endings g current_node = Ok []
      /\ calculate_ending_probabilities g current_node decisions_made story_flags = Ok []).
Proof.
  intros Habsent.
  unfold calculate_ending_probabilities, find_paths_to_endings.
  rewrite (paths_to_absent g current_node (_endings g) Habsent).
  destruct (_endings g) as [| e endings]; split; intros H; try congruence; split; reflexivity.
Qed.

(** *** The paths that are found *)

Lemma dfs_nodup (g : Graph) (targets : list string) (fuel : nat) :
  forall (path_rev p : list string),
    List.NoDup path_rev -> In p (dfs g targets fuel path_rev) -> List.NoDup p.
Proof.
  induction fuel as [| fuel IH]; intros path_rev p Hnd; simpl; [tauto |].
  destruct path_rev as [| cur rest]; [simpl; tauto |].
  rewrite in_flat_map. intros (child & _ & Hp).
  destruct (str_in child (cur :: rest)) eqn:Hc; [destruct Hp |].
  apply str_in_false in Hc.
  assert (Hnd' : List.NoDup (child :: cur :: rest)) by (constructor; assumption).
  apply in_app_iff in Hp. destruct Hp as [Hp | Hp].
  - destruct (str_in child targets); [| destruct Hp].
    destruct Hp as [<- | []].
    change (List.NoDup (rev (child :: cur :: rest))). apply List.NoDup_rev, Hnd'.
  - destruct (targets_left targets (child :: cur :: rest)); [| destruct Hp].
    eapply IH; eassumption.
Qed.

(** Between two different nodes of a well-formed graph, the enumeration
    yields exactly the paths without repetition. *)
Lemma all_simple_paths_exact (g : Graph) (s t : string) :
  wf g -> has_node g s = true -> has_node g t = true ->
  exists ps,
    all_simple_paths g s t = Ok ps
    /\ forall p, In p ps <->
         (p = [s] /\ t = s /\ nx_trivial_path = true) \/ (t <> s /\ simple_path g s t p).
Proof.
  intros Hwf Hs Ht. unfold all_simple_paths. rewrite Hs, Ht. cbn [negb].
  eexists. split; [reflexivity |]. intros p.
  unfold targets_left. cbn [existsb]. rewrite orb_false_r.
  destruct (string_dec s t) as [<- | Hne].
  - assert (E : str_in s [s] = true) by (apply str_in_In; now left).
    rewrite E. cbn [negb]. rewrite andb_true_r, List.app_nil_r.
    destruct nx_trivial_path; cbn [In]; split.
    + intros [<- | []]. left. auto.
    + intros [(-> & _) | (H & _)]; [now left | congruence].
    + intros [].
    + intros [(_ & _ & H) | (H & _)]; congruence.
  - assert (E1 : str_in s [t] = false).
    { apply str_in_false. simpl. intuition congruence. }
    assert (E2 : str_in t [s] = false).
    { apply str_in_false. simpl. intuition congruence. }
    rewrite E1, E2, andb_false_r. cbn [negb app]. split.
    + intros Hp. right. split; [congruence |].
      pose proof (dfs_nodup g [t] _ [s] p ltac:(repeat constructor; simpl; tauto) Hp) as Hnd.
      apply dfs_sound in Hp. destruct Hp as (cur & rest & q & t' & E & -> & Hc & Ht').
      injection E as <- <-. destruct Ht' as [<- | []].
      exists q. cbn [rev app] in *. auto.
    + intros [(_ & H & _) | (_ & q & -> & Hc & Hnd)]; [congruence |].
      assert (Hlen : (length (s :: q ++ [t]) <= length (map fst (nodes g)))%nat).
      { apply List.NoDup_incl_length; [exact Hnd |].
        intros x [<- | Hx].
        - apply str_in_In. exact Hs.
        - apply str_in_In. eapply chain_nodes; eassumption. }
      rewrite length_map in Hlen. simpl in Hlen. rewrite length_app in Hlen. simpl in Hlen.
      apply (dfs_complete g t q (length (nodes g) - 1) s [] Hc Hnd). lia.
Qed.

Lemma paths_to_members (g : Graph) (s : string) (endings : list string) :
  forall l, paths_to g s endings = Ok l ->
    forall e ps, In (e, ps) l ->
      In e endings /\ ps <> [] /\ all_simple_paths g s e = Ok ps.
Proof.
  induction endings as [| e0 endings IH]; intros l; cbn [paths_to].
  - intros E. inversion E. intros e ps [].
  - destruct (all_simple_paths g s e0) as [ps0 | x] eqn:E0; cbn [bind]; [| discriminate].
    destruct (paths_to g s endings) as [l' | x] eqn:El; cbn [bind]; [| discriminate].
    intros E. inversion E; subst. clear E. intros e ps Hin.
    destruct ps0 as [| p0 ps0].
    + destruct (IH l' eq_refl e ps Hin) as (H1 & H2 & H3). repeat split; auto. now right.
    + destruct Hin as [Hin | Hin].
      * inversion Hin; subst. repeat split; [now left | discriminate | exact E0].
      * destruct (IH l' eq_refl e ps Hin) as (H1 & H2 & H3). repeat split; auto. now right.
Qed.

(** X14. From a node of a well-formed graph, [find_paths_to_endings] returns
    (and does not raise); its keys are the endings reached from the node; and
    the paths listed for an ending are exactly the paths without repeated
    node that lead from the node to that ending along edges of the graph
    (for the node itself, when it is an ending, the one-node path, if the
    installed networkx yields it). *)
Theorem find_paths_to_endings_simple_paths (g : Graph) (from_node : string) :
  wf g -> has_node g from_node = true ->
  exists l,
    find_paths_to_endings g from_node = Ok l
    /\ (forall ending_id, In ending_id (map fst l) <->
          In ending_id (_endings g) /\ nx_reaches g from_node ending_id)
    /\ (forall ending_id paths, In (ending_id, paths) l ->
          paths <> []
          /\ forall p, In p paths <->
               (p = [from_node] /\ ending_id = from_node /\ nx_trivial_path = true)
               \/ (ending_id <> from_node /\ simple_path g from_node ending_id p)).
Proof.
  intros Hwf Hs. unfold find_paths_to_endings.
  destruct (paths_to_spec g from_node (_endings g) Hwf Hs) as (l & El & Hkeys & _).
  { apply Hwf. }
  exists l. split; [exact El |]. split; [exact Hkeys |].
  intros e ps Hin.
  destruct (paths_to_members g from_node (_endings g) l El e ps Hin) as (He & Hne & Eps).
  split; [exact Hne |].
  destruct (all_simple_paths_exact g from_node e Hwf Hs) as (ps' & Eps' & Hps').
  { apply Hwf, He. }
  rewrite Eps in Eps'. inversion Eps'; subst. exact Hps'.
Qed.

(** *** Dead ends *)

(** X15. Every node that [detect_dead_ends] reports is a node of the graph
    that is no ending and has no successor; in a well-formed graph no ending
    is reached from it, so [find_paths_to_endings] and
    [calculate_ending_probabilities] return the empty result for it. *)
Theorem dead_end_reaches_no_ending (g : Graph) (node_id : string)
  (decisions_made : gmap string string) (story_flags : gmap string PyVal) :
  wf g -> In node_id (detect_dead_ends g) ->
  has_node g node_id = true
  /\ ~ In node_id (_endings g)
  /\ successors g node_id = []
  /\ find_paths_to_endings g node_id = Ok []
  /\ calculate_ending_probabilities g node_id decisions_made story_flags = Ok [].
Proof.
  intros Hwf Hin. unfold detect_dead_ends in Hin. apply filter_In in Hin.
  destruct Hin as [Hnode Hdead]. apply andb_true_iff in Hdead. destruct Hdead as [Hend Hout].
  apply negb_true_iff, str_in_false in Hend. apply Nat.eqb_eq in Hout.
  assert (Hs : successors g node_id = []) by (destruct (successors g node_id); [reflexivity | discriminate]).
  assert (Hn : has_node g node_id = true) by (apply str_in_In; exact Hnode).
  assert (Hnone : forall e, In e (_endings g) -> ~ nx_reaches g node_id e).
  { intros e He [[-> _] | [Hne Hr]]; [contradiction |].
    inversion Hr as [| a b c Hedge _]; subst; [congruence |].
    unfold edge in Hedge. rewrite Hs in Hedge. destruct Hedge. }
  split; [exact Hn |]. split; [exact Hend |]. split; [exact Hs |]. split.
  - unfold find_paths_to_endings.
    destruct (paths_to_spec g node_id (_endings g) Hwf Hn) as (l & El & Hkeys & _).
    { apply Hwf. }
    rewrite El. destruct l as [| [e ps] l]; [reflexivity |]. exfalso.
    destruct (proj1 (Hkeys e) ltac:(now left)) as [He Hr]. exact (Hnone e He Hr).
  - destruct (ending_probabilities_keys g node_id decisions_made story_flags Hwf Hn)
      as (probs & Ep & _ & _ & Hempty).
    rewrite Ep. f_equal. apply Hempty. intros (e & He & Hr). exact (Hnone e He Hr).
Qed.

(** *** Conditions *)

Lemma split_colon_plain (s : string) : no_colon s -> split_colon s = [s].
Proof.
  unfold no_colon. induction s as [| c s IH]; cbn [list_ascii_of_string forallb split_colon];
    [reflexivity |].
  intros H. apply andb_true_iff in H. destruct H as [Hc Hs].
  apply negb_true_iff in Hc. rewrite Hc, (IH Hs). reflexivity.
Qed.

Lemma split_colon_app (a rest : string) :
  no_colon a -> split_colon (a +:+ ":" +:+ rest) = a :: split_colon rest.
Proof.
  unfold no_colon. induction a as [| c a IH]; cbn [list_ascii_of_string forallb].
  - intros _. reflexivity.
  - intros H. apply andb_true_iff in H. destruct H as [Hc Ha].
    apply negb_true_iff in Hc.
    change (String c a +:+ ":" +:+ rest) with (String c (a +:+ ":" +:+ rest)).
    cbn [split_colon]. rewrite Hc, (IH Ha). reflexivity.
Qed.

Lemma split_colon_nonempty (s : string) : split_colon s <> [].
Proof.
  induction s as [| c s IH]; cbn [split_colon]; [discriminate |].
  destruct (Ascii.eqb c ":"); [discriminate |].
  destruct (split_colon s); discriminate.
Qed.

(** X16. How [_check_condition] reads a condition whose parts hold no colon:
    ["flag:true"] (in any letter case) asks for a truthy flag, ["flag:false"]
    for a falsy or missing one, any other ["flag:value"] for a flag whose
    [str] is the value; ["decision:code:option"] asks for that option to have
    been chosen; and a condition without a colon, with a first part other
    than "decision" out of three, or with four parts or more, is taken as
    satisfied. *)
Theorem check_condition_formats (flag expected code chosen extra : string)
  (decisions_made : gmap string string) (story_flags : gmap string PyVal) :
  no_colon flag -> no_colon expected -> no_colon code -> no_colon chosen ->
  let actual := default PyNone (story_flags !! flag) in
  (lower expected = "true"%string ->
   _check_condition (flag +:+ ":" +:+ expected) decisions_made story_flags = truthy actual)
  /\ (lower expected = "false"%string ->
      _check_condition (flag +:+ ":" +:+ expected) decisions_made story_flags
      = negb (truthy actual))
  /\ (lower expected <> "true"%string -> lower expected <> "false"%string ->
      _check_condition (flag +:+ ":" +:+ expected) decisions_made story_flags
      = String.eqb (py_str actual) expected)
  /\ _check_condition ("decision:" +:+ code +:+ ":" +:+ chosen) decisions_made story_flags
     = bool_decide (decisions_made !! code = Some chosen)
  /\ (flag <> "decision"%string ->
      _check_condition (flag +:+ ":" +:+ code +:+ ":" +:+ chosen) decisions_made story_flags
      = true)
  /\ _check_condition flag decisions_made story_flags = true
  /\ _check_condition (flag +:+ ":" +:+ expected +:+ ":" +:+ code +:+ ":" +:+ extra)
       decisions_made story_flags = true.
Proof.
  intros Hflag Hexp Hcode Hchosen. cbv zeta. unfold _check_condition.
  rewrite !split_colon_app by assumption.
  change (split_colon ("decision:" +:+ code +:+ ":" +:+ chosen))
    with (split_colon ("decision" +:+ ":" +:+ code +:+ ":" +:+ chosen)).
  rewrite !split_colon_app by (assumption || reflexivity).
  rewrite !split_colon_plain by assumption.
  repeat split.
  - intros ->. reflexivity.
  - intros E. rewrite E. reflexivity.
  - intros H1 H2. apply String.eqb_neq in H1, H2. now rewrite H1, H2.
  - cbn [String.eqb Ascii.eqb Bool.eqb]. 
    destruct (decisions_made !! code) as [actual_option |] eqn:E.
    + destruct (String.eqb_spec actual_option chosen) as [-> | Hne].
      * symmetry. now apply bool_decide_eq_true.
      * symmetry. apply bool_decide_eq_false. congruence.
    + symmetry. apply bool_decide_eq_false. congruence.
  - intros Hne. apply String.eqb_neq in Hne. now rewrite Hne.
  - pose proof (split_colon_nonempty extra) as Hne.
    destruct (split_colon extra) as [| x l]; [congruence | reflexivity].
Qed.

Lemma check_condition_formats_witness :
  no_colon "flag_x" /\ no_colon "True"
  /\ _check_condition "flag_x:True" ∅ (<["flag_x" := PyInt 3]> ∅) = true.
Proof.
  split; [reflexivity |]. split; [reflexivity |].
  exact (proj1 (check_condition_formats "flag_x" "True" "c" "o" "" ∅ (<["flag_x" := PyInt 3]> ∅)
                  eq_refl eq_refl eq_refl eq_refl) eq_refl).
Defined.

(** *** Decision points ahead *)

Lemma has_node_dict_get (g : Graph) (n : string) :
  has_node g n = true -> exists node_data, dict_get n (nodes g) = Some node_data.
Proof.
  unfold has_node. induction (nodes g) as [| [n' a] l IH]; cbn [map fst str_in existsb dict_get].
  - discriminate.
  - destruct (String.eqb n n'); [intros _; now exists a | exact IH].
Qed.

Lemma steps_to_next (g : Graph) (u w v : string) (d depth : Z) :
  edge g u w -> depth + 1 <= d ->
  steps_to g (Z.to_nat (d - (depth + 1))) w v ->
  steps_to g (Z.to_nat (d - depth)) u v.
Proof.
  intros Hedge Hd Hsteps.
  replace (Z.to_nat (d - depth)) with (S (Z.to_nat (d - (depth + 1)))) by lia.
  exists w. auto.
Qed.

(** What the entries added by a call have in common. *)
Definition found_below (g : Graph) (max_depth : Z) (node_id : string) (depth : Z)
  (dp : DecisionPoint) : Prop :=
  In (dp_node_id dp) (_decision_points g)
  /\ depth <= dp_depth dp <= max_depth
  /\ steps_to g (Z.to_nat (dp_depth dp - depth)) node_id (dp_node_id dp).

(** The state of the search: every entry is of a visited node, and no node
    has two entries. *)
Definition search_state (visited : gset string) (dps : list DecisionPoint) : Prop :=
  (forall dp, In dp dps -> dp_node_id dp ∈ visited)
  /\ List.NoDup (map dp_node_id dps).

Lemma explore_spec (g : Graph) (max_depth : Z) :
  wf g -> decisions_are_nodes g ->
  forall (fuel : nat) (node_id : string) (depth : Z) (visited : gset string)
         (dps : list DecisionPoint),
    has_node g node_id = true ->
    max_depth + 1 - depth <= Z.of_nat fuel ->
    search_state visited dps ->
    exists visited' new,
      explore g max_depth fuel node_id depth (visited, dps) = Returns (visited', dps ++ new)
      /\ visited ⊆ visited'
      /\ search_state visited' (dps ++ new)
      /\ (forall dp, In dp new -> found_below g max_depth node_id depth dp).
Proof.
  intros Hwf Hdec. induction fuel as [| fuel IH];
    intros node_id depth visited dps Hnode Hfuel Hstate.
  - cbn [explore]. exists visited, []. rewrite List.app_nil_r.
    destruct ((max_depth <? depth) || bool_decide (node_id ∈ visited));
      (split; [reflexivity |]); (split; [reflexivity |]); (split; [exact Hstate |]);
      intros dp [].
  - cbn [explore].
    destruct (Z.ltb_spec max_depth depth) as [Hdeep | Hdepth]; cbn [orb].
    { exists visited, []. rewrite List.app_nil_r.
      split; [reflexivity |]. split; [reflexivity |]. split; [exact Hstate |]. intros dp []. }
    case_bool_decide as Hvisited.
    { exists visited, []. rewrite List.app_nil_r.
      split; [reflexivity |]. split; [reflexivity |]. split; [exact Hstate |]. intros dp []. }
    rewrite Hnode.
    (* the entry of the node itself, if it is a decision point *)
    assert (Hfound : exists own,
               (if str_in node_id (_decision_points g)
                then match dict_get node_id (nodes g) with
                     | Some node_data =>
                         Returns (dps ++ [ {| dp_node_id := node_id;
                                              dp_title := option_map title node_data;
                                              dp_depth := depth |} ])
                     | None => Raises (KeyError node_id)
                     end
                else Returns dps) = Returns (dps ++ own)
               /\ search_state ({[node_id]} ∪ visited) (dps ++ own)
               /\ (forall dp, In dp own -> found_below g max_depth node_id depth dp)).
    { destruct Hstate as [Hin Hnd].
      destruct (str_in node_id (_decision_points g)) eqn:Hd.
      - destruct (has_node_dict_get g node_id Hnode) as (node_data & ->).
        eexists. split; [reflexivity |]. split; [split |].
        + intros dp Hdp. apply in_app_iff in Hdp. destruct Hdp as [Hdp | [<- | []]].
          * apply elem_of_union_r, Hin, Hdp.
          * apply elem_of_union_l, elem_of_singleton. reflexivity.
        + rewrite map_app. cbn [map dp_node_id].
          apply List.NoDup_rev in Hnd.
          assert (Hx : List.NoDup (rev (map dp_node_id dps ++ [node_id]))).
          { rewrite rev_app_distr. cbn [rev app]. constructor; [| exact Hnd].
            intros Hc. apply in_rev, in_map_iff in Hc. destruct Hc as (dp & E & Hdp).
            apply Hvisited. rewrite <- E. apply Hin, Hdp. }
          apply List.NoDup_rev in Hx. now rewrite rev_involutive in Hx.
        + intros dp [<- | []]. unfold found_below. cbn [dp_node_id dp_depth].
          split; [apply str_in_In, Hd |]. split; [lia |].
          replace (Z.to_nat (depth - depth)) with O by lia. reflexivity.
      - exists []. rewrite List.app_nil_r. split; [reflexivity |]. split; [split |].
        + intros dp Hdp. apply elem_of_union_r, Hin, Hdp.
        + exact Hnd.
        + intros dp []. }
    destruct Hfound as (own & -> & Hstate1 & Hown).
    (* the loop over the successors *)
    assert (Hloop : forall succs visited1 new1,
               (forall s, In s succs -> edge g node_id s) ->
               search_state visited1 (dps ++ new1) ->
               exists visited' new2,
                 fold_left
                   (fun acc succ_id =>
                      match acc with
                      | Returns st => explore g max_depth fuel succ_id (depth + 1) st
                      | Raises e => Raises e
                      end)
                   succs (Returns (visited1, dps ++ new1))
                 = Returns (visited', dps ++ new1 ++ new2)
                 /\ visited1 ⊆ visited'
                 /\ search_state visited' (dps ++ new1 ++ new2)
                 /\ (forall dp, In dp new2 -> found_below g max_depth node_id depth dp)).
    { induction succs as [| s succs IHs]; intros visited1 new1 Hedges Hst.
      - exists visited1, []. rewrite List.app_nil_r. cbn [fold_left].
        split; [reflexivity |]. split; [reflexivity |]. split; [exact Hst |]. intros dp [].
      - cbn [fold_left].
        assert (Hs : has_node g s = true).
        { specialize (Hedges s ltac:(now left)). apply edge_in_edges in Hedges.
          destruct Hedges as (d & Hd). destruct Hwf as (_ & _ & He). apply (He _ _ _ Hd). }
        destruct (IH s (depth + 1) visited1 (dps ++ new1) Hs ltac:(lia) Hst)
          as (visited2 & new & E & Hsub & Hst2 & Hnew).
        rewrite E. rewrite <- List.app_assoc in Hst2 |- *.
        destruct (IHs visited2 (new1 ++ new) ltac:(intros x Hx; apply Hedges; now right) Hst2)
          as (visited3 & new3 & E3 & Hsub3 & Hst3 & Hnew3).
        exists visited3, (new ++ new3). rewrite E3, <- !List.app_assoc.
        split; [reflexivity |]. split; [etrans; eassumption |].
        split; [now rewrite <- !List.app_assoc in Hst3 |].
        intros dp Hdp. apply in_app_iff in Hdp. destruct Hdp as [Hdp | Hdp]; [| auto].
        destruct (Hnew dp Hdp) as (H1 & H2 & H3). split; [exact H1 |]. split; [lia |].
        eapply steps_to_next; [apply Hedges; now left | lia | exact H3]. }
    destruct (Hloop (successors g node_id) ({[node_id]} ∪ visited) own
                ltac:(intros s Hs; exact Hs) Hstate1)
      as (visited' & new2 & E & Hsub & Hst & Hnew).
    exists visited', (own ++ new2). rewrite E.
    split; [reflexivity |]. split; [etrans; [apply union_subseteq_r | exact Hsub] |].
    split; [exact Hst |].
    intros dp Hdp. apply in_app_iff in Hdp. destruct Hdp; auto.
Qed.

(** The fuel given by [get_decision_points_ahead] is enough: any two amounts
    of at least [max_depth + 1 - depth] give the same result, so the search
    is never cut short by the fuel. *)
Lemma explore_fuel (g : Graph) (max_depth : Z) (fuel : nat) :
  forall (fuel' : nat) (node_id : string) (depth : Z)
         (state : gset string * list DecisionPoint),
    max_depth + 1 - depth <= Z.of_nat fuel ->
    max_depth + 1 - depth <= Z.of_nat fuel' ->
    explore g max_depth fuel node_id depth state
    = explore g max_depth fuel' node_id depth state.
Proof.
  induction fuel as [| fuel IH]; intros fuel' node_id depth [visited dps] Hf Hf'.
  - destruct fuel'; cbn [explore]; destruct (Z.ltb_spec max_depth depth); cbn [orb];
      try reflexivity; lia.
  - destruct fuel' as [| fuel']; cbn [explore]; destruct (Z.ltb_spec max_depth depth);
      cbn [orb]; try reflexivity; try lia.
    destruct (bool_decide (node_id ∈ visited)); [reflexivity |].
    destruct (if str_in node_id (_decision_points g)
              then match dict_get node_id (nodes g) with
                   | Some node_data =>
                       Returns (dps ++ [ {| dp_node_id := node_id;
                                            dp_title := option_map title node_data;
                                            dp_depth := depth |} ])
                   | None => Raises (KeyError node_id)
                   end
              else Returns dps) as [dps' | e]; [| reflexivity].
    destruct (has_node g node_id); [| reflexivity].
    generalize (Returns ({[node_id]} ∪ visited, dps')
                : Outcome (gset string * list DecisionPoint)).
    induction (successors g node_id) as [| succ_id rest IHrest]; intros acc;
      cbn [fold_left]; [reflexivity |].
    rewrite IHrest. f_equal. destruct acc as [st | e]; [| reflexivity].
    apply IH; lia.
Qed.

(** X17. [get_decision_points_ahead] returns nothing, whatever the node, when
    [max_depth] is negative.  Otherwise, in a well-formed graph whose
    decision points are nodes, it raises networkx's error for a node that is
    not in the graph, and for a node of the graph it returns: no node twice,
    and only decision points, each with a depth between 0 and [max_depth]
    that is the length of a walk from the current node to it. *)
Theorem get_decision_points_ahead_spec (g : Graph) (current_node : string) (max_depth : Z) :
  wf g -> decisions_are_nodes g ->
  (max_depth < 0 -> get_decision_points_ahead g current_node max_depth = Returns [])
  /\ (0 <= max_depth -> has_node g current_node = false ->
      get_decision_points_ahead g current_node max_depth
      = Raises (NetworkXError ("The node " +:+ current_node +:+ " is not in the digraph.")))
  /\ (has_node g current_node = true ->
      exists dps,
        get_decision_points_ahead g current_node max_depth = Returns dps
        /\ List.NoDup (map dp_node_id dps)
        /\ forall dp, In dp dps ->
             In (dp_node_id dp) (_decision_points g)
             /\ 0 <= dp_depth dp <= max_depth
             /\ steps_to g (Z.to_nat (dp_depth dp)) current_node (dp_node_id dp)).
Proof.
  intros Hwf Hdec. unfold get_decision_points_ahead. split; [| split].
  - intros Hneg. replace (Z.to_nat (max_depth + 1)) with O by lia. cbn [explore].
    replace (max_depth <? 0) with true by lia. reflexivity.
  - intros Hpos Habsent.
    destruct (Z.to_nat (max_depth + 1)) as [| fuel] eqn:Ef; [lia |]. cbn [explore].
    replace (max_depth <? 0) with false by lia. cbn [orb].
    case_bool_decide as Hv; [set_solver |].
    destruct (str_in current_node (_decision_points g)) eqn:Hd.
    + apply str_in_In, Hdec in Hd. congruence.
    + rewrite Habsent. reflexivity.
  - intros Hnode.
    destruct (explore_spec g max_depth Hwf Hdec (Z.to_nat (max_depth + 1)) current_node 0 ∅ []
                Hnode ltac:(lia) ltac:(split; [intros dp [] | constructor]))
      as (visited' & new & E & _ & [_ Hnd] & Hnew).
    rewrite E. cbn [snd app] in *. exists new. split; [reflexivity |]. split; [exact Hnd |].
    intros dp Hdp. destruct (Hnew dp Hdp) as (H1 & H2 & H3).
    rewrite Z.sub_0_r in H3. auto.
Qed.

(** *** Node attributes *)

Lemma dict_get_put_node (n x : string) (a : option StoryNode)
  (l : list (string * option StoryNode)) :
  dict_get x (put_node n a l) = if String.eqb x n then Some a else dict_get x l.
Proof.
  induction l as [| [n' a'] l IH]; cbn [put_node dict_get].
  - destruct (String.eqb x n); reflexivity.
  - destruct (String.eqb_spec n n') as [-> | Hne]; cbn [dict_get].
    + destruct (String.eqb x n'); reflexivity.
    + rewrite IH. destruct (String.eqb_spec x n') as [-> | Hx].
      * destruct (String.eqb_spec n' n); [congruence | reflexivity].
      * reflexivity.
Qed.

Lemma dict_get_app_new {V : Type} (x n : string) (v : V) (l : list (string * V)) :
  dict_get x (l ++ [(n, v)])
  = match dict_get x l with
    | Some w => Some w
    | None => if String.eqb x n then Some v else None
    end.
Proof.
  induction l as [| [n' a'] l IH]; cbn [app dict_get]; [reflexivity |].
  destruct (String.eqb x n'); [reflexivity | exact IH].
Qed.

Lemma str_in_keys {V : Type} (x : string) (l : list (string * V)) :
  str_in x (map fst l) = match dict_get x l with Some _ => true | None => false end.
Proof.
  induction l as [| [n a] l IH]; cbn [map fst str_in existsb dict_get]; [reflexivity |].
  destruct (String.eqb x n); [reflexivity | exact IH].
Qed.

Lemma dict_get_touch_node (n x : string) (l : list (string * option StoryNode)) :
  dict_get x (touch_node n l)
  = match dict_get x l with
    | Some a => Some a
    | None => if String.eqb x n then Some None else None
    end.
Proof.
  unfold touch_node. rewrite str_in_keys.
  destruct (dict_get n l) as [a |] eqn:En.
  - destruct (dict_get x l) as [b |] eqn:Ex; [reflexivity |].
    destruct (String.eqb_spec x n) as [-> | _]; [congruence | reflexivity].
  - apply dict_get_app_new.
Qed.

(** X18. [get_node] gives [None] on the empty graph; after [add_node] it
    gives the attributes just stored for that node (replacing any earlier
    ones) and what it gave before for every other node; after [add_edge] it
    gives what it gave before for every node that existed, and the empty
    attributes for an end point that the edge had to create. *)
Theorem get_node_after_updates (g : Graph) (node : StoryNode) (e : StoryEdge) (x : string) :
  get_node empty x = None
  /\ get_node (add_node g node) (node_id node) = Some (Some node)
  /\ (x <> node_id node -> get_node (add_node g node) x = get_node g x)
  /\ (get_node g x <> None -> get_node (add_edge g e) x = get_node g x)
  /\ (get_node g x = None -> x = from_node e \/ x = to_node e ->
      get_node (add_edge g e) x = Some None)
  /\ (get_node g x = None -> x <> from_node e -> x <> to_node e ->
      get_node (add_edge g e) x = None).
Proof.
  unfold get_node, add_node, add_edge. cbn [nodes empty dict_get].
  rewrite !dict_get_put_node, !dict_get_touch_node, String.eqb_refl.
  split; [reflexivity |]. split; [reflexivity |]. split.
  { intros Hne. apply String.eqb_neq in Hne. now rewrite Hne. }
  destruct (dict_get x (nodes g)) as [a |].
  - repeat split; intros; congruence.
  - split; [congruence |]. split.
    + intros _ [-> | ->]; rewrite String.eqb_refl; [reflexivity |].
      destruct (String.eqb (to_node e) (from_node e)); reflexivity.
    + intros _ H1 H2. apply String.eqb_neq in H1, H2. now rewrite H1, H2.
Qed.

(** *** Branch analysis *)

Lemma get_edge_found (l : list ((string * string) * EdgeData)) (u v : string) :
  (exists d, In ((u, v), d) l) -> exists d, get_edge l u v = Some d /\ In ((u, v), d) l.
Proof.
  induction l as [| [[u' v'] d'] l IH]; intros (d & Hd); [destruct Hd |].
  cbn [get_edge].
  destruct (String.eqb_spec u u') as [-> | Hu]; cbn [andb].
  - destruct (String.eqb_spec v v') as [-> | Hv].
    + exists d'. split; [reflexivity | now left].
    + destruct Hd as [Hd | Hd]; [inversion Hd; congruence |].
      destruct (IH (ex_intro _ d Hd)) as (d0 & E & Hin). exists d0. split; [exact E | now right].
  - destruct Hd as [Hd | Hd]; [inversion Hd; congruence |].
    destruct (IH (ex_intro _ d Hd)) as (d0 & E & Hin). exists d0. split; [exact E | now right].
Qed.

Lemma successor_entries_spec (g : Graph) (node_id : string) (succ_ids : list string) :
  wf g -> (forall s, In s succ_ids -> edge g node_id s) ->
  exists entries,
    successor_entries g node_id succ_ids = Returns entries
    /\ map succ_node_id entries = succ_ids
    /\ forall s, In s entries ->
         exists d, get_edge (edges g) node_id (succ_node_id s) = Some d
                   /\ succ_condition s = edge_condition d
                   /\ succ_probability s = edge_probability d.
Proof.
  intros Hwf. induction succ_ids as [| s rest IH]; intros Hedges; cbn [successor_entries].
  - exists []. repeat split. intros s [].
  - destruct IH as (entries & E & Hids & Hdata); [intros x Hx; apply Hedges; now right |].
    pose proof (Hedges s ltac:(now left)) as Hs. apply edge_in_edges in Hs.
    destruct (get_edge_found (edges g) node_id s Hs) as (d & Ed & Hd).
    assert (Hnode : has_node g s = true) by (destruct Hwf as (_ & _ & He); apply (He _ _ _ Hd)).
    destruct (has_node_dict_get g s Hnode) as (node_data & En).
    rewrite Ed, En, E. eexists. split; [reflexivity |]. split.
    + cbn [map succ_node_id]. now rewrite Hids.
    + intros x [<- | Hx]; [| apply Hdata, Hx].
      exists d. cbn [succ_node_id succ_condition succ_probability]. auto.
Qed.

(** X19. [get_branch_analysis] raises networkx's error for a node that is not
    in the graph, whether or not the graph has endings.  For a node of a
    well-formed graph it returns: one branch per successor, in order, with
    the condition and the probability of the edge to it; the conditional flag
    exactly when the edge to some successor has a non-empty condition; and as
    reachable endings exactly the endings that
    [calculate_ending_probabilities] gives a value to, in the same order. *)
Theorem get_branch_analysis_spec (g : Graph) (node_id : string)
  (decisions_made : gmap string string) (story_flags : gmap string PyVal) :
  wf g ->
  (has_node g node_id = false ->
   get_branch_analysis g node_id
   = Raises (NetworkXError ("The node " +:+ node_id +:+ " is not in the digraph.")))
  /\ (has_node g node_id = true ->
      exists analysis probabilities,
        get_branch_analysis g node_id = Returns analysis
        /\ calculate_ending_probabilities g node_id decisions_made story_flags
           = Ok probabilities
        /\ endings_reachable analysis = map fst probabilities
        /\ branch_count analysis = Z.of_nat (length (successors g node_id))
        /\ map succ_node_id (branches analysis) = successors g node_id
        /\ (forall s, In s (branches analysis) ->
              exists d, get_edge (edges g) node_id (succ_node_id s) = Some d
                        /\ succ_condition s = edge_condition d
                        /\ succ_probability s = edge_probability d)
        /\ (has_conditional_branches analysis = true <->
            exists v d c, In v (successors g node_id)
                          /\ get_edge (edges g) node_id v = Some d
                          /\ edge_condition d = Some c /\ c <> ""%string)).
Proof.
  intros Hwf. unfold get_branch_analysis, get_successors. split.
  - intros ->. reflexivity.
  - intros Hnode. rewrite Hnode.
    destruct (successor_entries_spec g node_id (successors g node_id) Hwf)
      as (entries & -> & Hids & Hdata); [intros s Hs; exact Hs |].
    destruct (paths_to_spec g node_id (_endings g) Hwf Hnode) as (l & El & _).
    { apply Hwf. }
    unfold find_paths_to_endings. rewrite El.
    destruct (calculate_keys g node_id decisions_made story_flags l El) as (probs & Ep & Ek).
    eexists. exists probs. split; [reflexivity |]. split; [exact Ep |].
    cbn [endings_reachable branch_count branches has_conditional_branches].
    split; [now rewrite Ek |]. split; [now rewrite <- Hids, length_map |].
    split; [exact Hids |]. split; [exact Hdata |].
    rewrite existsb_exists. split.
    + intros (s & Hs & Hc). destruct (Hdata s Hs) as (d & Hd & Ec & _).
      destruct (succ_condition s) as [c |] eqn:E; [| discriminate].
      exists (succ_node_id s), d, c.
      split; [rewrite <- Hids; now apply in_map |]. split; [exact Hd |].
      split; [now rewrite <- Ec |]. intros ->. discriminate.
    + intros (v & d & c & Hv & Hd & Ec & Hne).
      rewrite <- Hids in Hv. apply in_map_iff in Hv. destruct Hv as (s & <- & Hs).
      exists s. split; [exact Hs |].
      destruct (Hdata s Hs) as (d' & Hd' & Ec' & _).
      rewrite Hd in Hd'. inversion Hd'; subst d'. rewrite Ec', Ec.
      destruct (String.eqb_spec c ""); [contradiction | reflexivity].
Qed.

End Graph.

Arguments StoryNode : clear implicits.
Arguments Graph : clear implicits.
Arguments StoryEdge : clear implicits.
Arguments EdgeData : clear implicits.

(** *** Sample graphs *)

Definition scene_node (n : string) : StoryNode :=
  {| node_id := n; node_type := "scene"; title := n; act := 1; chapter := 1; scene := 1 |}.

Definition ending_node (n : string) : StoryNode :=
  {| node_id := n; node_type := "ending"; title := n; act := 1; chapter := 1; scene := 1 |}.

(** The graph of the scenario: A -> B with probability [p_ab] and no
    condition, A -> C with probability [p_ac] under the condition
    "flag_x:true"; only C is an ending. *)
Definition fork {F : Type} {N : Num F} (p_ab p_ac : F) : Graph F :=
  add_edge
    (add_edge
       (add_node (add_node (add_node empty (scene_node "A")) (scene_node "B"))
          (ending_node "C"))
       {| from_node := "A"; to_node := "B"; condition := None;
          probability := p_ab; label := None |})
    {| from_node := "A"; to_node := "C"; condition := Some "flag_x:true"%string;
       probability := p_ac; label := None |}.

(** A scene A with one unconditional edge of probability [p] to each of the
    given endings. *)
Definition star {F : Type} {N : Num F} (p : F) (endings : list string) : Graph F :=
  fold_left
    (fun g e =>
       add_edge (add_node g (ending_node e))
         {| from_node := "A"; to_node := e; condition := None;
            probability := p; label := None |})
    endings (add_node empty (scene_node "A")).

Definition flag_x_false : gmap string PyVal := <["flag_x" := PyBool false]> ∅.

(** The sum of the values of a result, taken exactly. *)
Definition exact_total (probabilities : list (string * float)) : Q :=
  fold_right Qplus 0%Q (map (fun p => Q_of_float (snd p)) probabilities).

(** The tolerance of the specification: within 0.1 of 100. *)
Definition sums_to_100 (probabilities : list (string * float)) : Prop :=
  (Qabs (exact_total probabilities - 100) <= 1 # 10)%Q.


(** The weight of each reached ending before normalisation. *)
Definition raw_weights {F : Type} {N : Num F} (nx_trivial_path : bool) (g : Graph F)
  (current_node : string) (decisions_made : gmap string string)
  (story_flags : gmap string PyVal) : list (string * F) :=
  match find_paths_to_endings nx_trivial_path g current_node with
  | Ok paths_by_ending => ending_weights g paths_by_ending decisions_made story_flags
  | Raise _ => []
  end.

Definition Qsum (l : list Q) : Q := fold_right Qplus 0%Q l.

(** Every edge has a positive base probability. *)
Definition positive_edges (g : Graph Q) : Prop :=
  forall u v d, In ((u, v), d) (edges g) -> (0 < edge_probability d)%Q.

(** The second loop of [calculate_ending_probabilities]: the percentages
    when the total weight is positive, the weights themselves otherwise. *)
Definition normalise {F : Type} {N : Num F} (probabilities : list (string * F))
  : list (string * F) :=
  let total_weight := total_of probabilities in
  if gt total_weight zero
  then map (fun '(ending_id, p) => (ending_id, round1 (mul (div p total_weight) hundred)))
         probabilities
  else probabilities.

(** *** Building the graph from campaign data *)

(** The dictionaries of [campaign_data]; [None] stands for a missing key.
    Identifiers are strings or integers and are formatted with [str]. *)
Record BranchData (F : Type) : Type := {
  target_scene : option PyVal;
  branch_condition : option string;
  branch_probability : option F;
  branch_label : option string
}.
Arguments target_scene {F} _.
Arguments branch_condition {F} _.
Arguments branch_probability {F} _.
Arguments branch_label {F} _.

Record SceneData (F : Type) : Type := {
  scene_id : option PyVal;
  scene_title : option string;
  scene_order : option Z;
  next_scene_default : option PyVal;
  branch_triggers : option (list (BranchData F))
}.
Arguments scene_id {F} _.
Arguments scene_title {F} _.
Arguments scene_order {F} _.
Arguments next_scene_default {F} _.
Arguments branch_triggers {F} _.

Record ChapterData (F : Type) : Type := {
  chapter_number : option Z;
  scenes : option (list (SceneData F))
}.
Arguments chapter_number {F} _.
Arguments scenes {F} _.

Record ActData (F : Type) : Type := {
  act_number : option Z;
  chapters : option (list (ChapterData F))
}.
Arguments act_number {F} _.
Arguments chapters {F} _.

Record DecisionData : Type := {
  decision_code : option PyVal;
  decision_title : option string
}.

Record EndingData : Type := {
  ending_code : option PyVal;
  ending_title : option string
}.

Record CampaignData (F : Type) : Type := {
  campaign_acts : option (list (ActData F));
  campaign_decisions : option (list DecisionData);
  campaign_endings : option (list EndingData)
}.
Arguments campaign_acts {F} _.
Arguments campaign_decisions {F} _.
Arguments campaign_endings {F} _.

(** A [for] loop whose body updates the graph in place and can raise: the
    graph as the loop leaves it, and the exception if one escaped. *)
Fixpoint for_each {F A : Type} (body : Graph F -> A -> Graph F * option GraphExn)
  (items : list A) (g : Graph F) : Graph F * option GraphExn :=
  match items with
  | [] => (g, None)
  | item :: rest =>
      match body g item with
      | (g', None) => for_each body rest g'
      | (g', Some e) => (g', Some e)
      end
  end.

Definition add_branch {F : Type} {N : Num F} {H : Half F} (node_id : string) (g : Graph F)
  (branch : BranchData F) : Graph F * option GraphExn :=
  match target_scene branch with
  | Some target =>
      (add_edge g
         {| from_node := node_id;
            to_node := "scene_" +:+ py_str target;
            condition := branch_condition branch;
            probability := default half (branch_probability branch);
            label := branch_label branch |},
       None)
  | None => (g, Some (KeyError "target_scene"))
  end.

Definition add_scene {F : Type} {N : Num F} {H : Half F} (act_no chapter_no : Z)
  (g : Graph F) (scene_data : SceneData F) : Graph F * option GraphExn :=
  match scene_id scene_data with
  | Some id =>
      let node_id := "scene_" +:+ py_str id in
      let g :=
        add_node g
          {| node_id := node_id; node_type := "scene";
             title := default ""%string (scene_title scene_data);
             act := act_no; chapter := chapter_no;
             scene := default 1 (scene_order scene_data) |} in
      let g :=
        match next_scene_default scene_data with
        | Some next =>
            if truthy next
            then add_edge g
                   {| from_node := node_id; to_node := "scene_" +:+ py_str next;
                      condition := None; probability := one; label := None |}
            else g
        | None => g
        end in
      for_each (add_branch node_id) (default [] (branch_triggers scene_data)) g
  | None => (g, Some (KeyError "id"))
  end.

Definition add_chapter {F : Type} {N : Num F} {H : Half F} (act_no : Z) (g : Graph F)
  (chapter_data : ChapterData F) : Graph F * option GraphExn :=
  for_each (add_scene act_no (default 1 (chapter_number chapter_data)))
    (default [] (scenes chapter_data)) g.

Definition add_act {F : Type} {N : Num F} {H : Half F} (g : Graph F) (act_data : ActData F)
  : Graph F * option GraphExn :=
  for_each (add_chapter (default 1 (act_number act_data)))
    (default [] (chapters act_data)) g.

Definition add_decision {F : Type} (g : Graph F) (decision : DecisionData)
  : Graph F * option GraphExn :=
  match decision_code decision with
  | Some code =>
      (add_node g
         {| node_id := "decision_" +:+ py_str code; node_type := "decision";
            title := default ""%string (decision_title decision);
            act := 1; chapter := 1; scene := 1 |},
       None)
  | None => (g, Some (KeyError "decision_code"))
  end.

Definition add_ending {F : Type} (g : Graph F) (ending : EndingData)
  : Graph F * option GraphExn :=
  match ending_code ending with
  | Some code =>
      (add_node g
         {| node_id := "ending_" +:+ py_str code; node_type := "ending";
            title := default ""%string (ending_title ending);
            act := 1; chapter := 1; scene := 1 |},
       None)
  | None => (g, Some (KeyError "code"))
  end.

(** [build_from_campaign_data], on the graph [g] it is called on. *)
Definition build_from_campaign_data {F : Type} {N : Num F} {H : Half F} (g : Graph F)
  (campaign_data : CampaignData F) : Graph F * option GraphExn :=
  match for_each add_act (default [] (campaign_acts campaign_data)) g with
  | (g, Some e) => (g, Some e)
  | (g, None) =>
      match for_each add_decision (default [] (campaign_decisions campaign_data)) g with
      | (g, Some e) => (g, Some e)
      | (g, None) => for_each add_ending (default [] (campaign_endings campaign_data)) g
      end
  end.

(** What every graph built from campaign data alone satisfies: it is
    well-formed, its decision points are nodes, every edge joins two
    "scene_" nodes, and every ending is an "ending_" node. *)
Definition campaign_graph {F : Type} (g : Graph F) : Prop :=
  wf g /\ decisions_are_nodes g
  /\ (forall u v d, In ((u, v), d) (edges g) ->
        String.prefix "scene_" u = true /\ String.prefix "scene_" v = true)
  /\ (forall e, In e (_endings g) -> String.prefix "ending_" e = true).

(** A scene A that leads to a decision D and to a scene B; D leads to the
    ending E. *)
Definition crossroads : Graph Q :=
  add_edge
    (add_edge
       (add_edge
          (add_node
             (add_node
                (add_node (add_node empty (scene_node "A")) (scene_node "B"))
                {| node_id := "D"; node_type := "decision"; title := "La encrucijada";
                   act := 1; chapter := 1; scene := 2 |})
             (ending_node "E"))
          {| from_node := "A"; to_node := "D"; condition := None;
             probability := 1%Q; label := None |})
       {| from_node := "A"; to_node := "B"; condition := None;
          probability := 1%Q; label := None |})
    {| from_node := "D"; to_node := "E"; condition := None;
       probability := 1%Q; label := None |}.

(** A campaign of one act with two scenes, the first leading to the second
    by default and branching to a scene 7 that is not described, one decision
    and one ending. *)
Definition small_campaign : CampaignData Q :=
  {| campaign_acts :=
       Some [ {| act_number := Some 1;
                 chapters :=
                   Some [ {| chapter_number := Some 1;
                             scenes :=
                               Some [ {| scene_id := Some (PyInt 1);
                                         scene_title := Some "Llegada"%string;
                                         scene_order := Some 1;
                                         next_scene_default := Some (PyInt 2);
                                         branch_triggers :=
                                           Some [ {| target_scene := Some (PyInt 7);
                                                     branch_condition :=
                                                       Some "flag_x:true"%string;
                                                     branch_probability := None;
                                                     branch_label := None |} ] |};
                                      {| scene_id := Some (PyInt 2);
                                         scene_title := Some "El salón"%string;
                                         scene_order := Some 2;
                                         next_scene_default := None;
                                         branch_triggers := None |} ] |} ] |} ];
     campaign_decisions :=
       Some [ {| decision_code := Some (PyStr "trust_varen");
                 decision_title := Some "Confiar en Varen"%string |} ];
     campaign_endings :=
       Some [ {| ending_code := Some (PyStr "good");
                 ending_title := Some "Final bueno"%string |} ] |}.

(** C9. In the scenario graph with flag_x false (or absent), the weight of
    the path from A to C is 0.5 x 0.1 = 0.05, in binary64 as in exact
    arithmetic, and the probabilities computed from A are 100.0 for C alone
    (1000/10 in exact arithmetic). *)
Theorem scenario_flag_x_false (nx_trivial_path : bool) :
  _calculate_path_weight (fork 1 0.5)%float [ "A"; "C" ]%string ∅ flag_x_false = 0.05%float
  /\ (0.5 * 0.1 = 0.05)%float
  /\ _calculate_path_weight (fork 1 0.5)%float [ "A"; "C" ]%string ∅ ∅ = 0.05%float
  /\ calculate_ending_probabilities nx_trivial_path (fork 1 0.5)%float "A" ∅ flag_x_false
     = Ok [ ("C"%string, 100%float) ]
  /\ calculate_ending_probabilities nx_trivial_path (fork 1 0.5)%float "A" ∅ ∅
     = Ok [ ("C"%string, 100%float) ]
  /\ _calculate_path_weight (fork 1 (1 # 2))%Q [ "A"; "C" ]%string ∅ flag_x_false
     = (1 # 20)%Q
  /\ calculate_ending_probabilities nx_trivial_path (fork 1 (1 # 2))%Q "A" ∅ flag_x_false
     = Ok [ ("C"%string, (1000 # 10)%Q) ].
Proof.
  destruct nx_trivial_path; vm_compute; repeat split; reflexivity.
Qed.

(** With the flag set the penalty is not applied: the weight is 0.5. *)
Example scenario_flag_x_true :
  _calculate_path_weight (fork 1 0.5)%float [ "A"; "C" ]%string ∅
    (<["flag_x" := PyBool true]> ∅) = 0.5%float.
Proof. vm_compute. reflexivity. Qed.

Lemma absent_node_raises_witness :
  has_node (fork 1 0.5)%float "scene_9" = false
  /\ calculate_ending_probabilities true (fork 1 0.5)%float "scene_9" ∅ ∅
     = Raise (NodeNotFound "source node scene_9 not in graph").
Proof.
  split; [reflexivity |].
  apply (absent_node_raises true (fork 1 0.5)%float "scene_9" ∅ ∅).
  - reflexivity.
  - discriminate.
Defined.

(** C10, as stated, fails on a graph without endings, such as the empty
    graph the ending endpoint of main.py creates when none is cached: the
    current node is not in the graph and both queries return the empty
    result. *)
Lemma absent_node_counterexample :
  has_node (empty (F := float)) "scene_1" = false
  /\ find_paths_to_endings true (empty (F := float)) "scene_1" = Ok []
  /\ find_paths_to_endings false (empty (F := float)) "scene_1" = Ok []
  /\ calculate_ending_probabilities true (empty (F := float)) "scene_1" ∅ ∅ = Ok []
  /\ calculate_ending_probabilities false (empty (F := float)) "scene_1" ∅ ∅ = Ok [].
Proof. repeat split; reflexivity. Qed.


(** An ending reached only through an edge of probability 0.0 has weight 0:
    the total is not positive, nothing is normalised, and the values sum
    to 0. *)
Lemma zero_weight_not_normalised :
  calculate_ending_probabilities true (star 0%float [ "E1" ]%string) "A" ∅ ∅
  = Ok [ ("E1"%string, 0%float) ]
  /\ ~ sums_to_100 [ ("E1"%string, 0%float) ].
Proof.
  split; [vm_compute; reflexivity |].
  unfold sums_to_100. apply Qlt_not_le. vm_compute. reflexivity.
Qed.

(** *** Exact arithmetic: the sum of the percentages *)

Lemma round_half_even_close (num den : Z) :
  0 < den -> Z.abs (2 * (round_half_even num den * den - num)) <= den.
Proof.
  intros Hden. unfold round_half_even.
  pose proof (Z.div_mod num den ltac:(lia)) as Hdm.
  pose proof (Z.mod_pos_bound num den Hden) as Hr.
  set (q := num / den) in *. set (r := num mod den) in *.
  destruct (Z.ltb_spec (2 * r) den); [nia |].
  destruct (Z.ltb_spec den (2 * r)); [nia |].
  destruct (Z.even q); nia.
Qed.

Lemma half_away (y : Q) (n : Z) :
  Z.abs (2 * (n * Z.pos (Qden y) - Qnum y)) <= Z.pos (Qden y) ->
  (- (1 # 2) <= inject_Z n - y <= 1 # 2)%Q.
Proof.
  destruct y as [a d]. simpl. intros Hc.
  unfold Qle, Qminus, Qplus, Qopp, inject_Z. simpl. rewrite ?Pos.mul_1_l. lia.
Qed.

Lemma Qround1_close (x : Q) : (Qabs (Qround1 x - x) <= 1 # 20)%Q.
Proof.
  unfold Qround1.
  pose proof (half_away (x * 10)%Q _
                (round_half_even_close (Qnum (x * 10)) (Z.pos (Qden (x * 10))) ltac:(lia)))
    as Hy.
  set (n := round_half_even (Qnum (x * 10)) (Z.pos (Qden (x * 10)))) in *. clearbody n.
  apply Qabs_Qle_condition.
  set (z := inject_Z n) in *. clearbody z.
  unfold Qdiv. change (/ 10)%Q with (1 # 10)%Q.
  destruct Hy as [Hlo Hhi]. split; lra.
Qed.

Lemma Qsum_round (xs : list Q) :
  (Qabs (Qsum (map Qround1 xs) - Qsum xs) <= inject_Z (Z.of_nat (length xs)) * (1 # 20))%Q.
Proof.
  induction xs as [| x xs IH].
  - vm_compute. discriminate.
  - pose proof (Qround1_close x) as Hx.
    apply Qabs_Qle_condition in Hx. apply Qabs_Qle_condition in IH.
    apply Qabs_Qle_condition.
    change (Qsum (map Qround1 (x :: xs))) with (Qround1 x + Qsum (map Qround1 xs))%Q.
    change (Qsum (x :: xs)) with (x + Qsum xs)%Q.
    replace (Z.of_nat (length (x :: xs))) with (1 + Z.of_nat (length xs))%Z
      by (simpl length; lia).
    rewrite inject_Z_plus.
    set (k := inject_Z (Z.of_nat (length xs))) in *.
    change (inject_Z 1) with 1%Q.
    split; lra.
Qed.

Lemma Qsum_scaled (l : list Q) (T : Q) :
  (Qsum (map (fun p => p / T * 100) l) == Qsum l / T * 100)%Q.
Proof.
  induction l as [| p l IH]; simpl.
  - unfold Qdiv. ring.
  - rewrite IH. unfold Qdiv. ring.
Qed.

Lemma total_of_Qsum (l : list (string * Q)) (a : Q) :
  (fold_left (fun total p => add total (snd p)) l a == a + Qsum (map snd l))%Q.
Proof.
  revert a. induction l as [| p l IH]; intros a; simpl.
  - ring.
  - rewrite IH. ring.
Qed.

Lemma exact_gt_zero (x : Q) : gt x zero = true <-> (0 < x)%Q.
Proof.
  simpl. rewrite negb_true_iff. split.
  - intros H. apply Qnot_le_lt. intros Hle. apply Qle_bool_iff in Hle. congruence.
  - intros H. destruct (Qle_bool x 0) eqn:E; [| reflexivity].
    apply Qle_bool_iff in E. lra.
Qed.

Lemma get_edge_In (l : list ((string * string) * EdgeData Q)) (u v : string) (d : EdgeData Q) :
  get_edge l u v = Some d -> exists u' v', In ((u', v'), d) l.
Proof.
  induction l as [| [[u' v'] d'] l IH]; simpl; [discriminate |].
  destruct (String.eqb u u' && String.eqb v v').
  - intros H. inversion H; subst. exists u', v'. now left.
  - intros H. destruct (IH H) as (a & b & Hab). exists a, b. now right.
Qed.

Lemma weigh_positive (g : Graph Q) (path : list string) (dm : gmap string string)
  (fl : gmap string PyVal) (w : Q) :
  positive_edges g -> (0 < w)%Q -> (0 < weigh g path dm fl w)%Q.
Proof.
  intros Hpos. revert w. induction path as [| u path IH]; intros w Hw; [exact Hw |].
  destruct path as [| v rest]; [exact Hw |].
  cbn [weigh]. apply IH.
  assert (Hbase : (0 < match get_edge (edges g) u v with
                       | Some d => edge_probability d
                       | None => one
                       end)%Q).
  { destruct (get_edge (edges g) u v) as [d |] eqn:E.
    - apply get_edge_In in E. destruct E as (a & b & Hab). eapply Hpos; exact Hab.
    - simpl. lra. }
  set (base := match get_edge (edges g) u v with
               | Some d => edge_probability d
               | None => one
               end) in *.
  assert (Hm : (0 < mul w base)%Q) by (simpl; nra).
  destruct (match get_edge (edges g) u v with
            | Some d => edge_condition d
            | None => None
            end) as [c |]; [| exact Hm].
  destruct (negb (String.eqb c "") && negb (_check_condition c dm fl)); [| exact Hm].
  simpl in *. nra.
Qed.

Lemma best_weight_positive (ws : list Q) :
  ws <> [] -> Forall (fun w => (0 < w)%Q) ws -> (0 < best_weight ws)%Q.
Proof.
  destruct ws as [| w ws]; [congruence |]. intros _ H.
  apply List.Forall_cons_iff in H. destruct H as [Hw Hws]. simpl.
  revert w Hw. induction ws as [| x ws IH]; intros w Hw; simpl; [exact Hw |].
  apply List.Forall_cons_iff in Hws. destruct Hws as [Hx Hws].
  destruct (negb (Qle_bool x w)); apply IH; assumption.
Qed.

Lemma raw_weights_positive (g : Graph Q) (l : list (string * list (list string)))
  (dm : gmap string string) (fl : gmap string PyVal) :
  positive_edges g -> (forall e ps, In (e, ps) l -> ps <> []) ->
  Forall (fun w => (0 < w)%Q) (map snd (ending_weights g l dm fl)).
Proof.
  intros Hpos Hne. unfold ending_weights. rewrite map_map.
  apply List.Forall_forall. intros w Hw. apply in_map_iff in Hw.
  destruct Hw as ([e ps] & <- & Hin). simpl.
  apply best_weight_positive.
  - intros E. apply map_eq_nil in E. eapply Hne; eassumption.
  - apply List.Forall_forall. intros x Hx. apply in_map_iff in Hx.
    destruct Hx as (path & <- & _). unfold _calculate_path_weight.
    apply weigh_positive; [exact Hpos | simpl; lra].
Qed.

Lemma Qsum_positive (ws : list Q) :
  ws <> [] -> Forall (fun w => (0 < w)%Q) ws -> (0 < Qsum ws)%Q.
Proof.
  intros Hne H. induction H as [| w ws Hw Hws IH]; [congruence |]. simpl.
  destruct ws as [| w' ws'].
  - simpl. lra.
  - assert (0 < Qsum (w' :: ws'))%Q by (apply IH; discriminate). lra.
Qed.

Lemma calculate_normalise {F : Type} {N : Num F} (nx_trivial_path : bool) (g : Graph F)
  (cur : string) (dm : gmap string string) (fl : gmap string PyVal)
  (l : list (string * list (list string))) :
  find_paths_to_endings nx_trivial_path g cur = Ok l ->
  calculate_ending_probabilities nx_trivial_path g cur dm fl
  = Ok (normalise (ending_weights g l dm fl)).
Proof.
  intros El. unfold calculate_ending_probabilities. rewrite El. cbn [bind].
  unfold normalise. destruct l as [| x l].
  - simpl. now destruct (gt (total_of []) zero).
  - now destruct (gt (total_of (ending_weights g (x :: l) dm fl)) zero).
Qed.


Lemma normalise_exact (raw : list (string * Q)) :
  ((0 < Qsum (map snd raw))%Q ->
   (Qabs (Qsum (map snd (normalise raw)) - 100)
    <= inject_Z (Z.of_nat (length (normalise raw))) * (1 # 20))%Q)
  /\ (~ (0 < Qsum (map snd raw))%Q -> normalise raw = raw).
Proof.
  assert (Htot : (total_of raw == 0 + Qsum (map snd raw))%Q) by apply total_of_Qsum.
  unfold normalise. destruct (gt (total_of raw) zero) eqn:Egt.
  - apply exact_gt_zero in Egt. split; [| intros H; exfalso; apply H; lra].
    intros Hpos.
    assert (Evals : map snd (map (fun '(ending_id, p) =>
                       (ending_id, round1 (mul (div p (total_of raw)) hundred))) raw)
                    = map Qround1 (map (fun p => p / total_of raw * 100)%Q (map snd raw))).
    { rewrite !map_map. apply map_ext. now intros [e w]. }
    rewrite Evals, length_map.
    pose proof (Qsum_round (map (fun p => p / total_of raw * 100)%Q (map snd raw))) as Hr.
    pose proof (Qsum_scaled (map snd raw) (total_of raw)) as Hs.
    rewrite !length_map in Hr.
    assert (HS : (Qsum (map snd raw) == total_of raw)%Q).
    { rewrite Htot. ring. }
    assert (H100 : (Qsum (map snd raw) / total_of raw * 100 == 100)%Q).
    { rewrite HS. field. intros E. rewrite E in Egt. apply (Qlt_irrefl 0), Egt. }
    apply Qabs_Qle_condition in Hr. apply Qabs_Qle_condition.
    set (k := inject_Z (Z.of_nat (length raw))) in *.
    destruct Hr as [Hlo Hhi]. split; lra.
  - split; [| reflexivity].
    intros Hpos. assert (Hg : gt (total_of raw) zero = true) by (apply exact_gt_zero; lra).
    congruence.
Qed.

(** The idealised computation, in exact rational arithmetic (not the
    program, which runs on binary64 and can underflow, overflow and round).
    From a node of a well-formed graph the result is empty exactly when no
    ending is reached; otherwise it has one entry per reached ending.  When
    the total weight is positive (as it then is whenever every edge
    probability is positive), every value is rounded to one decimal, so the
    values sum to 100 within 0.05 per entry, hence within 0.1 for at most two
    entries.  When the total weight is not positive the weights are returned
    as they are. *)
Lemma ending_probabilities_exact (nx_trivial_path : bool) (g : Graph Q)
  (current_node : string) (decisions_made : gmap string string)
  (story_flags : gmap string PyVal) :
  wf g -> has_node g current_node = true ->
  let raw := raw_weights nx_trivial_path g current_node decisions_made story_flags in
  exists probabilities,
    calculate_ending_probabilities nx_trivial_path g current_node decisions_made story_flags
    = Ok probabilities
    /\ (probabilities = [] <->
        ~ exists e, In e (_endings g) /\ nx_reaches nx_trivial_path g current_node e)
    /\ (forall e, In e (map fst probabilities) <->
                  In e (_endings g) /\ nx_reaches nx_trivial_path g current_node e)
    /\ ((0 < Qsum (map snd raw))%Q ->
        (Qabs (Qsum (map snd probabilities) - 100)
         <= inject_Z (Z.of_nat (length probabilities)) * (1 # 20))%Q
        /\ ((length probabilities <= 2)%nat ->
            (Qabs (Qsum (map snd probabilities) - 100) <= 1 # 10)%Q))
    /\ (positive_edges g -> probabilities <> [] -> (0 < Qsum (map snd raw))%Q)
    /\ (~ (0 < Qsum (map snd raw))%Q -> probabilities = raw).
Proof.
  intros Hwf Hcur raw.
  destruct (ending_probabilities_keys nx_trivial_path g current_node decisions_made
              story_flags Hwf Hcur) as (probs & Ep & Hkeys & _ & Hempty).
  exists probs. split; [exact Ep |]. split; [exact Hempty |]. split; [exact Hkeys |].
  destruct (paths_to_spec nx_trivial_path g current_node (_endings g) Hwf Hcur)
    as (l & El & _ & Hne & _); [apply Hwf |].
  assert (Eraw : raw = ending_weights g l decisions_made story_flags).
  { unfold raw, raw_weights, find_paths_to_endings. now rewrite El. }
  rewrite (calculate_normalise nx_trivial_path g current_node decisions_made story_flags l El)
    in Ep.
  rewrite <- Eraw in Ep. injection Ep as Eprobs.
  assert (Hraw_pos : positive_edges g -> raw <> [] -> (0 < Qsum (map snd raw))%Q).
  { intros Hedges Hnil. apply Qsum_positive.
    - intros E. apply map_eq_nil in E. contradiction.
    - rewrite Eraw. apply raw_weights_positive; assumption. }
  clearbody raw. clear Eraw El Hne l.
  destruct (normalise_exact raw) as [Hbound Hsame]. rewrite Eprobs in Hbound, Hsame.
  split; [| split].
  - intros Hpos. split; [apply Hbound, Hpos |]. intros Hlen.
    eapply Qle_trans; [apply Hbound, Hpos |].
    assert (Hk : (inject_Z (Z.of_nat (length probs)) <= inject_Z 2)%Q).
    { rewrite <- Zle_Qle. lia. }
    change (inject_Z 2) with 2%Q in Hk. lra.
  - intros Hedges Hnil. apply Hraw_pos; [exact Hedges |].
    intros ->. apply Hnil. rewrite <- Eprobs. unfold normalise. simpl.
    now destruct (gt (total_of []) zero).
  - exact Hsame.
Qed.


(** Positive edge probabilities do not make the total positive on binary64:
    behind an edge of probability 1e-323 whose condition is not met, the
    weight 1e-323 * 0.1 underflows to 0, the total is 0 and the weight is
    returned as it is. *)
Example underflow_not_normalised :
  calculate_ending_probabilities true (fork 1 1e-323)%float "A" ∅ flag_x_false
  = Ok [ ("C"%string, 0%float) ].
Proof. vm_compute. reflexivity. Qed.

(** The scenario graph in exact arithmetic: C is the only ending reached
    from A, and its percentage is within 0.05 of 100. *)
Lemma ending_probabilities_exact_witness :
  wf (fork 1 (1 # 2))%Q
  /\ has_node (fork 1 (1 # 2))%Q "A" = true
  /\ exists probabilities,
      calculate_ending_probabilities true (fork 1 (1 # 2))%Q "A" ∅ flag_x_false
      = Ok probabilities
      /\ (forall e, In e (map fst probabilities) <->
                    In e (_endings (fork 1 (1 # 2))%Q)
                    /\ nx_reaches true (fork 1 (1 # 2))%Q "A" e).
Proof.
  assert (Hwf : wf (fork 1 (1 # 2))%Q).
  { unfold fork. repeat first [apply wf_add_edge | apply wf_add_node | apply wf_empty]. }
  split; [exact Hwf |]. split; [reflexivity |].
  destruct (ending_probabilities_exact true (fork 1 (1 # 2))%Q "A" ∅ flag_x_false Hwf
              eq_refl) as (probs & Ep & _ & Hkeys & _).
  exists probs. split; [exact Ep | exact Hkeys].
Defined.

(** *** Sample graph: paths, dead ends, decision points *)

Lemma crossroads_wf : wf crossroads.
Proof. unfold crossroads. repeat (apply wf_add_edge || apply wf_add_node). apply wf_empty. Qed.

Lemma crossroads_decisions : decisions_are_nodes crossroads.
Proof. intros d Hd. cbn in Hd. destruct Hd as [<- | []]. reflexivity. Qed.

Lemma find_paths_to_endings_simple_paths_witness :
  wf crossroads /\ has_node crossroads "A" = true
  /\ exists l, find_paths_to_endings true crossroads "A" = Ok l
               /\ forall ending_id, In ending_id (map fst l) <->
                    In ending_id (_endings crossroads)
                    /\ nx_reaches true crossroads "A" ending_id.
Proof.
  split; [exact crossroads_wf |]. split; [reflexivity |].
  destruct (find_paths_to_endings_simple_paths true crossroads "A" crossroads_wf eq_refl)
    as (l & El & Hkeys & _).
  exists l. split; assumption.
Defined.

(** From A the only ending is reached by the one path through D. *)
Example crossroads_paths :
  find_paths_to_endings true crossroads "A" = Ok [ ("E", [ [ "A"; "D"; "E" ] ]) ]%string
  /\ detect_dead_ends crossroads = [ "B"%string ]
  /\ get_decision_points_ahead crossroads "A" 5
     = Returns [ {| dp_node_id := "D"; dp_title := Some "La encrucijada"%string;
                    dp_depth := 1 |} ].
Proof. vm_compute. repeat split; reflexivity. Qed.

Lemma dead_end_reaches_no_ending_witness :
  wf crossroads /\ In "B"%string (detect_dead_ends crossroads)
  /\ calculate_ending_probabilities true crossroads "B" ∅ ∅ = Ok [].
Proof.
  assert (Hin : In "B"%string (detect_dead_ends crossroads)) by (vm_compute; tauto).
  split; [exact crossroads_wf |]. split; [exact Hin |].
  exact (proj2 (proj2 (proj2 (proj2
           (dead_end_reaches_no_ending true crossroads "B" ∅ ∅ crossroads_wf Hin))))).
Defined.

Lemma get_decision_points_ahead_spec_witness :
  wf crossroads /\ decisions_are_nodes crossroads
  /\ get_decision_points_ahead crossroads "Z" 5
     = Raises (NetworkXError "The node Z is not in the digraph.").
Proof.
  split; [exact crossroads_wf |]. split; [exact crossroads_decisions |].
  apply (proj1 (proj2 (get_decision_points_ahead_spec crossroads "Z" 5
                         crossroads_wf crossroads_decisions))).
  - lia.
  - reflexivity.
Defined.

Lemma get_branch_analysis_spec_witness :
  wf crossroads
  /\ get_branch_analysis true crossroads "Z"
     = Raises (NetworkXError "The node Z is not in the digraph.").
Proof.
  split; [exact crossroads_wf |].
  exact (proj1 (get_branch_analysis_spec true crossroads "Z" ∅ ∅ crossroads_wf) eq_refl).
Defined.

(** The scene A of the sample graph has two branches, none conditional, and
    reaches the ending E. *)
Example crossroads_branches :
  exists analysis,
    get_branch_analysis true crossroads "A" = Returns analysis
    /\ branch_count analysis = 2
    /\ map succ_node_id (branches analysis) = [ "D"; "B" ]%string
    /\ has_conditional_branches analysis = false
    /\ endings_reachable analysis = [ "E"%string ].
Proof. eexists. split; [vm_compute; reflexivity |]. repeat split. Qed.

(** *** Graphs built from campaign data *)

Lemma decisions_add_node {F : Type} (g : Graph F) (node : StoryNode) :
  decisions_are_nodes g -> decisions_are_nodes (add_node g node).
Proof.
  intros Hd d Hin. unfold has_node, add_node in *. cbn [nodes _decision_points] in *.
  apply str_in_In, has_node_put_node.
  destruct (String.eqb (node_type node) "ending").
  - right. apply str_in_In, Hd, Hin.
  - destruct (String.eqb (node_type node) "decision").
    + apply In_set_add in Hin. destruct Hin as [-> | Hin]; [now left |].
      right. apply str_in_In, Hd, Hin.
    + right. apply str_in_In, Hd, Hin.
Qed.

Lemma decisions_add_edge {F : Type} (g : Graph F) (e : StoryEdge F) :
  decisions_are_nodes g -> decisions_are_nodes (add_edge g e).
Proof.
  intros Hd d Hin. unfold has_node, add_edge in *. cbn [nodes _decision_points] in *.
  apply str_in_In. rewrite !has_node_touch_node. right; right. apply str_in_In, Hd, Hin.
Qed.

Lemma campaign_graph_empty {F : Type} : campaign_graph (empty (F := F)).
Proof.
  split; [apply wf_empty |]. split; [intros d [] |]. split; [intros u v d [] | intros e []].
Qed.

Lemma campaign_graph_add_node {F : Type} (g : Graph F) (node : StoryNode) :
  (node_type node = "ending"%string -> String.prefix "ending_" (node_id node) = true) ->
  campaign_graph g -> campaign_graph (add_node g node).
Proof.
  intros Hid (Hwf & Hdec & Hedges & Hends).
  split; [apply wf_add_node, Hwf |]. split; [apply decisions_add_node, Hdec |].
  split; [exact Hedges |].
  intros e He. unfold add_node in He. cbn [_endings] in He.
  destruct (String.eqb_spec (node_type node) "ending") as [Ht | _]; [| apply Hends, He].
  apply In_set_add in He. destruct He as [-> | He]; [apply Hid, Ht | apply Hends, He].
Qed.

Lemma campaign_graph_add_edge {F : Type} (g : Graph F) (e : StoryEdge F) :
  String.prefix "scene_" (from_node e) = true ->
  String.prefix "scene_" (to_node e) = true ->
  campaign_graph g -> campaign_graph (add_edge g e).
Proof.
  intros Hfrom Hto (Hwf & Hdec & Hedges & Hends).
  split; [apply wf_add_edge, Hwf |]. split; [apply decisions_add_edge, Hdec |].
  split; [| exact Hends].
  intros u v d Hin. unfold add_edge in Hin. cbn [edges] in Hin.
  apply In_put_edge in Hin. destruct Hin as [Hin | Hin]; [| eapply Hedges, Hin].
  inversion Hin; subst. auto.
Qed.

Lemma campaign_graph_for_each {F A : Type}
  (body : Graph F -> A -> Graph F * option GraphExn) (items : list A) :
  (forall g item, campaign_graph g -> campaign_graph (fst (body g item))) ->
  forall g, campaign_graph g -> campaign_graph (fst (for_each body items g)).
Proof.
  intros Hbody. induction items as [| item items IH]; intros g Hg; cbn [for_each]; [exact Hg |].
  specialize (Hbody g item Hg). destruct (body g item) as [g' [e |]]; cbn [fst] in *.
  - exact Hbody.
  - apply IH, Hbody.
Qed.

Lemma prefix_append (p x : string) : String.prefix p (p +:+ x) = true.
Proof.
  induction p as [| c p IH].
  - destruct x; reflexivity.
  - change (String c p +:+ x) with (String c (p +:+ x)). cbn [String.prefix].
    destruct (ascii_dec c c); [exact IH | congruence].
Qed.

Lemma campaign_graph_build {F : Type} {N : Num F} {H : Half F} (g : Graph F)
  (campaign_data : CampaignData F) :
  campaign_graph g -> campaign_graph (fst (build_from_campaign_data g campaign_data)).
Proof.
  intros Hg. unfold build_from_campaign_data.
  assert (Hacts : campaign_graph
                    (fst (for_each add_act (default [] (campaign_acts campaign_data)) g))).
  { apply campaign_graph_for_each; [| exact Hg]. clear. intros g act_data Hg.
    apply campaign_graph_for_each; [| exact Hg]. clear. intros g chapter_data Hg.
    apply campaign_graph_for_each; [| exact Hg]. clear. intros g scene_data Hg.
    unfold add_scene. destruct (scene_id scene_data) as [id |]; [| exact Hg].
    apply campaign_graph_for_each.
    - clear. intros g branch Hg. unfold add_branch.
      destruct (target_scene branch) as [target |]; [| exact Hg].
      cbn [fst]. apply campaign_graph_add_edge; [apply prefix_append | apply prefix_append | exact Hg].
    - assert (Hnode : campaign_graph
                        (add_node g
                           {| node_id := "scene_" +:+ py_str id; node_type := "scene";
                              title := default ""%string (scene_title scene_data);
                              act := default 1 (act_number act_data);
                              chapter := default 1 (chapter_number chapter_data);
                              scene := default 1 (scene_order scene_data) |})).
      { apply campaign_graph_add_node; [discriminate | exact Hg]. }
      destruct (next_scene_default scene_data) as [next |]; [| exact Hnode].
      destruct (truthy next); [| exact Hnode].
      apply campaign_graph_add_edge; [apply prefix_append | apply prefix_append | exact Hnode]. }
  destruct (for_each add_act (default [] (campaign_acts campaign_data)) g) as [g1 [e |]];
    cbn [fst] in *; [exact Hacts |].
  assert (Hdecs : campaign_graph
                    (fst (for_each add_decision
                            (default [] (campaign_decisions campaign_data)) g1))).
  { apply campaign_graph_for_each; [| exact Hacts]. clear. intros g decision Hg.
    unfold add_decision. destruct (decision_code decision) as [code |]; [| exact Hg].
    cbn [fst]. apply campaign_graph_add_node; [discriminate | exact Hg]. }
  destruct (for_each add_decision (default [] (campaign_decisions campaign_data)) g1)
    as [g2 [e |]]; cbn [fst] in *; [exact Hdecs |].
  apply campaign_graph_for_each; [| exact Hdecs]. clear. intros g ending Hg.
  unfold add_ending. destruct (ending_code ending) as [code |]; [| exact Hg].
  cbn [fst]. apply campaign_graph_add_node; [intros _; apply prefix_append | exact Hg].
Qed.

Lemma reachable_last_edge {F : Type} (g : Graph F) (a b : string) :
  reachable g a b -> a = b \/ exists u, edge g u b.
Proof.
  induction 1 as [a | a b c Hab _ IH]; [now left |].
  right. destruct IH as [<- | IH]; [now exists a | exact IH].
Qed.

Lemma prefix_clash (s : string) :
  String.prefix "scene_" s = true -> String.prefix "ending_" s = true -> False.
Proof.
  destruct s as [| c s]; [discriminate |]. cbn [String.prefix].
  destruct (ascii_dec "s" c) as [<- | _]; [| discriminate].
  destruct (ascii_dec "e" "s"); discriminate.
Qed.

(** X20. A graph that [build_from_campaign_data] builds from the empty graph
    (also what it leaves behind when a missing key stops it) is well-formed,
    every edge of it joins two "scene_" nodes and every ending is an
    "ending_" node: no edge leads into an ending.  So from every node of the
    graph that is not itself an ending, [find_paths_to_endings] and
    [calculate_ending_probabilities] return the empty result. *)
Theorem campaign_graph_reaches_no_ending {F : Type} {N : Num F} {H : Half F}
  (nx_trivial_path : bool) (campaign_data : CampaignData F) (current_node : string)
  (decisions_made : gmap string string) (story_flags : gmap string PyVal) :
  let g := fst (build_from_campaign_data empty campaign_data) in
  wf g
  /\ (forall u v d, In ((u, v), d) (edges g) ->
        String.prefix "scene_" u = true /\ String.prefix "scene_" v = true)
  /\ (forall e, In e (_endings g) -> String.prefix "ending_" e = true)
  /\ (forall u e, In e (_endings g) -> ~ edge g u e)
  /\ (has_node g current_node = true -> ~ In current_node (_endings g) ->
      find_paths_to_endings nx_trivial_path g current_node = Ok []
      /\ calculate_ending_probabilities nx_trivial_path g current_node
           decisions_made story_flags = Ok []).
Proof.
  cbv zeta.
  destruct (campaign_graph_build empty campaign_data campaign_graph_empty)
    as (Hwf & _ & Hedges & Hends).
  set (g := fst (build_from_campaign_data empty campaign_data)) in *.
  assert (Hnoedge : forall u e, In e (_endings g) -> ~ edge g u e).
  { intros u e He Hedge. apply edge_in_edges in Hedge. destruct Hedge as (d & Hd).
    destruct (Hedges _ _ _ Hd) as [_ Hv]. exact (prefix_clash e Hv (Hends e He)). }
  split; [exact Hwf |]. split; [exact Hedges |]. split; [exact Hends |].
  split; [exact Hnoedge |].
  intros Hnode Hnot.
  assert (Hnone : forall e, In e (_endings g) -> ~ nx_reaches nx_trivial_path g current_node e).
  { intros e He [[-> _] | [Hne Hr]]; [contradiction |].
    apply reachable_last_edge in Hr. destruct Hr as [-> | (u & Hu)]; [congruence |].
    exact (Hnoedge u e He Hu). }
  split.
  - unfold find_paths_to_endings.
    destruct (paths_to_spec nx_trivial_path g current_node (_endings g) Hwf Hnode)
      as (l & El & Hkeys & _).
    { apply Hwf. }
    rewrite El. destruct l as [| [e ps] l]; [reflexivity |]. exfalso.
    destruct (proj1 (Hkeys e) ltac:(now left)) as [He Hr]. exact (Hnone e He Hr).
  - destruct (ending_probabilities_keys nx_trivial_path g current_node decisions_made
                story_flags Hwf Hnode) as (probs & Ep & _ & _ & Hempty).
    rewrite Ep. f_equal. apply Hempty. intros (e & He & Hr). exact (Hnone e He Hr).
Qed.

(** The small campaign: both scenes and the scene the branch names are
    nodes, the ending is registered, and no ending has a probability from
    the first scene. *)
Example small_campaign_graph :
  let g := fst (build_from_campaign_data empty small_campaign) in
  snd (build_from_campaign_data empty small_campaign) = None
  /\ map fst (nodes g)
     = [ "scene_1"; "scene_2"; "scene_7"; "decision_trust_varen"; "ending_good" ]%string
  /\ _endings g = [ "ending_good"%string ]
  /\ calculate_ending_probabilities true g "scene_1" ∅ ∅ = Ok [].
Proof. vm_compute. repeat split; reflexivity. Qed.

End StoryGraph.

(** ** models/action.py and services/narrative_analyzer.py *)

Module NarrativeAnalyzer.
Import Py Config.

Inductive ActionType : Type :=
| DIALOGUE | EXPLORATION | COMBAT | STEALTH | SOCIAL | INVESTIGATION | ITEM_USE
| SKILL_CHECK | DECISION | REST | TRAVEL | MAGIC | NEUTRAL.

Inductive MoralAlignment : Type :=
| HEROIC | GOOD | NEUTRAL_ALIGNMENT | SELFISH | VILLAINOUS.

#[export] Instance ActionType_eq_dec : EqDecision ActionType.
Proof. solve_decision. Defined.

Record KarmaChange : Type := {
  action_code : string;
  amount : Z;
  reason : string
}.

Record PlayerAction : Type := {
  room_id : Z;
  user_id : Z;
  username : string;
  message : string;
  character_name : option string;
  character_class : option string;
  current_scene_type : option string;
  active_npcs : list string
}.

(** The fields [analyze] sets; the others keep their defaults. *)
Record ActionAnalysis : Type := {
  original_message : string;
  action_type : ActionType;
  moral_alignment : MoralAlignment;
  confidence : float;
  target_npc : option string;
  detected_intent : option string;
  karma_actions : list KarmaChange;
  total_karma_change : Z;
  triggers_decision : option string;
  npc_interactions : gmap string string;
  coherence_score : float;
  coherence_notes : list string
}.

(** The double quote, which a pattern of the dialogue table contains. *)
Definition dq : string := String (ascii_of_nat 34) EmptyString.

Definition ACTION_PATTERNS : list (ActionType * list string) :=
  [ (DIALOGUE,
     [ "\b(hablo|pregunto|digo|le digo|respondo|converso|menciono|susurro|grito)\b";
       "\b(hablar|preguntar|decir|responder|conversar|mencionar)\b";
       "^" +:+ dq +:+ ".*" +:+ dq +:+ "$" ]);
    (COMBAT,
     [ "\b(ataco|golpeo|disparo|lanzo|peleo|lucho|defiendo)\b";
       "\b(atacar|golpear|disparar|lanzar|pelear|luchar|defender)\b";
       "\b(espada|arco|hacha|daga|magia ofensiva)\b" ]);
    (STEALTH,
     [ "\b(me escondo|me oculto|sigilosamente|en las sombras|sin ser visto)\b";
       "\b(esconder|ocultar|sigilo|sombras|infiltrar)\b";
       "\b(robo|hurto|pickpocket)\b" ]);
    (EXPLORATION,
     [ "\b(exploro|examino|inspecciono|busco|miro|observo|registro)\b";
       "\b(explorar|examinar|inspeccionar|buscar|mirar|observar)\b";
       "\b(habitación|cuarto|lugar|zona|área)\b" ]);
    (INVESTIGATION,
     [ "\b(investigo|analizo|estudio|descifro|leo)\b";
       "\b(investigar|analizar|estudiar|descifrar|leer)\b";
       "\b(pista|evidencia|prueba|documento|carta)\b" ]);
    (SOCIAL,
     [ "\b(persuado|intimido|engaño|seduzco|negocio|convenzo)\b";
       "\b(persuadir|intimidar|engañar|seducir|negociar|convencer)\b" ]);
    (MAGIC,
     [ "\b(lanzo un hechizo|uso magia|conjuro|invoco|canalizo)\b";
       "\b(hechizo|magia|conjuro|invocación|ritual)\b" ]);
    (ITEM_USE,
     [ "\b(uso|utilizo|aplico|bebo|como|equipo)\b.*\b(poción|objeto|item|arma|armadura)\b";
       "\b(saco|tomo|agarro|cojo)\b.*\b(de mi|del|de la)\b" ]);
    (REST,
     [ "\b(descanso|duermo|espero|me siento|acampo)\b";
       "\b(descansar|dormir|esperar|sentarse|acampar)\b" ]);
    (TRAVEL,
     [ "\b(voy|camino|viajo|me dirijo|corro|huyo)\b";
       "\b(ir|caminar|viajar|dirigirse|correr|huir)\b";
       "\b(hacia|hasta|al|a la|norte|sur|este|oeste)\b" ]) ]%string.

Definition MORAL_PATTERNS : list (MoralAlignment * list string) :=
  [ (HEROIC,
     [ "\b(salvo|protejo|defiendo|ayudo|sacrifico)\b";
       "\b(inocente|débil|indefenso|necesitado)\b";
       "\b(justicia|honor|verdad|bien)\b" ]);
    (GOOD,
     [ "\b(ayudo|comparto|dono|perdono|curo)\b";
       "\b(amable|gentil|generoso|compasivo)\b" ]);
    (SELFISH,
     [ "\b(robo|engaño|miento|oculto|escondo)\b";
       "\b(para mí|beneficio propio|mi ganancia)\b";
       "\b(soborno|chantaje|extorsión)\b" ]);
    (VILLAINOUS,
     [ "\b(mato|asesino|torturo|destruyo|traiciono)\b";
       "\b(inocente|indefenso|desarmado)\b";
       "\b(crueldad|maldad|venganza ciega)\b" ]) ]%string.

Definition KARMA_PATTERNS : list (string * list string) :=
  [ ("helped_innocent",
     [ "\b(ayudo|salvo|protejo|defiendo)\b.*\b(inocente|civil|niño|anciano|débil)\b" ]);
    ("showed_mercy",
     [ "\b(perdono|dejo ir|muestro piedad|no mato)\b";
       "\b(misericordia|clemencia|compasión)\b" ]);
    ("kept_promise", [ "\b(cumplo|mantengo)\b.*\b(promesa|palabra|juramento)\b" ]);
    ("donated_to_poor",
     [ "\b(dono|doy|regalo|comparto)\b.*\b(pobre|necesitado|mendigo)\b";
       "\b(caridad|limosna)\b" ]);
    ("lied_for_gain", [ "\b(miento|engaño)\b.*\b(para|conseguir|obtener|beneficio)\b" ]);
    ("stole", [ "\b(robo|hurto|me llevo)\b.*\b(sin|que no)\b" ]);
    ("killed_unarmed", [ "\b(mato|asesino)\b.*\b(desarmado|indefenso|rendido)\b" ]);
    ("betrayed_ally", [ "\b(traiciono|abandono|vendo)\b.*\b(aliado|compañero|amigo)\b" ]);
    ("broke_promise", [ "\b(rompo|incumplo)\b.*\b(promesa|palabra|juramento)\b" ]) ]%string.

Definition NPC_INTERACTION_PATTERNS : list (string * list string) :=
  [ ("friendly", [ "\b(amablemente|cortésmente|con respeto|sonrío)\b" ]);
    ("hostile", [ "\b(amenaz|intimi|agresi|hostil|con desprecio)\b" ]);
    ("deceptive", [ "\b(miento|engaño|oculto la verdad|disimulo)\b" ]);
    ("confrontation", [ "\b(confronto|acuso|encaro|exijo)\b" ]);
    ("seductive", [ "\b(seduz|coquete|encant|atraigo)\b" ]);
    ("professional", [ "\b(formalmente|profesionalmente|negocios)\b" ]) ]%string.

Section Analyzer.

(** Python's [re] module, with [re.IGNORECASE]: [re_compile] is [None] when
    the pattern is rejected with [re.error]; [re_search] tells whether a
    compiled pattern matches somewhere in the text. *)
Variable regex : Type.
Variable re_compile : string -> option regex.
Variable re_search : regex -> string -> bool.

(** [re.search(pattern, text, re.IGNORECASE)] on a pattern given as a string. *)
Definition search (pattern text : string) : Result bool :=
  match re_compile pattern with
  | Some r => Ok (re_search r text)
  | None => Raise (ReError pattern)
  end.

(** The analyzer after [__init__]: the four tables, compiled. *)
Record Analyzer : Type := {
  _action_compiled : list (ActionType * list regex);
  _moral_compiled : list (MoralAlignment * list regex);
  _karma_compiled : list (string * list regex);
  _npc_compiled : list (string * list regex)
}.

Fixpoint compile_all (patterns : list string) : Result (list regex) :=
  match patterns with
  | [] => Ok []
  | p :: rest =>
      match re_compile p with
      | Some r => do rs <- compile_all rest; Ok (r :: rs)
      | None => Raise (ReError p)
      end
  end.

Fixpoint compile_table {K : Type} (table : list (K * list string))
  : Result (list (K * list regex)) :=
  match table with
  | [] => Ok []
  | (k, patterns) :: rest =>
      do rs <- compile_all patterns;
      do table' <- compile_table rest;
      Ok ((k, rs) :: table')
  end.

(** [NarrativeAnalyzer()] *)
Definition _compile_patterns : Result Analyzer :=
  do a <- compile_table ACTION_PATTERNS;
  do m <- compile_table MORAL_PATTERNS;
  do k <- compile_table KARMA_PATTERNS;
  do n <- compile_table NPC_INTERACTION_PATTERNS;
  Ok {| _action_compiled := a; _moral_compiled := m;
        _karma_compiled := k; _npc_compiled := n |}.

(** [sum(1 for p in patterns if p.search(message))] *)
Definition count_matches (patterns : list regex) (message : string) : Z :=
  Z.of_nat (length (List.filter (fun p => re_search p message) patterns)).

(** [max(scores, key=scores.get)]: the first key of greatest score. *)
Fixpoint first_max {K : Type} (best : K * float) (scores : list (K * float)) : K * float :=
  match scores with
  | [] => best
  | s :: rest => if PrimFloat.ltb (snd best) (snd s) then first_max s rest else first_max best rest
  end.

Definition _classify_action_type (self : Analyzer) (message : string) : ActionType * float :=
  let scores :=
    omap (fun '(action_type, patterns) =>
            let matches := count_matches patterns message in
            if 0 <? matches
            then Some (action_type, int_div matches (Z.of_nat (length patterns)))
            else None)
      (_action_compiled self) in
  match scores with
  | [] => (NEUTRAL, 0.5%float)
  | s :: rest =>
      let '(best_type, score) := first_max s rest in
      (best_type, float_min (score * 2)%float 1)
  end.

Definition _classify_moral_alignment (self : Analyzer) (message : string)
  : MoralAlignment * float :=
  let scores :=
    omap (fun '(alignment, patterns) =>
            let matches := count_matches patterns message in
            if 0 <? matches then Some (alignment, float_of_Z matches) else None)
      (_moral_compiled self) in
  match scores with
  | [] => (NEUTRAL_ALIGNMENT, 0.8%float)
  | s :: rest =>
      let '(best_alignment, score) := first_max s rest in
      (best_alignment, float_min (score * 0.3 + 0.5)%float 1)
  end.

Definition _detect_karma_actions (self : Analyzer) (message : string) : list KarmaChange :=
  omap (fun '(action_code, patterns) =>
          if existsb (fun p => re_search p message) patterns
          then Some {| action_code := action_code;
                       amount := default 0 (dict_get action_code KARMA_ACTIONS);
                       reason := "Acción detectada: " +:+ action_code |}
          else None)
    (_karma_compiled self).

(** The four patterns [_detect_target_npc] builds around an NPC code; the
    code is spliced in as it is. *)
Definition addressing_patterns (npc_code : string) : list string :=
  [ "\ba " +:+ npc_code +:+ "\b";
    "\bcon " +:+ npc_code +:+ "\b";
    "\ba l[ao]s? " +:+ npc_code +:+ "\b";
    "\bel/la " +:+ npc_code +:+ "\b" ]%string.

(** [any(re.search(p, text) for p in patterns)], left to right, stopping at
    the first match. *)
Fixpoint search_any (patterns : list string) (text : string) : Result bool :=
  match patterns with
  | [] => Ok false
  | p :: rest =>
      do found <- search p text;
      if found then Ok true else search_any rest text
  end.

Fixpoint detect_target (message_lower : string) (active_npcs : list string)
  : Result (option string) :=
  match active_npcs with
  | [] => Ok None
  | npc_code :: rest =>
      if contains (lower npc_code) message_lower then Ok (Some npc_code)
      else
        do found <- search_any (addressing_patterns npc_code) message_lower;
        if found then Ok (Some npc_code) else detect_target message_lower rest
  end.

Definition _detect_target_npc (message : string) (active_npcs : list string)
  : Result (option string) :=
  detect_target (lower message) active_npcs.

Definition _detect_npc_interactions (self : Analyzer) (message : string)
  (active_npcs : list string) : Result (gmap string string) :=
  do target <- _detect_target_npc message active_npcs;
  match target with
  | None => Ok ∅
  | Some t =>
      if String.eqb t "" then Ok ∅
      else
        let interactions :=
          fold_left
            (fun (acc : gmap string string) '(interaction_type, patterns) =>
               if existsb (fun p => re_search p message) patterns
               then <[t := interaction_type]> acc else acc)
            (_npc_compiled self) ∅ in
        match interactions !! t with
        | Some _ => Ok interactions
        | None => Ok (<[t := "neutral"%string]> interactions)
        end
  end.

(** The first key of a pattern dictionary whose pattern matches. *)
Fixpoint first_match (table : list (string * string)) (message : string)
  : Result (option string) :=
  match table with
  | [] => Ok None
  | (key, pattern) :: rest =>
      do found <- search pattern message;
      if found then Ok (Some key) else first_match rest message
  end.

(** The pattern dictionary local to [_detect_intent]. *)
Definition intent_patterns : list (string * string) :=
    [ ("interrogate", "\b(pregunt[oa]|interrog|cuestion)\b");
      ("persuade", "\b(convenc|persuad|negoci)\b");
      ("threaten", "\b(amenaz|intimi|adviert)\b");
      ("gather_info", "\b(averig|descubr|investig|busc)\b.*\b(información|pistas|verdad)\b");
      ("help", "\b(ayud|asist|socorr)\b");
      ("attack", "\b(atac|golpe|luch|pele)\b");
      ("hide", "\b(escond|ocult|escondi)\b");
      ("observe", "\b(observ|mir|examin|estudi)\b");
      ("negotiate", "\b(negoci|trat|acuerd|pacta)\b");
      ("deceive", "\b(engañ|ment|fals)\b") ]%string.

Definition _detect_intent (message : string) (action_type : ActionType)
  : Result (option string) :=
  do intent <- first_match intent_patterns message;
  match intent with
  | Some i => Ok (Some i)
  | None =>
      Ok (match action_type with
          | DIALOGUE => Some "communicate"%string
          | COMBAT => Some "attack"%string
          | STEALTH => Some "hide"%string
          | EXPLORATION => Some "explore"%string
          | INVESTIGATION => Some "gather_info"%string
          | _ => None
          end)
  end.

Definition _evaluate_coherence (action_type : ActionType) (scene_type : option string)
  : float * list string :=
  match scene_type with
  | None => (1%float, [])
  | Some scene =>
      if String.eqb scene "" then (1%float, [])
      else
        let scene_expected_actions : list (string * list ActionType) :=
          [ ("narrative", [ DIALOGUE; EXPLORATION ]);
            ("combat", [ COMBAT; MAGIC ]);
            ("puzzle", [ INVESTIGATION; ITEM_USE ]);
            ("social", [ DIALOGUE; SOCIAL ]);
            ("revelation", [ DIALOGUE; INVESTIGATION ]);
            ("decision", [ DIALOGUE; DECISION ]) ]%string in
        let expected := default [] (dict_get scene scene_expected_actions) in
        if bool_decide (action_type ∈ expected)
        then (1%float, [ "Acción coherente con la escena"%string ])
        else if bool_decide (action_type ∈ [ DIALOGUE; NEUTRAL ])
             then (0.9%float, [ "Acción generalmente aceptable"%string ])
             else if bool_decide (action_type = COMBAT) && negb (String.eqb scene "combat")
                  then (0.6%float,
                        [ "Acción de combate en escena no combativa - puede escalar la situación"%string ])
                  else if bool_decide (action_type = STEALTH) && String.eqb scene "social"
                       then (0.7%float,
                             [ "Intento de sigilo en situación social - puede parecer sospechoso"%string ])
                       else (0.8%float,
                             [ "Acción no típica para esta escena pero posible"%string ])
  end.

(** The pattern dictionary local to [_check_decision_triggers]. *)
Definition trigger_patterns : list (string * string) :=
    [ ("confrontation", "\b(acuso|confronto|encaro|exijo saber)\b");
      ("alliance", "\b(me uno|acepto|hago trato|alianza)\b");
      ("betrayal", "\b(traiciono|vendo|revelo secreto)\b");
      ("trust", "\b(confío|creo|le doy)\b.*\b(en|a)\b");
      ("refuse", "\b(rechazo|me niego|no acepto)\b") ]%string.

Definition _check_decision_triggers (message : string) : Result (option string) :=
  do trigger <- first_match trigger_patterns message;
  Ok (option_map (fun trigger_type => "trigger_" +:+ trigger_type) trigger).

Definition analyze (self : Analyzer) (action : PlayerAction) : Result ActionAnalysis :=
  let message := strip (lower (message action)) in
  let '(action_type, type_confidence) := _classify_action_type self message in
  let '(alignment, alignment_confidence) := _classify_moral_alignment self message in
  let karma_actions := _detect_karma_actions self message in
  do target_npc <- _detect_target_npc message (active_npcs action);
  do npc_interactions <- _detect_npc_interactions self message (active_npcs action);
  do intent <- _detect_intent message action_type;
  let '(coherence, coherence_notes) :=
    _evaluate_coherence action_type (current_scene_type action) in
  do decision_trigger <- _check_decision_triggers message;
  let confidence := ((type_confidence + alignment_confidence) / 2)%float in
  Ok {| original_message := NarrativeAnalyzer.message action;
        action_type := action_type;
        moral_alignment := alignment;
        confidence := confidence;
        target_npc := target_npc;
        detected_intent := intent;
        karma_actions := karma_actions;
        total_karma_change := fold_left Z.add (map amount karma_actions) 0;
        triggers_decision := decision_trigger;
        npc_interactions := npc_interactions;
        coherence_score := coherence;
        coherence_notes := coherence_notes |}.

(** *** Target detection can raise *)

(** C8 at the failing inputs. When the first active NPC code does not occur
    in the message and the pattern built around it is rejected by the regular
    expression library (as Python's [re] rejects the pattern built around an
    unclosed parenthesis), [analyze] raises that error. *)
Theorem analyze_raises_on_rejected_code (self : Analyzer) (action : PlayerAction)
  (npc_code : string) (rest : list string) :
  active_npcs action = npc_code :: rest ->
  contains (lower npc_code) (lower (strip (lower (message action)))) = false ->
  re_compile ("\ba " +:+ npc_code +:+ "\b") = None ->
  analyze self action = Raise (ReError ("\ba " +:+ npc_code +:+ "\b")).
Proof.
  intros Hnpcs Habsent Hrejected. unfold analyze.
  destruct (_classify_action_type self (strip (lower (message action)))) as [ty tc].
  destruct (_classify_moral_alignment self (strip (lower (message action)))) as [al ac].
  unfold _detect_target_npc. rewrite Hnpcs. cbn [detect_target].
  rewrite Habsent. cbn [addressing_patterns search_any]. unfold search.
  rewrite Hrejected. reflexivity.
Qed.

(** *** Defaults when nothing matches *)

Lemma count_matches_none (patterns : list regex) (message : string) :
  (forall r, re_search r message = false) -> count_matches patterns message = 0.
Proof.
  intros Hno. unfold count_matches.
  induction patterns as [| r patterns IH]; simpl; [reflexivity |].
  rewrite Hno. exact IH.
Qed.

Lemma existsb_none (patterns : list regex) (message : string) :
  (forall r, re_search r message = false) ->
  existsb (fun p => re_search p message) patterns = false.
Proof.
  intros Hno. induction patterns as [| r patterns IH]; simpl; [reflexivity |].
  now rewrite Hno.
Qed.

Lemma search_none (pattern message : string) :
  (forall r, re_search r message = false) -> re_compile pattern <> None ->
  search pattern message = Ok false.
Proof.
  intros Hno Hc. unfold search. destruct (re_compile pattern); [| congruence].
  now rewrite Hno.
Qed.

Lemma search_any_none (patterns : list string) (message : string) :
  (forall r, re_search r message = false) ->
  (forall p, In p patterns -> re_compile p <> None) ->
  search_any patterns message = Ok false.
Proof.
  intros Hno. induction patterns as [| p patterns IH]; intros Hc; simpl; [reflexivity |].
  rewrite search_none; [| exact Hno | apply Hc; now left]. cbn [bind].
  apply IH. intros q Hq. apply Hc. now right.
Qed.

Lemma first_match_none (table : list (string * string)) (message : string) :
  (forall r, re_search r message = false) ->
  (forall k p, In (k, p) table -> re_compile p <> None) ->
  first_match table message = Ok None.
Proof.
  intros Hno. induction table as [| [k p] table IH]; intros Hc; simpl; [reflexivity |].
  rewrite search_none; [| exact Hno | eapply Hc; now left]. cbn [bind].
  apply IH. intros k' q Hq. eapply Hc. right. exact Hq.
Qed.

Lemma detect_target_none (message_lower : string) (npcs : list string) :
  (forall r, re_search r message_lower = false) ->
  (forall c, In c npcs -> contains (lower c) message_lower = false) ->
  (forall c p, In c npcs -> In p (addressing_patterns c) -> re_compile p <> None) ->
  detect_target message_lower npcs = Ok None.
Proof.
  intros Hno. induction npcs as [| c npcs IH]; intros Habsent Hc; cbn [detect_target];
    [reflexivity |].
  rewrite Habsent by now left.
  rewrite search_any_none; [| exact Hno | intros p Hp; eapply Hc; [now left | exact Hp]].
  cbn [bind]. apply IH.
  - intros c' Hc'. apply Habsent. now right.
  - intros c' p Hc' Hp. eapply Hc; [right; exact Hc' | exact Hp].
Qed.

Lemma omap_all_none {A B : Type} (f : A -> option B) (l : list A) :
  (forall x, f x = None) -> omap f l = [].
Proof.
  intros H. induction l as [| x l IH]; simpl; [reflexivity |]. now rewrite H.
Qed.

(** When no pattern matches the message, no active NPC code occurs in it,
    and the library accepts the patterns it is given, [analyze] returns the
    documented defaults. *)
Lemma analyze_defaults (self : Analyzer) (action : PlayerAction) :
  let text := strip (lower (message action)) in
  (forall r, re_search r text = false) ->
  (forall r, re_search r (lower text) = false) ->
  (forall c, In c (active_npcs action) -> contains (lower c) (lower text) = false) ->
  (forall c p, In c (active_npcs action) -> In p (addressing_patterns c) ->
               re_compile p <> None) ->
  (forall k p, In (k, p) (intent_patterns ++ trigger_patterns) -> re_compile p <> None) ->
  exists analysis,
    analyze self action = Ok analysis
    /\ action_type analysis = NEUTRAL
    /\ moral_alignment analysis = NEUTRAL_ALIGNMENT
    /\ karma_actions analysis = []
    /\ total_karma_change analysis = 0
    /\ target_npc analysis = None
    /\ npc_interactions analysis = ∅.
Proof.
  intros text Hno Hno' Habsent Hcodes Hinline. unfold analyze. fold text.
  assert (Ety : _classify_action_type self text = (NEUTRAL, 0.5%float)).
  { unfold _classify_action_type. rewrite omap_all_none; [reflexivity |].
    intros [ty ps]. now rewrite count_matches_none. }
  assert (Eal : _classify_moral_alignment self text = (NEUTRAL_ALIGNMENT, 0.8%float)).
  { unfold _classify_moral_alignment. rewrite omap_all_none; [reflexivity |].
    intros [al ps]. now rewrite count_matches_none. }
  assert (Eka : _detect_karma_actions self text = []).
  { unfold _detect_karma_actions. apply omap_all_none.
    intros [code ps]. now rewrite existsb_none. }
  assert (Etg : _detect_target_npc text (active_npcs action) = Ok None).
  { unfold _detect_target_npc. now apply detect_target_none. }
  rewrite Ety, Eal, Eka. unfold _detect_npc_interactions. rewrite Etg. cbn [bind].
  unfold _detect_intent, _check_decision_triggers.
  rewrite !first_match_none; try exact Hno;
    try (intros k p Hkp; eapply Hinline; apply in_app_iff; eauto).
  cbn [bind option_map].
  destruct (_evaluate_coherence NEUTRAL (current_scene_type action)) as [co notes].
  eexists. split; [reflexivity |]. cbn. repeat split; reflexivity.
Qed.

(** *** The compiled tables *)

Lemma compile_table_keys {K : Type} (table : list (K * list string))
  (compiled : list (K * list regex)) :
  compile_table table = Ok compiled -> map fst compiled = map fst table.
Proof.
  revert compiled. induction table as [| [k ps] table IH]; intros compiled; cbn [compile_table].
  - intros E. inversion E. reflexivity.
  - destruct (compile_all ps) as [rs | e]; cbn [bind]; [| discriminate].
    destruct (compile_table table) as [table' | e]; cbn [bind]; [| discriminate].
    intros E. inversion E; subst. cbn [map fst]. f_equal. now apply IH.
Qed.

(** *** When the analysis returns *)

Lemma search_total (pattern text : string) :
  re_compile pattern <> None -> exists found, search pattern text = Ok found.
Proof.
  intros Hc. unfold search. destruct (re_compile pattern) as [r |]; [| congruence].
  now eexists.
Qed.

Lemma search_any_total (patterns : list string) (text : string) :
  (forall p, In p patterns -> re_compile p <> None) ->
  exists found, search_any patterns text = Ok found.
Proof.
  induction patterns as [| p patterns IH]; intros Hc; cbn [search_any]; [now eexists |].
  destruct (search_total p text) as (found & ->); [apply Hc; now left |]. cbn [bind].
  destruct found; [now eexists |]. apply IH. intros q Hq. apply Hc. now right.
Qed.

Lemma first_match_total (table : list (string * string)) (message : string) :
  (forall k p, In (k, p) table -> re_compile p <> None) ->
  exists found, first_match table message = Ok found.
Proof.
  induction table as [| [k p] table IH]; intros Hc; cbn [first_match]; [now eexists |].
  destruct (search_total p message) as (found & ->); [eapply Hc; now left |]. cbn [bind].
  destruct found; [now eexists |]. apply IH. intros k' q Hq. eapply Hc. right. exact Hq.
Qed.

(** The target is one of the active NPCs. *)
Lemma detect_target_member (message_lower : string) (active_npcs : list string)
  (target : string) :
  detect_target message_lower active_npcs = Ok (Some target) -> In target active_npcs.
Proof.
  induction active_npcs as [| c npcs IH]; cbn [detect_target]; [discriminate |].
  destruct (contains (lower c) message_lower).
  - intros E. inversion E. now left.
  - destruct (search_any (addressing_patterns c) message_lower) as [found | e];
      cbn [bind]; [| discriminate].
    destruct found.
    + intros E. inversion E. now left.
    + intros E. right. apply IH, E.
Qed.

Lemma detect_target_total (message_lower : string) (active_npcs : list string) :
  (forall c p, In c active_npcs -> In p (addressing_patterns c) -> re_compile p <> None) ->
  exists target, detect_target message_lower active_npcs = Ok target.
Proof.
  induction active_npcs as [| c npcs IH]; intros Hc; cbn [detect_target]; [now eexists |].
  destruct (contains (lower c) message_lower); [now eexists |].
  destruct (search_any_total (addressing_patterns c) message_lower) as (found & ->).
  { intros p Hp. eapply Hc; [now left | exact Hp]. }
  cbn [bind]. destruct found; [now eexists |].
  apply IH. intros c' p Hc' Hp. eapply Hc; [right; exact Hc' | exact Hp].
Qed.

(** What the interaction map can be for a target. *)
Lemma npc_interactions_shape (self : Analyzer) (message target : string) :
  let interactions :=
    fold_left
      (fun (acc : gmap string string) '(interaction_type, patterns) =>
         if existsb (fun p => re_search p message) patterns
         then <[target := interaction_type]> acc else acc)
      (_npc_compiled self) ∅ in
  interactions = ∅
  \/ exists kind, In kind (map fst (_npc_compiled self)) /\ interactions = {[target := kind]}.
Proof.
  cbv zeta.
  assert (H : forall table (acc : gmap string string),
             (acc = ∅ \/ exists kind, In kind (map fst (_npc_compiled self))
                                      /\ acc = {[target := kind]}) ->
             (forall x, In x table -> In (fst x) (map fst (_npc_compiled self))) ->
             let r := fold_left
                        (fun (acc : gmap string string) '(interaction_type, patterns) =>
                           if existsb (fun p => re_search p message) patterns
                           then <[target := interaction_type]> acc else acc)
                        table acc in
             r = ∅ \/ exists kind, In kind (map fst (_npc_compiled self))
                                   /\ r = {[target := kind]}).
  { induction table as [| [kind ps] table IH]; intros acc Hacc Hin; cbn [fold_left];
      [exact Hacc |].
    apply IH; [| intros x Hx; apply Hin; now right].
    destruct (existsb (fun p => re_search p message) ps); [| exact Hacc].
    right. exists kind. split; [apply (Hin (kind, ps)); now left |].
    destruct Hacc as [-> | (k & _ & ->)].
    - apply insert_empty.
    - apply insert_singleton_eq. }
  apply H; [now left |]. intros x Hx. now apply in_map.
Qed.

(** X21. [analyze] returns (it does not raise) whenever the library accepts
    the patterns built around the active NPC codes and the fixed patterns of
    the intent and trigger tables; in particular whenever there is no active
    NPC. *)
Theorem analyze_returns (self : Analyzer) (action : PlayerAction) :
  (forall k p, In (k, p) (intent_patterns ++ trigger_patterns) -> re_compile p <> None) ->
  (forall c p, In c (active_npcs action) -> In p (addressing_patterns c) ->
               re_compile p <> None) ->
  exists analysis, analyze self action = Ok analysis.
Proof.
  intros Hinline Hcodes. unfold analyze.
  destruct (_classify_action_type self (strip (lower (message action)))) as [ty tc].
  destruct (_classify_moral_alignment self (strip (lower (message action)))) as [al ac].
  unfold _detect_npc_interactions, _detect_target_npc.
  destruct (detect_target_total (lower (strip (lower (message action)))) (active_npcs action)
              Hcodes) as (target & ->).
  cbn [bind].
  assert (Hi : exists interactions,
             match target with
             | Some t =>
                 if String.eqb t "" then Ok ∅
                 else
                   match
                     fold_left
                       (fun (acc : gmap string string) '(interaction_type, patterns) =>
                          if existsb (fun p => re_search p (strip (lower (message action))))
                               patterns
                          then <[t := interaction_type]> acc else acc)
                       (_npc_compiled self) ∅ !! t
                   with
                   | Some _ =>
                       Ok (fold_left
                             (fun (acc : gmap string string) '(interaction_type, patterns) =>
                                if existsb
                                     (fun p => re_search p (strip (lower (message action))))
                                     patterns
                                then <[t := interaction_type]> acc else acc)
                             (_npc_compiled self) ∅)
                   | None =>
                       Ok (<[t := "neutral"%string]>
                             (fold_left
                                (fun (acc : gmap string string) '(interaction_type, patterns) =>
                                   if existsb
                                        (fun p => re_search p (strip (lower (message action))))
                                        patterns
                                   then <[t := interaction_type]> acc else acc)
                                (_npc_compiled self) ∅))
                   end
             | None => Ok ∅
             end = Ok interactions).
  { destruct target as [t |]; [| now eexists].
    destruct (String.eqb t ""); [now eexists |].
    match goal with |- context [match ?m !! t with Some _ => _ | None => _ end] =>
      destruct (m !! t) end; now eexists. }
  destruct Hi as (interactions & ->). cbn [bind].
  unfold _detect_intent, _check_decision_triggers.
  destruct (first_match_total intent_patterns (strip (lower (message action)))) as (i & ->).
  { intros k p Hkp. eapply Hinline. apply in_app_iff. left. exact Hkp. }
  cbn [bind].
  assert (Ei : exists intent,
             match i with
             | Some i0 => Ok (Some i0)
             | None =>
                 Ok match ty with
                    | DIALOGUE => Some "communicate"%string
                    | COMBAT => Some "attack"%string
                    | STEALTH => Some "hide"%string
                    | EXPLORATION => Some "explore"%string
                    | INVESTIGATION => Some "gather_info"%string
                    | _ => None
                    end
             end = Ok intent) by (destruct i; now eexists).
  destruct Ei as (intent & ->). cbn [bind].
  destruct (_evaluate_coherence ty (current_scene_type action)) as [co notes].
  destruct (first_match_total trigger_patterns (strip (lower (message action)))) as (t & ->).
  { intros k p Hkp. eapply Hinline. apply in_app_iff. right. exact Hkp. }
  cbn [bind]. now eexists.
Qed.

(** X22. Whatever [analyze] returns: its target is one of the active NPCs;
    without a target (or with the empty code as target) the interaction map
    is empty; with a target it holds that NPC alone, with one of the six
    interaction types or "neutral". *)
Theorem analyze_target_and_interactions (self : Analyzer) (action : PlayerAction)
  (analysis : ActionAnalysis) :
  _compile_patterns = Ok self ->
  analyze self action = Ok analysis ->
  (forall t, target_npc analysis = Some t -> In t (active_npcs action))
  /\ (target_npc analysis = None \/ target_npc analysis = Some ""%string ->
      npc_interactions analysis = ∅)
  /\ (forall t, target_npc analysis = Some t -> t <> ""%string ->
        exists kind,
          npc_interactions analysis = {[t := kind]}
          /\ In kind [ "friendly"; "hostile"; "deceptive"; "confrontation"; "seductive";
                       "professional"; "neutral" ]%string).
Proof.
  intros Hself. unfold analyze.
  destruct (_classify_action_type self (strip (lower (message action)))) as [ty tc].
  destruct (_classify_moral_alignment self (strip (lower (message action)))) as [al ac].
  unfold _detect_npc_interactions, _detect_target_npc.
  destruct (detect_target (lower (strip (lower (message action)))) (active_npcs action))
    as [target | e] eqn:Et; cbn [bind]; [| discriminate].
  assert (Hkinds : map fst (_npc_compiled self) = map fst NPC_INTERACTION_PATTERNS).
  { unfold _compile_patterns in Hself.
    destruct (compile_table ACTION_PATTERNS) as [a |]; cbn [bind] in Hself; [| discriminate].
    destruct (compile_table MORAL_PATTERNS) as [m |]; cbn [bind] in Hself; [| discriminate].
    destruct (compile_table KARMA_PATTERNS) as [k |]; cbn [bind] in Hself; [| discriminate].
    destruct (compile_table NPC_INTERACTION_PATTERNS) as [n |] eqn:En; cbn [bind] in Hself;
      [| discriminate].
    inversion Hself; subst. cbn [_npc_compiled]. eapply compile_table_keys, En. }
  pose proof (fun t => npc_interactions_shape self (strip (lower (message action))) t) as Hshape.
  cbv zeta in Hshape.
  destruct target as [t |].
  - specialize (Hshape t).
    destruct (String.eqb_spec t "") as [-> | Hne].
    + cbn [bind].
      destruct (_detect_intent (strip (lower (message action))) ty) as [intent | e];
        cbn [bind]; [| discriminate].
      destruct (_evaluate_coherence ty (current_scene_type action)) as [co notes].
      destruct (_check_decision_triggers (strip (lower (message action)))) as [trig | e];
        cbn [bind]; [| discriminate].
      intros E. inversion E; subst. cbn [target_npc npc_interactions].
      split; [| split].
      * intros t' E'. inversion E'; subst. eapply detect_target_member, Et.
      * reflexivity.
      * intros t' E' Hne. inversion E'; subst. contradiction.
    + set (m := fold_left _ (_npc_compiled self) ∅) in *.
      assert (Hm : exists kind,
                 (match m !! t with
                  | Some _ => Ok m
                  | None => Ok (<[t := "neutral"%string]> m)
                  end : Result (gmap string string)) = Ok {[t := kind]}
                 /\ In kind [ "friendly"; "hostile"; "deceptive"; "confrontation"; "seductive";
                              "professional"; "neutral" ]%string).
      { destruct Hshape as [-> | (kind & Hk & ->)].
        - rewrite lookup_empty. exists "neutral"%string. split.
          + reflexivity.
          + cbn [In]. tauto.
        - rewrite lookup_singleton_eq. exists kind. split; [reflexivity |].
          rewrite Hkinds in Hk. cbn [map fst NPC_INTERACTION_PATTERNS In] in Hk.
          cbn [In]. tauto. }
      destruct Hm as (kind & -> & Hkind). cbn [bind].
      destruct (_detect_intent (strip (lower (message action))) ty) as [intent | e];
        cbn [bind]; [| discriminate].
      destruct (_evaluate_coherence ty (current_scene_type action)) as [co notes].
      destruct (_check_decision_triggers (strip (lower (message action)))) as [trig | e];
        cbn [bind]; [| discriminate].
      intros E. inversion E; subst. cbn [target_npc npc_interactions].
      split; [| split].
      * intros t' E'. inversion E'; subst. eapply detect_target_member, Et.
      * intros [E' | E']; inversion E'; subst. contradiction.
      * intros t' E' _. inversion E'; subst. exists kind. auto.
  - cbn [bind].
    destruct (_detect_intent (strip (lower (message action))) ty) as [intent | e];
      cbn [bind]; [| discriminate].
    destruct (_evaluate_coherence ty (current_scene_type action)) as [co notes].
    destruct (_check_decision_triggers (strip (lower (message action)))) as [trig | e];
      cbn [bind]; [| discriminate].
    intros E. inversion E; subst. cbn [target_npc npc_interactions].
    split; [| split].
    + intros t' E'. discriminate E'.
    + reflexivity.
    + intros t' E'. discriminate E'.
Qed.

(** *** Karma detected in a message *)

Lemma fold_left_Zadd (l : list Z) (a : Z) :
  fold_left Z.add l a = a + fold_right Z.add 0 l.
Proof.
  revert a. induction l as [| x l IH]; intros a; cbn [fold_left fold_right]; [lia |].
  rewrite IH. lia.
Qed.

(** The least and the greatest total that a selection of karma codes can
    reach: the sum of the negative, respectively of the positive, amounts. *)
Lemma detect_karma_bounds (table : list (string * list regex)) (message : string) :
  let detected :=
    omap (fun '(action_code, patterns) =>
            if existsb (fun p => re_search p message) patterns
            then Some {| action_code := action_code;
                         amount := default 0 (dict_get action_code KARMA_ACTIONS);
                         reason := "Acción detectada: " +:+ action_code |}
            else None) table in
  fold_right (fun c acc => Z.min 0 (default 0 (dict_get c KARMA_ACTIONS)) + acc) 0
    (map fst table)
  <= fold_right Z.add 0 (map amount detected)
  <= fold_right (fun c acc => Z.max 0 (default 0 (dict_get c KARMA_ACTIONS)) + acc) 0
       (map fst table).
Proof.
  cbv zeta. induction table as [| [c ps] table IH]; cbn [omap list_omap map fst fold_right];
    [lia |].
  destruct (existsb (fun p => re_search p message) ps); cbn [map amount fold_right]; lia.
Qed.

Lemma detect_karma_codes (table : list (string * list regex)) (message : string) :
  let detected :=
    omap (fun '(action_code, patterns) =>
            if existsb (fun p => re_search p message) patterns
            then Some {| action_code := action_code;
                         amount := default 0 (dict_get action_code KARMA_ACTIONS);
                         reason := "Acción detectada: " +:+ action_code |}
            else None) table in
  sublist (map action_code detected) (map fst table)
  /\ forall k, In k detected ->
       amount k = default 0 (dict_get (action_code k) KARMA_ACTIONS)
       /\ reason k = "Acción detectada: " +:+ action_code k.
Proof.
  cbv zeta. induction table as [| [c ps] table [IH1 IH2]]; cbn [omap list_omap map fst].
  - split; [constructor | intros k []].
  - destruct (existsb (fun p => re_search p message) ps); cbn [map action_code].
    + split; [now apply sublist_skip |]. intros k [<- | Hk]; [split; reflexivity | auto].
    + split; [now apply sublist_cons | exact IH2].
Qed.

(** X23. Whatever message is analysed, the karma actions [analyze] detects
    are distinct codes of the karma pattern table, each with its amount from
    the karma action table; the total karma change is the sum of these
    amounts and lies between -78 and 47. *)
Theorem analyze_karma_total (self : Analyzer) (action : PlayerAction)
  (analysis : ActionAnalysis) :
  _compile_patterns = Ok self ->
  analyze self action = Ok analysis ->
  total_karma_change analysis = fold_right Z.add 0 (map amount (karma_actions analysis))
  /\ -78 <= total_karma_change analysis <= 47
  /\ List.NoDup (map action_code (karma_actions analysis))
  /\ (forall k, In k (karma_actions analysis) ->
        In (action_code k) (map fst KARMA_PATTERNS)
        /\ dict_get (action_code k) KARMA_ACTIONS = Some (amount k)
        /\ reason k = "Acción detectada: " +:+ action_code k).
Proof.
  intros Hself.
  assert (Hkeys : map fst (_karma_compiled self) = map fst KARMA_PATTERNS).
  { unfold _compile_patterns in Hself.
    destruct (compile_table ACTION_PATTERNS) as [a |]; cbn [bind] in Hself; [| discriminate].
    destruct (compile_table MORAL_PATTERNS) as [m |]; cbn [bind] in Hself; [| discriminate].
    destruct (compile_table KARMA_PATTERNS) as [k |] eqn:Ek; cbn [bind] in Hself;
      [| discriminate].
    destruct (compile_table NPC_INTERACTION_PATTERNS) as [n |]; cbn [bind] in Hself;
      [| discriminate].
    inversion Hself; subst. cbn [_karma_compiled]. eapply compile_table_keys, Ek. }
  unfold analyze.
  destruct (_classify_action_type self (strip (lower (message action)))) as [ty tc].
  destruct (_classify_moral_alignment self (strip (lower (message action)))) as [al ac].
  destruct (_detect_target_npc _ _) as [target | e]; cbn [bind]; [| discriminate].
  destruct (_detect_npc_interactions _ _ _) as [interactions | e]; cbn [bind]; [| discriminate].
  destruct (_detect_intent _ _) as [intent | e]; cbn [bind]; [| discriminate].
  destruct (_evaluate_coherence ty (current_scene_type action)) as [co notes].
  destruct (_check_decision_triggers _) as [trig | e]; cbn [bind]; [| discriminate].
  intros E. inversion E; subst. clear E. cbn [total_karma_change karma_actions].
  rewrite fold_left_Zadd, Z.add_0_l. unfold _detect_karma_actions.
  pose proof (detect_karma_bounds (_karma_compiled self) (strip (lower (message action))))
    as Hbounds.
  pose proof (detect_karma_codes (_karma_compiled self) (strip (lower (message action))))
    as Hcodes.
  cbv zeta in Hbounds, Hcodes. rewrite Hkeys in Hbounds, Hcodes.
  destruct Hcodes as [Hsub Hdata].
  split; [reflexivity |]. split.
  - replace (fold_right (fun c acc => Z.min 0 (default 0 (dict_get c KARMA_ACTIONS)) + acc) 0
               (map fst KARMA_PATTERNS)) with (-78) in Hbounds by (vm_compute; reflexivity).
    replace (fold_right (fun c acc => Z.max 0 (default 0 (dict_get c KARMA_ACTIONS)) + acc) 0
               (map fst KARMA_PATTERNS)) with 47 in Hbounds by (vm_compute; reflexivity).
    exact Hbounds.
  - split.
    + apply NoDup_ListNoDup. eapply sublist_NoDup; [| exact Hsub]. apply NoDup_ListNoDup.
      cbn [map fst KARMA_PATTERNS].
      repeat (constructor; [cbn [In]; intuition discriminate |]). constructor.
    + intros k Hk. destruct (Hdata k Hk) as [Ha Hr].
      assert (Hin : In (action_code k) (map fst KARMA_PATTERNS)).
      { apply list_elem_of_In. eapply elem_of_sublist; [| exact Hsub].
        apply list_elem_of_In. now apply in_map. }
      split; [exact Hin |]. split; [| exact Hr].
      rewrite Ha. cbn [map fst KARMA_PATTERNS In] in Hin.
      repeat (destruct Hin as [<- | Hin]; [reflexivity |]). destruct Hin.
Qed.

(** *** Coherence of an action with the scene *)

Lemma float_neq (x y : float) : Prim2SF x <> Prim2SF y -> x <> y.
Proof. intros H E. apply H. now rewrite E. Qed.

Ltac float_absurd :=
  match goal with
  | H : @eq float ?x ?y |- _ =>
      exfalso; revert H; apply float_neq; vm_compute; discriminate
  end.

Ltac coherence_case :=
  vm_compute;
  repeat match goal with
         | |- _ /\ _ => split
         | |- _ <-> _ => split
         | |- _ -> _ => intro
         | H : _ /\ _ |- _ => destruct H
         | H : _ \/ _ |- _ => destruct H
         | H : ex _ |- _ => destruct H
         | H : Some _ = Some _ |- _ => injection H as H; subst
         end;
  try reflexivity; try discriminate; try congruence; try float_absurd;
  try (exfalso; tauto); try tauto;
  try (eexists; split; [reflexivity | split; discriminate]);
  try (eexists; split; [reflexivity | split; assumption]).

(** X24. The coherence score is one of 1.0, 0.9, 0.8, 0.7 and 0.6; it is 1.0
    with empty notes when no scene type is given; dialogue and neutral actions
    never score below 0.9; the score is 0.6 exactly for combat in a scene that
    is not a combat scene, and 0.7 exactly for stealth in a social scene. *)
Theorem evaluate_coherence_scores (action_type : ActionType) (scene_type : option string) :
  let score := fst (_evaluate_coherence action_type scene_type) in
  In score [1; 0.9; 0.8; 0.7; 0.6]%float
  /\ (scene_type = None \/ scene_type = Some ""%string ->
      _evaluate_coherence action_type scene_type = (1%float, []))
  /\ (action_type = DIALOGUE \/ action_type = NEUTRAL -> In score [1; 0.9]%float)
  /\ (score = 0.6%float <->
      action_type = COMBAT
      /\ exists scene, scene_type = Some scene /\ scene <> ""%string
                       /\ scene <> "combat"%string)
  /\ (score = 0.7%float <->
      action_type = STEALTH /\ scene_type = Some "social"%string).
Proof.
  cbv zeta. destruct scene_type as [scene |]; [| coherence_case].
  unfold _evaluate_coherence.
  destruct (String.eqb_spec scene "") as [-> | Hempty]; [coherence_case |].
  cbv zeta. cbn [dict_get].
  destruct (String.eqb_spec scene "narrative") as [-> | Hn];
    [destruct action_type; coherence_case |].
  destruct (String.eqb_spec scene "combat") as [-> | Hc];
    [destruct action_type; coherence_case |].
  destruct (String.eqb_spec scene "puzzle") as [-> | Hp];
    [destruct action_type; coherence_case |].
  destruct (String.eqb_spec scene "social") as [-> | Hs];
    [destruct action_type; coherence_case |].
  destruct (String.eqb_spec scene "revelation") as [-> | Hr];
    [destruct action_type; coherence_case |].
  destruct (String.eqb_spec scene "decision") as [-> | Hd];
    [destruct action_type; coherence_case |].
  cbn [default from_option id].
  destruct action_type; coherence_case.
Qed.

End Analyzer.

(** *** A stand-in for the library *)

(** Whether the parentheses of a pattern are closed; [depth] counts the
    open ones. *)
Fixpoint closed_parens (depth : nat) (pattern : string) : bool :=
  match pattern with
  | EmptyString => (depth =? 0)%nat
  | String c rest =>
      if Ascii.eqb c "(" then closed_parens (S depth) rest
      else if Ascii.eqb c ")"
           then match depth with
                | O => false
                | S d => closed_parens d rest
                end
           else closed_parens depth rest
  end.

(** A stand-in for [re.compile]: it rejects a pattern with an unclosed
    parenthesis, as the library does, and keeps any other pattern as it is. *)
Definition toy_compile (pattern : string) : option string :=
  if closed_parens 0 pattern then Some pattern else None.

(** A stand-in for [search] that never finds a match. *)
Definition toy_search (r text : string) : bool := false.

Definition toy_analyzer : Analyzer string :=
  match _compile_patterns string toy_compile with
  | Ok self => self
  | Raise _ =>
      {| _action_compiled := []; _moral_compiled := [];
         _karma_compiled := []; _npc_compiled := [] |}
  end.

Definition hola (npcs : list string) : PlayerAction :=
  {| room_id := 1; user_id := 1; username := "ana"; message := "Hola";
     character_name := None; character_class := None;
     current_scene_type := None; active_npcs := npcs |}.

Lemma analyze_raises_witness :
  analyze string toy_compile toy_search toy_analyzer (hola [ "("%string ])
  = Raise (ReError "\ba (\b").
Proof.
  apply (analyze_raises_on_rejected_code string toy_compile toy_search toy_analyzer
           (hola [ "("%string ]) "(" []); reflexivity.
Defined.

(** With an NPC code that is a plain word, the same input yields the
    defaults. *)
Example analyze_defaults_varen :
  exists analysis,
    analyze string toy_compile toy_search toy_analyzer (hola [ "varen"%string ]) = Ok analysis
    /\ action_type analysis = NEUTRAL
    /\ moral_alignment analysis = NEUTRAL_ALIGNMENT
    /\ total_karma_change analysis = 0
    /\ target_npc analysis = None.
Proof. eexists. split; [vm_compute; reflexivity |]. repeat split. Qed.

(** The stand-in accepts every pattern of the four tables. *)
Lemma toy_compile_patterns : _compile_patterns string toy_compile = Ok toy_analyzer.
Proof. vm_compute. reflexivity. Qed.

Lemma toy_inline_patterns (k p : string) :
  In (k, p) (intent_patterns ++ trigger_patterns) -> toy_compile p <> None.
Proof.
  intros Hin. vm_compute in Hin.
  repeat (destruct Hin as [Hin | Hin]; [injection Hin as <- <-; vm_compute; discriminate |]).
  destruct Hin.
Qed.

Lemma toy_addressing_patterns (npcs : list string) (c p : string) :
  forallb (closed_parens 0) (flat_map addressing_patterns npcs) = true ->
  In c npcs -> In p (addressing_patterns c) -> toy_compile p <> None.
Proof.
  intros Hall Hc Hp. unfold toy_compile.
  rewrite forallb_forall in Hall. rewrite (Hall p); [discriminate |].
  apply in_flat_map. eauto.
Qed.

Lemma analyze_returns_witness :
  exists analysis,
    analyze string toy_compile toy_search toy_analyzer (hola [ "varen"; "hola" ]%string)
    = Ok analysis.
Proof.
  apply (analyze_returns string toy_compile toy_search toy_analyzer
           (hola [ "varen"; "hola" ]%string)).
  - exact toy_inline_patterns.
  - intros c p. apply toy_addressing_patterns. vm_compute. reflexivity.
Defined.

(** "Hola" addressed to nobody in particular, with an NPC whose code is
    "hola": the code occurs in the message, so that NPC is the target. *)
Lemma analyze_target_and_interactions_witness :
  exists analysis,
    analyze string toy_compile toy_search toy_analyzer (hola [ "varen"; "hola" ]%string)
    = Ok analysis
    /\ target_npc analysis = Some "hola"%string
    /\ exists kind,
         npc_interactions analysis = {[ "hola"%string := kind ]}
         /\ In kind [ "friendly"; "hostile"; "deceptive"; "confrontation"; "seductive";
                      "professional"; "neutral" ]%string.
Proof.
  eexists. split; [vm_compute; reflexivity |]. split; [reflexivity |].
  refine (proj2 (proj2 (analyze_target_and_interactions string toy_compile toy_search
                          toy_analyzer (hola [ "varen"; "hola" ]%string) _
                          toy_compile_patterns _)) "hola"%string _ _).
  - vm_compute. reflexivity.
  - reflexivity.
  - discriminate.
Defined.

Lemma analyze_karma_total_witness :
  exists analysis,
    analyze string toy_compile toy_search toy_analyzer (hola [ "varen"%string ]) = Ok analysis
    /\ -78 <= total_karma_change analysis <= 47.
Proof.
  eexists. split; [vm_compute; reflexivity |].
  refine (proj1 (proj2 (analyze_karma_total string toy_compile toy_search toy_analyzer
                          (hola [ "varen"%string ]) _ toy_compile_patterns _))).
  vm_compute. reflexivity.
Defined.

(** With a search that finds every pattern, all nine codes of the karma
    pattern table are detected and the total is the sum of the nine amounts. *)
Example analyze_karma_all_matched :
  exists analysis,
    analyze string toy_compile (fun _ _ => true) toy_analyzer (hola []) = Ok analysis
    /\ length (karma_actions analysis) = 9%nat
    /\ total_karma_change analysis = -31.
Proof. eexists. split; [vm_compute; reflexivity |]. split; reflexivity. Qed.

End NarrativeAnalyzer.
